(** * AliceV1 voice service: the [AudioLoop] session engine

    A shallow embedding of [services/voice-gemini/audio_loop.py] and the
    properties of its four pipelines (capture, send, receive, playback),
    of the transcript diffing, the voice activity detector and the tool
    dispatcher.

    Conventions of the embedding.
    - A Python [str] is a Rocq [string] holding its UTF-8 encoding;
      [startswith] and slicing at [len(prefix)] commute with that encoding.
    - [bytes] are lists of [Byte.byte].
    - The optional callbacks of [AudioLoop] are booleans (installed or
      [None]); a call of a callback, a [print], a sleep, a device write and
      a [session.send] are recorded as [effect]s, in program order, when
      the call returns: a call that raises leaves no effect.
    - What the outside does at a call is given to the function that makes
      the call: the answer of the control service ([http_client]), the
      result of a device read or write, and, for every [session.send] and
      every call of [on_tool_call], whether it raises.
    - asyncio is cooperative: a task is only interleaved at an [await].
      Every loop takes, for each of its suspension points, the list of
      [atomic] actions the other tasks and the controller perform meanwhile.
    - [time.time()] values are rationals ([Q]); the RMS value is the exact
      integer part of the root of the mean square, which is what the
      float computation returns for 16-bit frames of the configured size. *)

From Stdlib Require Import ZArith QArith String List.
From stdpp Require Import gmap strings list pretty.

Local Open Scope string_scope.
Local Open Scope list_scope.

(** ** Data *)

Definition bytes := list Byte.byte.

(** Values found in the [args] mapping of a function call. *)
Inductive value :=
| VNone
| VBool (b : bool)
| VInt (z : Z)
| VStr (s : string).

(** [str(v)], as an f-string formats it. *)
Definition py_str (v : value) : string :=
  match v with
  | VNone => "None"
  | VBool true => "True"
  | VBool false => "False"
  | VInt z => pretty z
  | VStr s => s
  end.

(** What [session.send] is given as [input]: a realtime audio message
    [{"data": ..., "mime_type": ...}] or a text. *)
Inductive session_input :=
| InputAudio (data : bytes) (mime_type : string)
| InputText (s : string).

(** One constructor for each [print] of the module. *)
Inductive log_line :=
| LogCleared (count : nat)
| LogOpenInputFailed (e : string)
| LogSpeechDetected (rms : Z)
| LogReadError (e : string)
| LogReceiveError (e : string)
| LogTool (name : string) (args : option (gmap string value))
| LogOpenOutputFailed (e : string)
| LogPlaybackError (e : string)
| LogStarting
| LogConnected
| LogSessionEnded.

Inductive stream_side := InputStream | OutputStream.

Inductive effect :=
| Print (line : log_line)
| Sleep (seconds : Q)
| OnError (msg : string)
| OnTranscription (sender text : string)
| OnToolCall (name : string) (args : option (gmap string value))
| OnAudioData (data : bytes)
| SessionSend (input : session_input) (end_of_turn : bool)
| StreamWrite (data : bytes)
| StreamClose (side : stream_side).

(** The events of the remote session (the fields the engine reads). *)
Record Transcription := { text : option string }.

Record ServerContent := {
  input_transcription : option Transcription;
  output_transcription : option Transcription
}.

(** A function call of the model; [args] is [None] when the call came
    without arguments. *)
Record FunctionCall := {
  name : string;
  args : option (gmap string value)
}.

Record ToolCall := { function_calls : list FunctionCall }.

Record Response := {
  data : option bytes;
  server_content : option ServerContent;
  tool_call : option ToolCall
}.

(** The JSON body posted to the smart-home control service and what the
    call comes back with: a response, or an exception with its text. *)
Record ControlRequest := {
  target : value;
  action : value;
  brightness : value;
  color : value
}.

Inductive HttpOutcome :=
| HttpResponse (status_code : Z) (resp_text : string)
| HttpRaised (e : string).

Definition http_client := string -> ControlRequest -> Q -> HttpOutcome.

(** ** The engine state: the attributes of [AudioLoop] *)

Record AudioLoop := mkAudioLoop {
  on_audio_data : bool;
  on_transcription : bool;
  on_tool_call : bool;
  on_error : bool;
  input_device_index : value;
  orchestrator_url : string;
  audio_in_queue : list bytes;
  out_queue : list session_input;
  paused : bool;
  stop_event : bool;
  _last_input_transcription : string;
  _last_output_transcription : string;
  is_speaking : bool;
  _is_user_speaking : bool;
  _silence_start_time : option Q
}.

(** [AudioLoop.__init__], with the two queues as [run] creates them before
    it starts the pipelines. The device index is stored as it is given
    ([VNone] for [None]). *)
Definition AudioLoop_init (a t c e : bool) (dev : value) (url : string)
  : AudioLoop :=
  mkAudioLoop a t c e dev url [] [] false false "" "" false false None.

Definition with_audio_in_queue (q : list bytes) (self : AudioLoop) :=
  mkAudioLoop (on_audio_data self) (on_transcription self) (on_tool_call self)
    (on_error self) (input_device_index self) (orchestrator_url self)
    q (out_queue self) (paused self) (stop_event self)
    (_last_input_transcription self) (_last_output_transcription self)
    (is_speaking self) (_is_user_speaking self) (_silence_start_time self).

Definition with_out_queue (q : list session_input) (self : AudioLoop) :=
  mkAudioLoop (on_audio_data self) (on_transcription self) (on_tool_call self)
    (on_error self) (input_device_index self) (orchestrator_url self)
    (audio_in_queue self) q (paused self) (stop_event self)
    (_last_input_transcription self) (_last_output_transcription self)
    (is_speaking self) (_is_user_speaking self) (_silence_start_time self).

Definition with_paused (b : bool) (self : AudioLoop) :=
  mkAudioLoop (on_audio_data self) (on_transcription self) (on_tool_call self)
    (on_error self) (input_device_index self) (orchestrator_url self)
    (audio_in_queue self) (out_queue self) b (stop_event self)
    (_last_input_transcription self) (_last_output_transcription self)
    (is_speaking self) (_is_user_speaking self) (_silence_start_time self).

Definition with_stop_event (b : bool) (self : AudioLoop) :=
  mkAudioLoop (on_audio_data self) (on_transcription self) (on_tool_call self)
    (on_error self) (input_device_index self) (orchestrator_url self)
    (audio_in_queue self) (out_queue self) (paused self) b
    (_last_input_transcription self) (_last_output_transcription self)
    (is_speaking self) (_is_user_speaking self) (_silence_start_time self).

Definition with_last_input (s : string) (self : AudioLoop) :=
  mkAudioLoop (on_audio_data self) (on_transcription self) (on_tool_call self)
    (on_error self) (input_device_index self) (orchestrator_url self)
    (audio_in_queue self) (out_queue self) (paused self) (stop_event self)
    s (_last_output_transcription self)
    (is_speaking self) (_is_user_speaking self) (_silence_start_time self).

Definition with_last_output (s : string) (self : AudioLoop) :=
  mkAudioLoop (on_audio_data self) (on_transcription self) (on_tool_call self)
    (on_error self) (input_device_index self) (orchestrator_url self)
    (audio_in_queue self) (out_queue self) (paused self) (stop_event self)
    (_last_input_transcription self) s
    (is_speaking self) (_is_user_speaking self) (_silence_start_time self).

Definition with_is_speaking (b : bool) (self : AudioLoop) :=
  mkAudioLoop (on_audio_data self) (on_transcription self) (on_tool_call self)
    (on_error self) (input_device_index self) (orchestrator_url self)
    (audio_in_queue self) (out_queue self) (paused self) (stop_event self)
    (_last_input_transcription self) (_last_output_transcription self)
    b (_is_user_speaking self) (_silence_start_time self).

Definition with_user_speaking (b : bool) (self : AudioLoop) :=
  mkAudioLoop (on_audio_data self) (on_transcription self) (on_tool_call self)
    (on_error self) (input_device_index self) (orchestrator_url self)
    (audio_in_queue self) (out_queue self) (paused self) (stop_event self)
    (_last_input_transcription self) (_last_output_transcription self)
    (is_speaking self) b (_silence_start_time self).

Definition with_silence_start (t : option Q) (self : AudioLoop) :=
  mkAudioLoop (on_audio_data self) (on_transcription self) (on_tool_call self)
    (on_error self) (input_device_index self) (orchestrator_url self)
    (audio_in_queue self) (out_queue self) (paused self) (stop_event self)
    (_last_input_transcription self) (_last_output_transcription self)
    (is_speaking self) (_is_user_speaking self) t.

(** ** Controller operations *)

Definition set_paused (b : bool) (self : AudioLoop) : AudioLoop :=
  with_paused b self.

(** [stop_event.set()]. *)
Definition stop (self : AudioLoop) : AudioLoop :=
  with_stop_event true self.

(** The loop of [clear_audio_queue]: one [get_nowait] per round, counted. *)
Fixpoint drain (q : list bytes) (count : nat) : list bytes * nat :=
  match q with
  | [] => (q, count)
  | _ :: q' => drain q' (S count)
  end.

Definition clear_audio_queue (self : AudioLoop) : AudioLoop * list effect :=
  let '(q, count) := drain (audio_in_queue self) 0 in
  (with_audio_in_queue q self,
   if (0 <? count)%nat then [Print (LogCleared count)] else []).

(** ** Transcript diffing (receive_audio, lines 274-300) *)

(** Truth value of a [str]: false exactly for the empty one. *)
Definition truthy (s : string) : bool :=
  match s with
  | EmptyString => false
  | String _ _ => true
  end.

(** [s.startswith(p)]. *)
Definition startswith (s p : string) : bool := String.prefix p s.

(** [s[n:]]. *)
Definition slice_from (n : nat) (s : string) : string :=
  String.substring n (String.length s - n) s.

(** [delta = transcript], replaced by [transcript[len(last):]] when the
    transcript starts with the text seen last. *)
Definition prefix_diff (last transcript : string) : string :=
  if startswith transcript last
  then slice_from (String.length last) transcript
  else transcript.

(** The guard [transcript and transcript != last]; a [text] of [None] is
    falsy as well. *)
Definition is_new_text (last : string) (transcript : option string) : bool :=
  match transcript with
  | Some t => truthy t && negb (String.eqb t last)
  | None => false
  end.

(** User transcription: lines 276-287. *)
Definition handle_input_transcription (self : AudioLoop) (it : Transcription)
  : AudioLoop * list effect :=
  match text it with
  | Some transcript =>
      if is_new_text (_last_input_transcription self) (Some transcript) then
        let delta := prefix_diff (_last_input_transcription self) transcript in
        let self := with_last_input transcript self in
        if truthy delta then
          let '(self, cleared) := clear_audio_queue self in
          (self,
           cleared ++
           if on_transcription self then [OnTranscription "User" delta] else [])
        else (self, [])
      else (self, [])
  | None => (self, [])
  end.

(** Model transcription: lines 290-300. *)
Definition handle_output_transcription (self : AudioLoop) (ot : Transcription)
  : AudioLoop * list effect :=
  match text ot with
  | Some transcript =>
      if is_new_text (_last_output_transcription self) (Some transcript) then
        let delta := prefix_diff (_last_output_transcription self) transcript in
        let self := with_last_output transcript self in
        if truthy delta then
          (self,
           if on_transcription self then [OnTranscription "Alice" delta] else [])
        else (self, [])
      else (self, [])
  | None => (self, [])
  end.

(** ** Tool dispatcher (_handle_tool_calls, lines 316-356) *)

(** [m.get(key, dflt)] on a mapping. *)
Definition arg_get (m : gmap string value) (key : string) (dflt : value)
  : value :=
  default dflt (m !! key).

(** The text of the [AttributeError] that [fc.args.get] raises when
    [fc.args] is [None]. *)
Definition NONE_HAS_NO_GET : string :=
  "'NoneType' object has no attribute 'get'".

(** The body of the [try]: [inr] is the value of [result] when the body
    completes, [inl] the text of the exception it raises. The request body
    is built, and so [fc.args.get] is called, before the request is
    posted. *)
Definition tool_try (post : http_client) (self : AudioLoop) (fc : FunctionCall)
  : string + string :=
  if String.eqb (name fc) "control_smart_home" then
    match args fc with
    | None => inl NONE_HAS_NO_GET
    | Some m =>
        match post (orchestrator_url self +:+ "/api/smart-home/control")
                   {| target := arg_get m "device" (VStr "");
                      action := arg_get m "action" (VStr "turn_on");
                      brightness := arg_get m "brightness" VNone;
                      color := arg_get m "color" VNone |}
                   10%Q with
        | HttpRaised e => inl e
        | HttpResponse status_code resp_text =>
            if (status_code =? 200)%Z
            then inr ("Klart! Enheten har " +:+
                      py_str (arg_get m "action" (VStr "uppdaterats")) +:+ ".")
            else inr ("Kunde inte styra enheten: " +:+ resp_text)
        end
    end
  else if String.eqb (name fc) "web_search" then
    match args fc with
    | None => inl NONE_HAS_NO_GET
    | Some m => inr ("Söker efter: " +:+ py_str (arg_get m "query" (VStr "")))
    end
  else inr "Verktyget är inte tillgängligt.".

(** [result] after the [try ... except Exception as e]. *)
Definition tool_result (post : http_client) (self : AudioLoop) (fc : FunctionCall)
  : string :=
  match tool_try post self fc with
  | inr result => result
  | inl e => "Fel vid verktygsanrop: " +:+ e
  end.

(** What the callback and the session do while one function call is
    handled: whether [on_tool_call] raises (lines 323-324) and whether
    [session.send] raises (lines 353-356). Both calls are outside the
    [try], so what they raise leaves [_handle_tool_calls]. *)
Record tool_round := {
  observer_raised : option string;
  answer_raised : option string
}.

(** A round in which nothing raises. *)
Definition accepted : tool_round :=
  {| observer_raised := None; answer_raised := None |}.

(** One round of the [for fc in function_calls] loop: its effects, and
    the text of the exception that ends it, if any. *)
Definition handle_tool_call (post : http_client) (self : AudioLoop)
  (fc : FunctionCall) (tr : tool_round) : list effect * option string :=
  let logged := [Print (LogTool (name fc) (args fc))] in
  match (if on_tool_call self then observer_raised tr else None) with
  | Some e => (logged, Some e)
  | None =>
      let observed :=
        if on_tool_call self then [OnToolCall (name fc) (args fc)] else [] in
      match answer_raised tr with
      | Some e => (logged ++ observed, Some e)
      | None =>
          (logged ++ observed ++
           [SessionSend
              (InputText ("Verktygsresultat för " +:+ name fc +:+ ": " +:+
                          tool_result post self fc))
              true],
           None)
      end
  end.

(** The loop over the batch; [env] holds the round of each call, in
    order (a call past its end meets no exception). An exception ends the
    loop: the calls behind it are not handled. *)
Fixpoint _handle_tool_calls (post : http_client) (self : AudioLoop)
  (function_calls : list FunctionCall) (env : list tool_round)
  : list effect * option string :=
  match function_calls with
  | [] => ([], None)
  | fc :: rest =>
      let first := handle_tool_call post self fc (default accepted (head env)) in
      match snd first with
      | Some e => first
      | None =>
          let more := _handle_tool_calls post self rest (tail env) in
          (fst first ++ fst more, snd more)
      end
  end.

(** ** Receive pipeline: one response of a turn (lines 268-304) *)

Definition handle_audio_data (self : AudioLoop) (d : option bytes) : AudioLoop :=
  match d with
  | Some (_ :: _ as chunk) =>
      with_is_speaking true
        (with_audio_in_queue (audio_in_queue self ++ [chunk]) self)
  | _ => self
  end.

Definition handle_server_content (self : AudioLoop) (sc : ServerContent)
  : AudioLoop * list effect :=
  let '(self, user_events) :=
    match input_transcription sc with
    | Some it => handle_input_transcription self it
    | None => (self, [])
    end in
  let '(self, model_events) :=
    match output_transcription sc with
    | Some ot => handle_output_transcription self ot
    | None => (self, [])
    end in
  (self, user_events ++ model_events).

(** The body of the [async for]: the state and the effects it leaves, and
    the text of the exception that leaves it, if any. [env] is what the
    callback and the session do at the function calls of the response. *)
Definition process_response (post : http_client) (self : AudioLoop)
  (response : Response) (env : list tool_round)
  : AudioLoop * list effect * option string :=
  let self := handle_audio_data self (data response) in
  let '(self, transcriptions) :=
    match server_content response with
    | Some sc => handle_server_content self sc
    | None => (self, [])
    end in
  let tools :=
    match tool_call response with
    | Some tc => _handle_tool_calls post self (function_calls tc) env
    | None => ([], None)
    end in
  (self, transcriptions ++ fst tools, snd tools).

(** The end of a turn (lines 306-309). *)
Definition turn_boundary (self : AudioLoop) : AudioLoop :=
  with_last_output "" (with_last_input "" (with_is_speaking false self)).

(** ** Capture pipeline: RMS energy and voice activity (lines 212-254) *)

Definition CHUNK_SIZE : nat := 1024.
Definition VAD_THRESHOLD : Z := 800.
Definition SILENCE_DURATION : Q := 1 # 2.

(** One little-endian signed 16-bit sample. *)
Definition short_of (lo hi : Byte.byte) : Z :=
  let u := (Z.of_N (Byte.to_N lo) + 256 * Z.of_N (Byte.to_N hi))%Z in
  if (u <? 32768)%Z then u else (u - 65536)%Z.

Fixpoint shorts_of (frame : bytes) : list Z :=
  match frame with
  | lo :: hi :: rest => short_of lo hi :: shorts_of rest
  | _ => []
  end.

(** [struct.unpack(f"<{count}h", data)]: the buffer must hold exactly
    [count] samples, or [struct.error] is raised ([inl], with its text). *)
Definition struct_unpack (count : nat) (frame : bytes) : string + list Z :=
  if (length frame =? 2 * count)%nat then inr (shorts_of frame)
  else inl ("unpack requires a buffer of " +:+ pretty (2 * count)%nat +:+ " bytes").

(** Lines 235-241. *)
Definition frame_rms (frame : bytes) : string + Z :=
  let count := (length frame / 2)%nat in
  if (0 <? count)%nat then
    match struct_unpack count frame with
    | inr shorts =>
        let sum_squares := fold_left Z.add (map (fun s => s ^ 2)%Z shorts) 0%Z in
        inr (Z.sqrt (sum_squares / Z.of_nat count))
    | inl e => inl e
    end
  else inr 0%Z.

Definition Qlt_bool (x y : Q) : bool := negb (Qle_bool y x).

(** Lines 243-254; [now] is what [time.time()] returns in this round. *)
Definition vad_update (self : AudioLoop) (rms : Z) (now : Q)
  : AudioLoop * list effect :=
  if (rms >? VAD_THRESHOLD)%Z then
    let self := with_silence_start None self in
    if negb (_is_user_speaking self)
    then (with_user_speaking true self, [Print (LogSpeechDetected rms)])
    else (self, [])
  else if _is_user_speaking self then
    match _silence_start_time self with
    | None => (with_silence_start (Some now) self, [])
    | Some since =>
        if Qlt_bool SILENCE_DURATION (now - since)
        then (with_silence_start None (with_user_speaking false self), [])
        else (self, [])
    end
  else (self, []).

Inductive read_result :=
| ReadOk (frame : bytes)
| ReadRaised (e : string).

(** [out_queue.put({"data": data, "mime_type": "audio/pcm"})]; the test
    [if self.out_queue] holds for every queue object. *)
Definition enqueue_frame (self : AudioLoop) (frame : bytes) : AudioLoop :=
  with_out_queue (out_queue self ++ [InputAudio frame "audio/pcm"]) self.

(** The body of the [try] (lines 222-254), from the moment the read
    returns: the state and effects it leaves, and the text of the exception
    when it raises. *)
Definition listen_try (self : AudioLoop) (r : read_result) (now : Q)
  : AudioLoop * list effect * option string :=
  match r with
  | ReadRaised e => (self, [], Some e)
  | ReadOk frame =>
      if is_speaking self then (self, [], None)
      else
        let self := enqueue_frame self frame in
        match frame_rms frame with
        | inl e => (self, [], Some e)
        | inr rms =>
            let '(self, logged) := vad_update self rms now in
            (self, logged, None)
        end
  end.

(** The [except Exception] handler of the capture loop (lines 256-258). *)
Definition read_error_handler (e : string) : list effect :=
  [Print (LogReadError e); Sleep (1 # 10)].

(** [try] and handler together. *)
Definition listen_iteration (self : AudioLoop) (r : read_result) (now : Q)
  : AudioLoop * list effect :=
  match listen_try self r now with
  | (self, logged, None) => (self, logged)
  | (self, logged, Some e) => (self, logged ++ read_error_handler e)
  end.

(** ** Atomic actions of the engine

    What the controller and the pipelines do to the shared state between
    two suspension points. The state a response leaves does not depend on
    what happens at its function calls (they change no attribute). *)

Inductive atomic :=
| ActStop
| ActSetPaused (b : bool)
| ActCapture (r : read_result) (now : Q)
| ActSendDequeue
| ActReceive (response : Response)
| ActTurnBoundary
| ActPlayDequeue.

Definition perform (post : http_client) (a : atomic) (self : AudioLoop)
  : AudioLoop :=
  match a with
  | ActStop => stop self
  | ActSetPaused b => set_paused b self
  | ActCapture r now => fst (listen_iteration self r now)
  | ActSendDequeue => with_out_queue (tail (out_queue self)) self
  | ActReceive response => fst (fst (process_response post self response []))
  | ActTurnBoundary => turn_boundary self
  | ActPlayDequeue => with_audio_in_queue (tail (audio_in_queue self)) self
  end.

(** The other tasks run while this one is suspended. *)
Definition interfere (post : http_client) (others : list atomic)
  (self : AudioLoop) : AudioLoop :=
  fold_left (fun s a => perform post a s) others self.

(** ** The four loops *)

(** How a run of a loop over the given rounds ends: the coroutine has
    returned, is waiting at an [await], or was left by an exception. *)
Inductive status :=
| Exited
| Suspended
| Raised (e : string).

Record outcome := {
  final : AudioLoop;
  effects : list effect;
  state : status
}.

Definition after (done : list effect) (o : outcome) : outcome :=
  {| final := final o; effects := done ++ effects o; state := state o |}.

(** Capture: what happens around one read of the device. *)
Record capture_round := {
  while_reading : list atomic;
  read : read_result;
  now : Q;
  while_backing_off : list atomic
}.

(** [while not self.stop_event.is_set()] of [listen_audio] and the
    [audio_stream.close()] after it. *)
Fixpoint listen_loop (post : http_client) (rounds : list capture_round)
  (self : AudioLoop) : outcome :=
  if stop_event self then
    {| final := self; effects := [StreamClose InputStream]; state := Exited |}
  else
    match rounds with
    | [] => {| final := self; effects := []; state := Suspended |}
    | r :: rest =>
        if paused self then
          let self := interfere post (while_reading r) self in
          after [Sleep (1 # 10)] (listen_loop post rest self)
        else
          let self := interfere post (while_reading r) self in
          match listen_try self (read r) (now r) with
          | (self, logged, None) =>
              after logged (listen_loop post rest self)
          | (self, logged, Some e) =>
              let self := interfere post (while_backing_off r) self in
              after (logged ++ read_error_handler e)
                    (listen_loop post rest self)
          end
    end.

(** What [pya.open] does for a device index: it returns a stream, raises
    [OSError], or raises another exception. *)
Inductive open_result :=
| Opened
| OpenOSError (e : string)
| OpenRaised (e : string).

(** [listen_audio]: the default input device is asked for first ([mic_info]
    is its index, or the text of the exception when there is none); an
    index given to the constructor overrides it; only an [OSError] of the
    open is handled. *)
Definition listen_audio (post : http_client) (mic_info : string + Z)
  (open_input : value -> open_result) (rounds : list capture_round)
  (self : AudioLoop) : outcome :=
  match mic_info with
  | inl e => {| final := self; effects := []; state := Raised e |}
  | inr default_index =>
      let device_index :=
        match input_device_index self with
        | VNone => VInt default_index
        | index => index
        end in
      match open_input device_index with
      | OpenOSError e =>
          {| final := self;
             effects := [Print (LogOpenInputFailed e)] ++
                        (if on_error self
                         then [OnError ("Microphone error: " +:+ e)] else []);
             state := Exited |}
      | OpenRaised e => {| final := self; effects := []; state := Raised e |}
      | Opened => listen_loop post rounds self
      end
  end.

(** Send: [while True], a blocking [get] and a [send]; [send_raised] is
    the text of the exception [session.send] raises in this round, if any.
    Nothing handles it: it ends the loop and the message is lost. *)
Record send_round := {
  while_getting : list atomic;
  while_sending : list atomic;
  send_raised : option string
}.

Fixpoint send_realtime (post : http_client) (rounds : list send_round)
  (self : AudioLoop) : outcome :=
  match rounds with
  | [] => {| final := self; effects := []; state := Suspended |}
  | r :: rest =>
      let self := interfere post (while_getting r) self in
      match out_queue self with
      | [] => send_realtime post rest self
      | msg :: q =>
          let self := with_out_queue q self in
          let self := interfere post (while_sending r) self in
          match send_raised r with
          | Some e => {| final := self; effects := []; state := Raised e |}
          | None =>
              after [SessionSend msg false] (send_realtime post rest self)
          end
      end
  end.

(** Receive: a turn is the responses the session yields, each after a
    wait and each with what the callback and the session do at its
    function calls, and the way the iteration over them ends. *)
Inductive turn_end :=
| TurnComplete
| TurnRaised (e : string).

Definition arrival := (list atomic * Response * list tool_round)%type.

Record turn := {
  responses : list arrival;
  while_ending : list atomic;
  ending : turn_end
}.

(** The [async for] over a turn, up to the first exception. *)
Fixpoint process_turn (post : http_client) (rs : list arrival)
  (self : AudioLoop) : AudioLoop * list effect * option string :=
  match rs with
  | [] => (self, [], None)
  | (others, response, env) :: rest =>
      let self := interfere post others self in
      match process_response post self response env with
      | (self, first, Some e) => (self, first, Some e)
      | (self, first, None) =>
          let '(self, more, raised) := process_turn post rest self in
          (self, first ++ more, raised)
      end
  end.

(** The [except Exception] handler of [receive_audio] (lines 311-314). *)
Definition receive_error_handler (self : AudioLoop) (e : string)
  : list effect :=
  [Print (LogReceiveError e)] ++ (if on_error self then [OnError e] else []).

Fixpoint receive_audio (post : http_client) (turns : list turn)
  (self : AudioLoop) : outcome :=
  if stop_event self then
    {| final := self; effects := []; state := Exited |}
  else
    match turns with
    | [] => {| final := self; effects := []; state := Suspended |}
    | t :: rest =>
        match process_turn post (responses t) self with
        | (self, emitted, Some e) =>
            {| final := self;
               effects := emitted ++ receive_error_handler self e;
               state := Exited |}
        | (self, emitted, None) =>
            let self := interfere post (while_ending t) self in
            match ending t with
            | TurnComplete =>
                after emitted (receive_audio post rest (turn_boundary self))
            | TurnRaised e =>
                {| final := self;
                   effects := emitted ++ receive_error_handler self e;
                   state := Exited |}
            end
        end
    end.

(** Playback: a [get] bounded by 0.1 s, then the device write. *)
Record playback_round := {
  while_waiting : list atomic;
  write_raised : option string;
  while_writing : list atomic
}.

Fixpoint play_loop (post : http_client) (rounds : list playback_round)
  (self : AudioLoop) : outcome :=
  if stop_event self then
    {| final := self; effects := [StreamClose OutputStream]; state := Exited |}
  else
    match rounds with
    | [] => {| final := self; effects := []; state := Suspended |}
    | r :: rest =>
        let self := interfere post (while_waiting r) self in
        match audio_in_queue self with
        | [] => play_loop post rest self
        | chunk :: q =>
            let self := with_audio_in_queue q self in
            let self := interfere post (while_writing r) self in
            match write_raised r with
            | Some e =>
                after [Print (LogPlaybackError e)] (play_loop post rest self)
            | None =>
                after ([StreamWrite chunk] ++
                       (if on_audio_data self then [OnAudioData chunk] else []))
                      (play_loop post rest self)
            end
        end
    end.

Definition play_audio (post : http_client) (open_raised : option string)
  (rounds : list playback_round) (self : AudioLoop) : outcome :=
  match open_raised with
  | Some e =>
      {| final := self; effects := [Print (LogOpenOutputFailed e)];
         state := Exited |}
  | None => play_loop post rounds self
  end.



(** ** Observations used in the statements *)

(** The texts handed to the transcription callback for one sender. *)
Fixpoint emitted (sender : string) (es : list effect) : list string :=
  match es with
  | [] => []
  | OnTranscription who delta :: rest =>
      if String.eqb who sender then delta :: emitted sender rest
      else emitted sender rest
  | _ :: rest => emitted sender rest
  end.

(** What was sent into the session, with its end-of-turn tag. *)
Fixpoint sent (es : list effect) : list (session_input * bool) :=
  match es with
  | [] => []
  | SessionSend input end_of_turn :: rest => (input, end_of_turn) :: sent rest
  | _ :: rest => sent rest
  end.

(** The messages given to the error callback. *)
Fixpoint reported (es : list effect) : list string :=
  match es with
  | [] => []
  | OnError msg :: rest => msg :: reported rest
  | _ :: rest => reported rest
  end.

(** The cumulative text of the input (output) transcription of a response. *)
Definition input_text (response : Response) : option string :=
  match server_content response with
  | Some sc =>
      match input_transcription sc with
      | Some it => text it
      | None => None
      end
  | None => None
  end.

Definition output_text (response : Response) : option string :=
  match server_content response with
  | Some sc =>
      match output_transcription sc with
      | Some ot => text ot
      | None => None
      end
  | None => None
  end.

(** The delta computed against the stored text [last], when the guard lets
    one be computed. *)
Definition delta_of (last : string) (transcript : option string)
  : option string :=
  match transcript with
  | Some t =>
      if is_new_text last (Some t) then Some (prefix_diff last t) else None
  | None => None
  end.

Definition input_delta (self : AudioLoop) (response : Response) : option string :=
  delta_of (_last_input_transcription self) (input_text response).

Definition output_delta (self : AudioLoop) (response : Response) : option string :=
  delta_of (_last_output_transcription self) (output_text response).

(** The state and the effects the audio and transcription blocks of a
    response leave (lines 269-300), before its function calls. *)
Definition transcribed (self : AudioLoop) (response : Response)
  : AudioLoop * list effect :=
  match server_content response with
  | Some sc => handle_server_content (handle_audio_data self (data response)) sc
  | None => (handle_audio_data self (data response), [])
  end.

(** [if data := response.data] holds. *)
Definition carries_audio (response : Response) : bool :=
  match data response with
  | Some (_ :: _) => true
  | _ => false
  end.

(** The stored text after an event whose cumulative text is [transcript]. *)
Definition stored_after (last : string) (transcript : option string) : string :=
  match transcript with
  | Some t => if truthy t then t else last
  | None => last
  end.

(** A run of voice-activity updates over frames given by their RMS value
    and the clock at their update. *)
Fixpoint vad_run (frames : list (Z * Q)) (self : AudioLoop) : AudioLoop :=
  match frames with
  | [] => self
  | (rms, now) :: rest => vad_run rest (fst (vad_update self rms now))
  end.

Definition quiet (f : Z * Q) : Prop := (fst f <= VAD_THRESHOLD)%Z.

(** A running silence timer was started by a quiet frame, and every frame
    after that one was quiet. *)
Definition timer_justified (frames : list (Z * Q)) (self : AudioLoop) : Prop :=
  forall since, _silence_start_time self = Some since ->
  exists before first between,
    frames = before ++ (first, since) :: between /\
    Forall quiet ((first, since) :: between).

(** The request the dispatcher posts for a device-control call with the
    arguments [m], and the answer it sends back into the session for a
    call. *)
Definition control_request (m : gmap string value) : ControlRequest :=
  {| target := arg_get m "device" (VStr "");
     action := arg_get m "action" (VStr "turn_on");
     brightness := arg_get m "brightness" VNone;
     color := arg_get m "color" VNone |}.

Definition control_url (self : AudioLoop) : string :=
  orchestrator_url self +:+ "/api/smart-home/control".

Definition tool_answer (post : http_client) (self : AudioLoop)
  (fc : FunctionCall) : session_input * bool :=
  (InputText ("Verktygsresultat för " +:+ name fc +:+ ": " +:+
              tool_result post self fc),
   true).


(** Actions of the tasks other than the receive pipeline. *)
Definition not_receive (a : atomic) : Prop :=
  match a with
  | ActReceive _ | ActTurnBoundary => False
  | _ => True
  end.

(** No callback and no [session.send] raises at the function calls of
    these responses. *)
Definition calm (rs : list arrival) : Prop :=
  Forall (fun p => Forall (fun tr => tr = accepted) (snd p)) rs.


(** Sample values for the concrete instances below. *)
Definition alice : AudioLoop :=
  AudioLoop_init true true true true VNone "http://localhost:8000".

Definition chunk_a : bytes := [Byte.x01; Byte.x00].
Definition chunk_b : bytes := [Byte.x02; Byte.x00].

(** Three chunks wait for playback while the model is speaking. *)
Definition busy : AudioLoop :=
  with_is_speaking true (with_audio_in_queue [chunk_a; chunk_a; chunk_a] alice).

(** The state late in a turn: the model has said "hej" and is speaking. *)
Definition stale : AudioLoop :=
  with_last_output "hej" (with_last_input "hej" (with_is_speaking true alice)).

(** A turn that yields no response at all. *)
Definition empty_turn : turn :=
  {| responses := []; while_ending := []; ending := TurnComplete |}.

Definition no_service : http_client := fun _ _ _ => HttpRaised "timed out".

Definition refusing_service : http_client :=
  fun _ _ _ => HttpResponse 503 "device offline".

Definition heard (s : string) : Response :=
  {| data := None;
     server_content :=
       Some {| input_transcription := Some {| text := Some s |};
               output_transcription := None |};
     tool_call := None |}.

Definition said (s : string) : Response :=
  {| data := None;
     server_content :=
       Some {| input_transcription := None;
               output_transcription := Some {| text := Some s |} |};
     tool_call := None |}.

(** A response that carries both synthesized audio and new user text. *)
Definition heard_with_audio (s : string) : Response :=
  {| data := Some chunk_b;
     server_content :=
       Some {| input_transcription := Some {| text := Some s |};
               output_transcription := None |};
     tool_call := None |}.

Definition lamp_args : gmap string value :=
  {[ "device" := VStr "lampa"; "action" := VStr "turn_on" ]}.

Definition lamp_on : FunctionCall :=
  {| name := "control_smart_home"; args := Some lamp_args |}.

Definition unknown_tool : FunctionCall :=
  {| name := "play_music"; args := Some ∅ |}.

(** A frame of two samples of amplitude 1000, one of three bytes, a
    one-byte frame. *)
Definition loud_frame : bytes := [Byte.xe8; Byte.x03; Byte.xe8; Byte.x03].
Definition odd_frame : bytes := [Byte.x00; Byte.x00; Byte.x00].
Definition tiny_frame : bytes := [Byte.x07].

(** Speech, then quiet frames 1 s and 1.3 s after it. *)
Definition speech_then_silence : list (Z * Q) :=
  [(1000%Z, 0%Q); (120%Z, 1%Q); (90%Z, (13 # 10)%Q)].

(** The engine after [stop()], a captured frame still waiting to be sent. *)
Definition stopped : AudioLoop := stop (enqueue_frame alice loud_frame).

Definition idle_send : send_round :=
  {| while_getting := []; while_sending := []; send_raised := None |}.


Definition failed_read : capture_round :=
  {| while_reading := []; read := ReadRaised "Input overflowed";
     now := 0%Q; while_backing_off := [] |}.

Definition good_read (frame : bytes) (t : Q) : capture_round :=
  {| while_reading := []; read := ReadOk frame;
     now := t; while_backing_off := [] |}.

(** ** Further observations: queues, energy, activity *)

(** A playback round in which no other task runs; [w] is the error the
    device write raises, if any. *)
Definition quiet_play (w : option string) : playback_round :=
  {| while_waiting := []; write_raised := w; while_writing := [] |}.

(** What one playback round does with the chunk it dequeued. *)
Definition played (observed : bool) (chunk : bytes) (w : option string)
  : list effect :=
  match w with
  | Some e => [Print (LogPlaybackError e)]
  | None => [StreamWrite chunk] ++ (if observed then [OnAudioData chunk] else [])
  end.

(** Capture rounds in which no other task runs, one per frame read. *)
Definition quiet_reads (frames : list (bytes * Q)) : list capture_round :=
  map (fun f => good_read (fst f) (snd f)) frames.

Definition audio_message (frame : bytes) : session_input :=
  InputAudio frame "audio/pcm".

(** The silence timer only runs while the user is taken to be speaking. *)
Definition vad_ok (self : AudioLoop) : Prop :=
  _silence_start_time self = None \/ _is_user_speaking self = true.

(** Cumulative texts that grow: each one starts with the text stored when
    it arrives. *)
Fixpoint growing (last : string) (texts : list (option string)) : Prop :=
  match texts with
  | [] => True
  | None :: rest => growing last rest
  | Some t :: rest =>
      startswith t last = true /\ growing (stored_after last (Some t)) rest
  end.

(** The input texts of the responses of a turn, in order. *)
Definition input_texts (rs : list arrival) : list (option string) :=
  map (fun p => input_text (snd (fst p))) rs.

(** No task but the capture pipeline runs between the responses. *)
Definition undisturbed (rs : list arrival) : Prop :=
  Forall (fun p => Forall not_receive (fst (fst p))) rs.

(** The user speaks "hej", then "hej där", then "hej där Alice". *)
Definition growing_turn : list arrival :=
  [([], heard "hej", []);
   ([ActCapture (ReadOk loud_frame) 0%Q], heard "hej där", []);
   ([], heard "hej där Alice", [])].

Definition raising_turn : turn :=
  {| responses := [([], heard_with_audio "hej", [])]; while_ending := [];
     ending := TurnRaised "connection closed" |}.

Definition weather_query : gmap string value :=
  {[ "query" := VStr "väder Stockholm" ]}.

Definition web_search_call : FunctionCall :=
  {| name := "web_search"; args := Some weather_query |}.

Definition bare_args : gmap string value := {[ "device" := VStr "lampa" ]}.

Definition bare_control_call : FunctionCall :=
  {| name := "control_smart_home"; args := Some bare_args |}.

(** A web search that came without arguments. *)
Definition bare_search_call : FunctionCall :=
  {| name := "web_search"; args := None |}.

(** A batch of two calls in one response. *)
Definition asks (fcs : list FunctionCall) : Response :=
  {| data := None; server_content := None;
     tool_call := Some {| function_calls := fcs |} |}.

(** A response that carries synthesized audio, new user text and a web
    search to answer. *)
Definition heard_asking (s : string) : Response :=
  {| data := Some chunk_b;
     server_content :=
       Some {| input_transcription := Some {| text := Some s |};
               output_transcription := None |};
     tool_call := Some {| function_calls := [web_search_call] |} |}.

(** The session is gone when the first answer is sent. *)
Definition closed_session : list tool_round :=
  [{| observer_raised := None; answer_raised := Some "connection closed" |}].

(** The callback raises at the first call; the session accepts every
    answer. *)
Definition broken_observer : list tool_round :=
  [{| observer_raised := Some "no running event loop";
      answer_raised := None |}].

(** The stop signal is raised while the first of three responses is
    awaited. *)
Definition stopped_early : turn :=
  {| responses := [([ActStop], heard "hej", []); ([], heard "hej där", []);
                   ([], said "Hej!", [])];
     while_ending := []; ending := TurnComplete |}.

(** The session is gone when the first of two function calls is answered;
    the turn would have gone on with a word of the model. *)
Definition unanswered_turn : turn :=
  {| responses := [([], asks [unknown_tool; web_search_call], closed_session);
                   ([], said "Hej!", [])];
     while_ending := []; ending := TurnComplete |}.


Definition obliging_service : http_client :=
  fun _ _ _ => HttpResponse 200 "{}".

(** The deltas of a turn put back together. *)
Definition join (deltas : list string) : string :=
  fold_right String.append "" deltas.

(** * The control service behind the device-control tool

    [orchestrator/src/agents/kasa_agent.py] and the [/control] and
    [/discover] endpoints of [orchestrator/src/routers/smart_home.py].
    A device object of the python-kasa library is the record of the
    attributes the agent reads; what the device and the network do is the
    [World]. [str.lower] and [str.strip] are parameters ([Text]). The
    [devices] dict is an association list in insertion order. *)

Module Kasa.

Record Device := {
  alias : string;
  model : string;
  is_on : bool;
  is_bulb : bool;
  is_plug : bool;
  is_strip : bool;
  is_dimmer : bool;
  is_color : bool;
  is_dimmable : bool;
  brightness : Z;
  hsv : Z * Z * Z
}.

Inductive command :=
| TurnOn
| TurnOff
| SetBrightness (level : Z)
| SetHsv (h s v : Z).

(** [run_command ip dev c]: the call of the device method and the
    [dev.update()] after it; [inl e] when one of the two raises, else the
    attributes after the update. [discover_single ip]: raises, finds
    nothing, or finds a device. *)
Record World := {
  run_command : string -> Device -> command -> string + Device;
  discover_single : string -> string + option Device
}.

Record Text := {
  lower : string -> string;
  strip : string -> string;
  (** [str(e)] of an [HTTPException] with this status and detail. *)
  str_exception : Z -> string -> string
}.

Inductive event :=
| Issued (ip : string) (c : command)
| Probed (ip : string)
| Printed (line : string).

Definition dict := list (string * Device).

Fixpoint dict_get (d : dict) (key : string) : option Device :=
  match d with
  | [] => None
  | (k, dev) :: rest => if String.eqb k key then Some dev else dict_get rest key
  end.

(** [d[key] = dev]: in place for a key already there, else at the end. *)
Fixpoint dict_set (d : dict) (key : string) (dev : Device) : dict :=
  match d with
  | [] => [(key, dev)]
  | (k, old) :: rest =>
      if String.eqb k key then (k, dev) :: rest
      else (k, old) :: dict_set rest key dev
  end.

(** [get_device_by_alias]: the first device, in the order of the dict,
    whose alias is the given one up to case. *)
Fixpoint get_device_by_alias (tx : Text) (devices : dict) (name : string)
  : option (string * Device) :=
  match devices with
  | [] => None
  | (ip, dev) :: rest =>
      if String.eqb (lower tx (alias dev)) (lower tx name) then Some (ip, dev)
      else get_device_by_alias tx rest name
  end.

(** [_resolve_device]: the device, with the key it has in the dict. *)
Definition _resolve_device (tx : Text) (devices : dict) (target : string)
  : option (string * Device) :=
  match dict_get devices target with
  | Some dev => Some (target, dev)
  | None => get_device_by_alias tx devices target
  end.

Definition colors : list (string * (Z * Z * Z)) :=
  [("red", (0, 100, 100)); ("orange", (30, 100, 100));
   ("yellow", (60, 100, 100)); ("green", (120, 100, 100));
   ("cyan", (180, 100, 100)); ("blue", (240, 100, 100));
   ("purple", (300, 100, 100)); ("pink", (300, 50, 100));
   ("white", (0, 0, 100)); ("warm", (30, 20, 100));
   ("cool", (200, 10, 100)); ("daylight", (0, 0, 100))]%Z.

Fixpoint colors_get (table : list (string * (Z * Z * Z))) (key : string)
  : option (Z * Z * Z) :=
  match table with
  | [] => None
  | (k, v) :: rest => if String.eqb k key then Some v else colors_get rest key
  end.

Definition name_to_hsv (tx : Text) (color_name : string) : option (Z * Z * Z) :=
  colors_get colors (strip tx (lower tx color_name)).

(** [s.count(".")]. *)
Fixpoint count_dots (s : string) : nat :=
  match s with
  | EmptyString => 0
  | String c rest =>
      if Ascii.eqb c (Ascii.ascii_of_nat 46)
      then S (count_dots rest) else count_dots rest
  end.

(** The result of an agent method: what it returns, the dict after it,
    what it did. *)
Definition result := (bool * dict * list event)%type.

(** [turn_on] and [turn_off] differ by the command and by the word of
    their error line. *)
Definition switch (w : World) (tx : Text) (c : command) (word : string)
  (devices : dict) (target : string) : result :=
  match _resolve_device tx devices target with
  | Some (ip, dev) =>
      match run_command w ip dev c with
      | inr dev' => (true, dict_set devices ip dev', [Issued ip c])
      | inl e =>
          (false, devices,
           [Issued ip c;
            Printed ("Error turning " +:+ word +:+ " " +:+ target +:+ ": " +:+ e)])
      end
  | None =>
      if (count_dots target =? 3)%nat then
        match discover_single w target with
        | inr (Some dev) =>
            let devices := dict_set devices target dev in
            match run_command w target dev c with
            | inr dev' =>
                (true, dict_set devices target dev',
                 [Probed target; Issued target c])
            | inl _ => (false, devices, [Probed target; Issued target c])
            end
        | inr None => (false, devices, [Probed target])
        | inl _ => (false, devices, [Probed target])
        end
      else (false, devices, [])
  end.

Definition turn_on (w : World) (tx : Text) := switch w tx TurnOn "on".
Definition turn_off (w : World) (tx : Text) := switch w tx TurnOff "off".

Definition set_brightness (w : World) (tx : Text) (devices : dict)
  (target : string) (level : Z) : result :=
  match _resolve_device tx devices target with
  | Some (ip, dev) =>
      if is_dimmable dev || is_bulb dev then
        match run_command w ip dev (SetBrightness level) with
        | inr dev' =>
            (true, dict_set devices ip dev', [Issued ip (SetBrightness level)])
        | inl e =>
            (false, devices,
             [Issued ip (SetBrightness level);
              Printed ("Error setting brightness for " +:+ target +:+ ": " +:+ e)])
        end
      else (false, devices, [])
  | None => (false, devices, [])
  end.

(** What [set_color] is given: a colour name, a tuple or list of
    numbers, or anything else. *)
Inductive color_input :=
| ColorName (s : string)
| ColorSeq (l : list Z)
| ColorOther.

Definition set_color (w : World) (tx : Text) (devices : dict)
  (target : string) (input : color_input) : result :=
  match _resolve_device tx devices target with
  | Some (ip, dev) =>
      if is_color dev then
        let chosen :=
          match input with
          | ColorName s => name_to_hsv tx s
          | ColorSeq [h; s; v] => Some (h, s, v)
          | _ => None
          end in
        match chosen with
        | Some (h, s, v) =>
            match run_command w ip dev (SetHsv h s v) with
            | inr dev' =>
                (true, dict_set devices ip dev', [Issued ip (SetHsv h s v)])
            | inl e =>
                (false, devices,
                 [Issued ip (SetHsv h s v);
                  Printed ("Error setting color for " +:+ target +:+ ": " +:+ e)])
            end
        | None => (false, devices, [])
        end
      else (false, devices, [])
  | None => (false, devices, [])
  end.

(** ** The [/control] endpoint *)

Record ControlLightRequest := {
  target : string;
  action : string;
  level : option Z;
  color : option string
}.

(** The JSON answer of the endpoint, or the [HTTPException] it raises. *)
Inductive reply :=
| Reply (success : bool) (target action : string)
| HTTPException (status_code : Z) (detail : string).

Definition status_of (r : reply) : Z :=
  match r with
  | Reply _ _ _ => 200
  | HTTPException status_code _ => status_code
  end.

Definition control_light (w : World) (tx : Text) (devices : dict)
  (request : ControlLightRequest) : reply * dict * list event :=
  if String.eqb (action request) "turn_on" then
    let '(success, devices, done) := turn_on w tx devices (target request) in
    (Reply success (target request) (action request), devices, done)
  else if String.eqb (action request) "turn_off" then
    let '(success, devices, done) := turn_off w tx devices (target request) in
    (Reply success (target request) (action request), devices, done)
  else if String.eqb (action request) "set" then
    let '(success, devices, done1) :=
      match level request with
      | Some l => set_brightness w tx devices (target request) l
      | None => (false, devices, [])
      end in
    let '(success, devices, done2) :=
      match color request with
      | Some c =>
          let '(colored, devices, done) :=
            set_color w tx devices (target request) (ColorName c) in
          (colored || success, devices, done)
      | None => (success, devices, [])
      end in
    (Reply success (target request) (action request), devices, done1 ++ done2)
  else
    (HTTPException 500
       (str_exception tx 400 ("Unknown action: " +:+ action request)),
     devices, []).

(** ** [discover_devices] and the [/discover] endpoint *)

Record device_info := {
  info_ip : string;
  info_alias : string;
  info_model : string;
  info_type : string;
  info_is_on : bool;
  info_brightness : option Z;
  info_hsv : option (Z * Z * Z);
  has_color : bool;
  has_brightness : bool
}.

Definition describe (ip : string) (dev : Device) : device_info :=
  {| info_ip := ip;
     info_alias := alias dev;
     info_model := model dev;
     info_type :=
       if is_bulb dev then "bulb"
       else if is_plug dev then "plug"
       else if is_strip dev then "strip"
       else if is_dimmer dev then "dimmer"
       else "unknown";
     info_is_on := is_on dev;
     info_brightness :=
       if is_bulb dev || is_dimmer dev then Some (brightness dev) else None;
     info_hsv := if is_bulb dev && is_color dev then Some (hsv dev) else None;
     has_color := if is_bulb dev then is_color dev else false;
     has_brightness :=
       if is_bulb dev || is_dimmer dev then is_dimmable dev else false |}.

(** The loop over the devices a broadcast found: each is updated ([inl e]
    when the update raises, else its attributes) and stored. *)
Fixpoint merge_found (devices : dict) (found : list (string * (string + Device)))
  : string + dict :=
  match found with
  | [] => inr devices
  | (ip, inr dev) :: rest => merge_found (dict_set devices ip dev) rest
  | (ip, inl e) :: rest => inl e
  end.

(** The dict as the loop leaves it, also when an update raised. *)
Fixpoint merged_before_failure (devices : dict)
  (found : list (string * (string + Device))) : dict :=
  match found with
  | [] => devices
  | (ip, inr dev) :: rest => merged_before_failure (dict_set devices ip dev) rest
  | (ip, inl e) :: rest => devices
  end.

(** [discover_devices]: the broadcast raises or finds devices. *)
Definition discover_devices (devices : dict)
  (broadcast : string + list (string * (string + Device)))
  : (string + list device_info) * dict :=
  match broadcast with
  | inl e => (inl e, devices)
  | inr found =>
      match merge_found devices found with
      | inr devices => (inr (map (fun p => describe (fst p) (snd p)) devices),
                        devices)
      | inl e => (inl e, merged_before_failure devices found)
      end
  end.

Inductive discover_reply :=
| Discovered (count : nat) (devices : list device_info)
| DiscoverFailed (status_code : Z) (detail : string).

Definition discover_endpoint (devices : dict)
  (broadcast : string + list (string * (string + Device)))
  : discover_reply * dict :=
  match discover_devices devices broadcast with
  | (inr listed, devices) => (Discovered (length listed) listed, devices)
  | (inl e, devices) => (DiscoverFailed 500 e, devices)
  end.

(** ** Observations *)

Definition returned (r : result) : bool := fst (fst r).
Definition dict_after (r : result) : dict := snd (fst r).
Definition events (r : result) : list event := snd r.

Definition is_key (ip : string) (devices : dict) : Prop :=
  dict_get devices ip <> None.

(** Every command went to a device of the dict. *)
Definition issued_within (devices : dict) (done : list event) : Prop :=
  Forall (fun e => match e with
                   | Issued ip _ => is_key ip devices
                   | _ => True
                   end) done.

(** Every colour command asks for the value [v]. *)
Definition colours_at (v : Z) (done : list event) : Prop :=
  Forall (fun e => match e with
                   | Issued _ (SetHsv _ _ v') => v' = v
                   | _ => True
                   end) done.

Definition known_action (a : string) : bool :=
  String.eqb a "turn_on" || String.eqb a "turn_off" || String.eqb a "set".

(** ** Sample values *)

Definition ascii_lower (c : Ascii.ascii) : Ascii.ascii :=
  let n := Ascii.nat_of_ascii c in
  if ((65 <=? n) && (n <=? 90))%nat then Ascii.ascii_of_nat (n + 32) else c.

Fixpoint lower_ascii (s : string) : string :=
  match s with
  | EmptyString => EmptyString
  | String c rest => String (ascii_lower c) (lower_ascii rest)
  end.

(** A [Text] good for names without whitespace around them and without
    letters outside ASCII. *)
Definition plain_text : Text :=
  {| lower := lower_ascii;
     strip := fun s => s;
     str_exception := fun code detail => pretty code +:+ ": " +:+ detail |}.

Definition bulb (name : string) : Device :=
  {| alias := name; model := "KL130"; is_on := false;
     is_bulb := true; is_plug := false; is_strip := false; is_dimmer := false;
     is_color := true; is_dimmable := true;
     brightness := 50; hsv := (0, 0, 50)%Z |}.

Definition plug (name : string) : Device :=
  {| alias := name; model := "HS100"; is_on := false;
     is_bulb := false; is_plug := true; is_strip := false; is_dimmer := false;
     is_color := false; is_dimmable := false;
     brightness := 0; hsv := (0, 0, 0)%Z |}.

Definition switched (dev : Device) (on : bool) : Device :=
  {| alias := alias dev; model := model dev; is_on := on;
     is_bulb := is_bulb dev; is_plug := is_plug dev; is_strip := is_strip dev;
     is_dimmer := is_dimmer dev; is_color := is_color dev;
     is_dimmable := is_dimmable dev;
     brightness := brightness dev; hsv := hsv dev |}.

(** Devices that obey, and a network on which nothing is found. *)
Definition obedient : World :=
  {| run_command := fun _ dev c =>
       match c with
       | TurnOn => inr (switched dev true)
       | TurnOff => inr (switched dev false)
       | _ => inr dev
       end;
     discover_single := fun _ => inr None |}.

(** A network on which a bulb answers the probe and then fails. *)
Definition flaky : World :=
  {| run_command := fun _ _ _ => inl "timed out";
     discover_single := fun _ => inr (Some (bulb "Hall")) |}.

Definition home : dict :=
  [("192.168.1.10", bulb "Lampa"); ("192.168.1.11", plug "192.168.1.10")].

End Kasa.

(** The body the tool dispatcher posts, as the endpoint's request model
    reads it when every field has the type the model declares. *)
Definition typed_request (r : ControlRequest) : option Kasa.ControlLightRequest :=
  match target r, action r with
  | VStr t, VStr a =>
      match brightness r, color r with
      | VInt l, VStr c =>
          Some {| Kasa.target := t; Kasa.action := a;
                  Kasa.level := Some l; Kasa.color := Some c |}
      | VInt l, VNone =>
          Some {| Kasa.target := t; Kasa.action := a;
                  Kasa.level := Some l; Kasa.color := None |}
      | VNone, VStr c =>
          Some {| Kasa.target := t; Kasa.action := a;
                  Kasa.level := None; Kasa.color := Some c |}
      | VNone, VNone =>
          Some {| Kasa.target := t; Kasa.action := a;
                  Kasa.level := None; Kasa.color := None |}
      | _, _ => None
      end
  | _, _ => None
  end.

Definition toggle_args : gmap string value :=
  {[ "device" := VStr "lampa"; "action" := VStr "toggle" ]}.

Definition toggle_call : FunctionCall :=
  {| name := "control_smart_home"; args := Some toggle_args |}.

Definition erroring_service : http_client :=
  fun _ _ _ => HttpResponse 500 "Internal Server Error".

Definition colour_request : Kasa.ControlLightRequest :=
  {| Kasa.target := "lampa"; Kasa.action := "set";
     Kasa.level := Some 30%Z; Kasa.color := Some "Blue" |}.

(** A broadcast that finds a new plug, then a device whose update fails. *)
Definition patchy_broadcast : list (string * (string + Kasa.Device)) :=
  [("192.168.1.12", inr (Kasa.plug "Kaffe")); ("192.168.1.13", inl "timed out")].

(** * The Socket.IO server in front of the engine

    The handlers of [voice-gemini/server.py]. The engines the server has
    created are objects in a store, [audio_loop] and [loop_task] are
    references into it: a handler that stops or pauses the engine changes
    the object its pipelines run on. Whether a task is done is asked of
    the event loop ([done]). A payload is always [{'msg': ...}]. *)

Module Server.

(** An [AudioLoop] object, with its [session] attribute (set by [run]
    once connected). *)
Record Engine := {
  engine : AudioLoop;
  session : bool
}.

Record State := {
  objects : list Engine;
  audio_loop : option nat;
  loop_task : option nat
}.

(** The calls a handler makes, in order. *)
Inductive output :=
| Printed (line : string)
| Emit (event msg : string) (room : option string)
| CreateTask (object : nat)
| CancelTask (object : nat)
| SessionSend (object : nat) (input : value) (end_of_turn : bool)
| OsExit (code : Z).

(** Truth value of a JSON value and of a dict. *)
Definition truth (v : value) : bool :=
  match v with
  | VNone => false
  | VBool b => b
  | VInt z => negb (z =? 0)%Z
  | VStr s => truthy s
  end.

Definition nonempty (d : gmap string value) : bool :=
  negb (size d =? 0)%nat.

Definition on_object (f : AudioLoop -> AudioLoop) (e : Engine) : Engine :=
  {| engine := f (engine e); session := session e |}.

Definition initial : State :=
  {| objects := []; audio_loop := None; loop_task := None |}.

Definition connect (sid : string) : list output :=
  [Printed ("[SERVER] Client connected: " +:+ sid);
   Emit "status" "Connected to Alice Voice" (Some sid)].

(** The engine [start_audio] constructs: all four callbacks installed,
    the device index of the request as it came ([None] when the request
    has none), the orchestrator URL of the environment, paused when the
    request says muted. *)
Definition new_engine (url_env : option string)
  (request : option (gmap string value)) : Engine :=
  let device_index :=
    match request with
    | Some d => if nonempty d then default VNone (d !! "device_index") else VNone
    | None => VNone
    end in
  let fresh :=
    AudioLoop_init true true true true device_index
      (default "http://localhost:8000" url_env) in
  let muted :=
    match request with
    | Some d => nonempty d && truth (default (VBool false) (d !! "muted"))
    | None => false
    end in
  {| engine := if muted then set_paused true fresh else fresh;
     session := false |}.

Definition start_audio (done : nat -> bool) (url_env : option string)
  (st : State) (sid : string) (request : option (gmap string value))
  : State * list output :=
  let running :=
    match audio_loop st, loop_task st with
    | Some _, Some t => negb (done t)
    | _, _ => false
    end in
  if running then
    (st,
     [Printed "[SERVER] Starting audio...";
      Printed "[SERVER] Audio already running";
      Emit "status" "Already running" (Some sid)])
  else
    let id := length (objects st) in
    ({| objects := objects st ++ [new_engine url_env request];
        audio_loop := Some id;
        loop_task := Some id |},
     [Printed "[SERVER] Starting audio...";
      CreateTask id;
      Emit "status" "Alice Started" (Some sid)]).

Definition stop_audio (st : State) : State * list output :=
  match audio_loop st with
  | Some i =>
      ({| objects := alter (on_object stop) i (objects st);
          audio_loop := None;
          loop_task := None |},
       [Emit "status" "Alice Stopped" None])
  | None => (st, [])
  end.

Definition pause_audio (st : State) : State * list output :=
  match audio_loop st with
  | Some i =>
      ({| objects := alter (on_object (set_paused true)) i (objects st);
          audio_loop := audio_loop st;
          loop_task := loop_task st |},
       [Emit "status" "Mic Muted" None])
  | None => (st, [])
  end.

Definition resume_audio (st : State) : State * list output :=
  match audio_loop st with
  | Some i =>
      ({| objects := alter (on_object (set_paused false)) i (objects st);
          audio_loop := audio_loop st;
          loop_task := loop_task st |},
       [Emit "status" "Mic Active" None])
  | None => (st, [])
  end.

Definition user_input (st : State) (request : gmap string value)
  : list output :=
  let text := default (VStr "") (request !! "text") in
  if negb (truth text) then []
  else
    match audio_loop st with
    | Some i =>
        match objects st !! i with
        | Some e =>
            if session e then
              [Printed ("[SERVER] User text: " +:+ py_str text);
               SessionSend i text true]
            else [Emit "error" "Not connected" None]
        | None => [Emit "error" "Not connected" None]
        end
    | None => [Emit "error" "Not connected" None]
    end.

Definition shutdown (done : nat -> bool) (st : State) : State * list output :=
  let '(objs, stopped) :=
    match audio_loop st with
    | Some i => (alter (on_object stop) i (objects st), None)
    | None => (objects st, audio_loop st)
    end in
  let '(task, cancelled) :=
    match loop_task st with
    | Some t => if negb (done t) then (None, [CancelTask t]) else (Some t, [])
    | None => (None, [])
    end in
  ({| objects := objs; audio_loop := stopped; loop_task := task |},
   [Printed "[SERVER] Shutdown requested"] ++ cancelled ++ [OsExit 0]).

(** [/health]: the [audio_active] field. *)
Definition health (st : State) : bool :=
  match audio_loop st with
  | Some _ => true
  | None => false
  end.

(** ** Observations *)

(** The references point at objects of the store. *)
Definition well_formed (st : State) : Prop :=
  (forall i, audio_loop st = Some i -> (i < length (objects st))%nat) /\
  (forall t, loop_task st = Some t -> (t < length (objects st))%nat).

(** The client commands that keep the process alive. *)
Inductive command :=
| Start (sid : string) (request : option (gmap string value))
| Stop
| Pause
| Resume.

Definition handle (done : nat -> bool) (url_env : option string)
  (c : command) (st : State) : State * list output :=
  match c with
  | Start sid request => start_audio done url_env st sid request
  | Stop => stop_audio st
  | Pause => pause_audio st
  | Resume => resume_audio st
  end.

Fixpoint run_commands (done : nat -> bool) (url_env : option string)
  (cs : list command) (st : State) : State :=
  match cs with
  | [] => st
  | c :: rest =>
      run_commands done url_env rest (fst (handle done url_env c st))
  end.

(** From [st] to [st']: no engine object is lost, none has its stop signal
    lowered, none has its session changed. *)
Definition keeps_engines (st st' : State) : Prop :=
  (length (objects st) <= length (objects st'))%nat /\
  forall i e,
    objects st !! i = Some e ->
    exists e',
      objects st' !! i = Some e' /\
      (stop_event (engine e) = true -> stop_event (engine e') = true) /\
      session e' = session e.

Definition is_start (c : command) : bool :=
  match c with
  | Start _ _ => true
  | _ => false
  end.

(** The engine the server refers to, if any. *)
Definition current (st : State) : option Engine :=
  match audio_loop st with
  | Some i => objects st !! i
  | None => None
  end.

Definition never_done : nat -> bool := fun _ => false.

Definition muted_request : gmap string value := {[ "muted" := VBool true ]}.

Definition hello : gmap string value := {[ "text" := VStr "hej" ]}.

End Server.

(** ** Basic facts *)

Lemma drain_spec (q : list bytes) (count : nat) :
  drain q count = ([], (count + length q)%nat).
Proof.
  revert count. induction q as [|c q IH]; intros count; simpl.
  - by rewrite Nat.add_0_r.
  - rewrite IH. f_equal. lia.
Qed.

Lemma clear_audio_queue_empty (self : AudioLoop) :
  audio_in_queue (fst (clear_audio_queue self)) = [].
Proof. unfold clear_audio_queue. by rewrite drain_spec. Qed.

Lemma clear_audio_queue_emits_nothing (self : AudioLoop) (sender : string) :
  emitted sender (snd (clear_audio_queue self)) = [].
Proof.
  unfold clear_audio_queue. rewrite drain_spec. simpl.
  by destruct (0 <? length (audio_in_queue self))%nat.
Qed.

Lemma substring_all (s : string) : String.substring 0 (String.length s) s = s.
Proof. induction s as [|c s IH]; simpl; [done | by rewrite IH]. Qed.

(** A transcript that starts with [last] is [last] followed by the delta. *)
Lemma startswith_split (last t : string) :
  startswith t last = true -> t = last +:+ prefix_diff last t.
Proof.
  unfold prefix_diff. intros H. rewrite H. unfold startswith in H.
  unfold slice_from. revert t H.
  induction last as [|c last IH]; intros t H.
  - simpl. by rewrite Nat.sub_0_r, substring_all.
  - destruct t as [|d t]; simpl in H; [done |].
    destruct (Ascii.ascii_dec c d) as [->|]; [| done].
    cbn.
    change (String d t =
            String d (last +:+ String.substring (String.length last)
                         (String.length t - String.length last) t)).
    f_equal. apply (IH t H).
Qed.

Lemma prefix_diff_other (last t : string) :
  startswith t last = false -> prefix_diff last t = t.
Proof. unfold prefix_diff. by intros ->. Qed.

Lemma app_empty_r (s : string) : s +:+ "" = s.
Proof.
  induction s as [|c s IH]; [done |].
  change (String c (s +:+ "") = String c s). by rewrite IH.
Qed.

(** Past the guard, the delta is never empty: the test [if delta] of the
    source always succeeds. *)
Lemma new_text_delta_truthy (last t : string) :
  is_new_text last (Some t) = true -> truthy (prefix_diff last t) = true.
Proof.
  simpl. intros [Ht Hne]%andb_prop.
  destruct (startswith t last) eqn:Hp.
  - destruct (prefix_diff last t) eqn:Hd; [| done].
    apply startswith_split in Hp. rewrite Hd, app_empty_r in Hp. subst t.
    by rewrite String.eqb_refl in Hne.
  - by rewrite prefix_diff_other.
Qed.

Lemma truthy_nonempty (s : string) : truthy s = true <-> s <> "".
Proof. destruct s; simpl; split; congruence. Qed.

Lemma emitted_app (sender : string) (a b : list effect) :
  emitted sender (a ++ b) = emitted sender a ++ emitted sender b.
Proof.
  induction a as [|e a IH]; simpl; [done |].
  destruct e; try done. destruct (String.eqb sender0 sender); simpl; by rewrite ?IH.
Qed.

Lemma sent_app (a b : list effect) : sent (a ++ b) = sent a ++ sent b.
Proof.
  induction a as [|e a IH]; simpl; [done |].
  destruct e; simpl; by rewrite ?IH.
Qed.

Lemma handle_tool_call_emits_nothing (post : http_client) (self : AudioLoop)
  (fc : FunctionCall) (tr : tool_round) (sender : string) :
  emitted sender (fst (handle_tool_call post self fc tr)) = [].
Proof.
  unfold handle_tool_call.
  by destruct (on_tool_call self), (observer_raised tr), (answer_raised tr).
Qed.

Lemma tool_calls_emit_nothing (post : http_client) (self : AudioLoop)
  (fcs : list FunctionCall) (env : list tool_round) (sender : string) :
  emitted sender (fst (_handle_tool_calls post self fcs env)) = [].
Proof.
  revert env. induction fcs as [|fc fcs IH]; intros env; simpl; [done |].
  pose proof (handle_tool_call_emits_nothing post self fc
                (default accepted (head env)) sender) as H.
  destruct (handle_tool_call post self fc (default accepted (head env)))
    as [first [e|]]; simpl in *; [done |].
  by rewrite emitted_app, H, IH.
Qed.

(** ** The receive pipeline on one response *)

(** The user-transcription block, with its dead branch removed. *)
Lemma handle_input_transcription_eq (self : AudioLoop) (it : Transcription) :
  handle_input_transcription self it =
  match delta_of (_last_input_transcription self) (text it), text it with
  | Some delta, Some t =>
      (with_audio_in_queue [] (with_last_input t self),
       snd (clear_audio_queue (with_last_input t self)) ++
       if on_transcription self then [OnTranscription "User" delta] else [])
  | _, _ => (self, [])
  end.
Proof.
  unfold handle_input_transcription, delta_of.
  destruct (text it) as [t|]; [| done].
  destruct (is_new_text _ (Some t)) eqn:Hnew; [| done].
  rewrite (new_text_delta_truthy _ _ Hnew).
  unfold clear_audio_queue. rewrite drain_spec. reflexivity.
Qed.

Lemma handle_output_transcription_eq (self : AudioLoop) (ot : Transcription) :
  handle_output_transcription self ot =
  match delta_of (_last_output_transcription self) (text ot), text ot with
  | Some delta, Some t =>
      (with_last_output t self,
       if on_transcription self then [OnTranscription "Alice" delta] else [])
  | _, _ => (self, [])
  end.
Proof.
  unfold handle_output_transcription, delta_of.
  destruct (text ot) as [t|]; [| done].
  destruct (is_new_text _ (Some t)) eqn:Hnew; [| done].
  by rewrite (new_text_delta_truthy _ _ Hnew).
Qed.

(** Case analysis on the output-transcription block. *)
Ltac output_cases :=
  rewrite ?handle_output_transcription_eq;
  repeat match goal with
         | |- context [delta_of ?l (text ?ot)] =>
             destruct (delta_of l (text ot)) eqn:?
         | |- context [match text ?ot with _ => _ end] =>
             destruct (text ot) eqn:?
         end;
  simpl.

Lemma stored_after_guard (last t : string) :
  (if is_new_text last (Some t) then t else last) = stored_after last (Some t).
Proof.
  simpl. destruct (truthy t); simpl; [| done].
  destruct (String.eqb_spec t last); simpl; congruence.
Qed.

Lemma handle_audio_data_speaking (self : AudioLoop) (response : Response) :
  is_speaking (handle_audio_data self (data response)) =
  if carries_audio response then true else is_speaking self.
Proof.
  unfold handle_audio_data, carries_audio.
  by destruct (data response) as [[|b chunk]|].
Qed.

(** A response with a new, non-empty user delta leaves no chunk queued. *)
Lemma process_response_queue (post : http_client) (self : AudioLoop)
  (response : Response) (env : list tool_round) (delta : string) :
  input_delta self response = Some delta ->
  audio_in_queue (fst (fst (process_response post self response env))) = [].
Proof.
  unfold input_delta, input_text, process_response, handle_server_content.
  destruct (server_content response) as [sc|]; [| done].
  destruct (input_transcription sc) as [it|]; [| done].
  intros Hd. rewrite handle_input_transcription_eq.
  replace (_last_input_transcription (handle_audio_data self (data response)))
    with (_last_input_transcription self)
    by (unfold handle_audio_data; by destruct (data response) as [[|]|]).
  rewrite Hd. destruct (text it) as [t|]; [| done].
  destruct (output_transcription sc) as [ot|]; [| done].
  by output_cases.
Qed.

(** Only audio data touches the speaking flag while a turn is consumed. *)
Lemma process_response_speaking (post : http_client) (self : AudioLoop)
  (response : Response) (env : list tool_round) :
  is_speaking (fst (fst (process_response post self response env))) =
  if carries_audio response then true else is_speaking self.
Proof.
  rewrite <- handle_audio_data_speaking.
  unfold process_response, handle_server_content.
  destruct (server_content response) as [sc|]; [| done].
  destruct (input_transcription sc) as [it|].
  - rewrite handle_input_transcription_eq.
    destruct (delta_of _ (text it)); destruct (text it);
      destruct (output_transcription sc) as [ot|]; by output_cases.
  - destruct (output_transcription sc) as [ot|]; by output_cases.
Qed.

(** Unfolds [process_response] and goes through the cases of its
    transcription blocks. *)
Ltac receive_cases :=
  unfold input_delta, output_delta, input_text, output_text,
    process_response, handle_server_content;
  try match goal with
      | |- context [server_content ?r] =>
          destruct (server_content r) as [?sc|]; simpl
      end;
  try match goal with
      | |- context [input_transcription ?sc] =>
          destruct (input_transcription sc) as [?it|]; simpl
      end;
  rewrite ?handle_input_transcription_eq;
  repeat match goal with
         | |- context [delta_of ?l (text ?it)] =>
             destruct (delta_of l (text it)) eqn:?
         | |- context [match text ?it with _ => _ end] =>
             destruct (text it) eqn:?
         end;
  simpl;
  try match goal with
      | |- context [output_transcription ?sc] =>
          destruct (output_transcription sc) as [?ot|]; simpl
      end;
  output_cases.

Lemma handle_audio_data_last_input (self : AudioLoop) (d : option bytes) :
  _last_input_transcription (handle_audio_data self d) =
  _last_input_transcription self.
Proof. by destruct d as [[|]|]. Qed.

Lemma handle_audio_data_last_output (self : AudioLoop) (d : option bytes) :
  _last_output_transcription (handle_audio_data self d) =
  _last_output_transcription self.
Proof. by destruct d as [[|]|]. Qed.

Lemma handle_audio_data_on_transcription (self : AudioLoop) (d : option bytes) :
  on_transcription (handle_audio_data self d) = on_transcription self.
Proof. by destruct d as [[|]|]. Qed.



Lemma process_response_on_transcription (post : http_client)
  (self : AudioLoop) (response : Response) (env : list tool_round) :
  on_transcription (fst (fst (process_response post self response env))) =
  on_transcription self.
Proof.
  rewrite <- (handle_audio_data_on_transcription self (data response)).
  by receive_cases.
Qed.

Lemma delta_of_stored (last : string) (transcript : option string) :
  match delta_of last transcript, transcript with
  | Some _, Some t => t
  | _, _ => last
  end = stored_after last transcript.
Proof.
  destruct transcript as [t|]; [| done].
  rewrite <- stored_after_guard. unfold delta_of.
  by destruct (is_new_text last (Some t)).
Qed.

Lemma process_response_last_input (post : http_client) (self : AudioLoop)
  (response : Response) (env : list tool_round) :
  _last_input_transcription (fst (fst (process_response post self response env))) =
  stored_after (_last_input_transcription self) (input_text response).
Proof.
  rewrite <- delta_of_stored.
  rewrite <- (handle_audio_data_last_input self (data response)).
  by receive_cases.
Qed.

Lemma process_response_last_output (post : http_client) (self : AudioLoop)
  (response : Response) (env : list tool_round) :
  _last_output_transcription (fst (fst (process_response post self response env))) =
  stored_after (_last_output_transcription self) (output_text response).
Proof.
  rewrite <- delta_of_stored.
  rewrite <- (handle_audio_data_last_output self (data response)).
  receive_cases; simpl in *; try done; congruence.
Qed.

Lemma tools_emit_nothing (post : http_client) (self : AudioLoop)
  (tc : option ToolCall) (env : list tool_round) (sender : string) :
  emitted sender
    (fst match tc with
         | Some tc => _handle_tool_calls post self (function_calls tc) env
         | None => ([], None)
         end) = [].
Proof. destruct tc; [apply tool_calls_emit_nothing | done]. Qed.

Ltac emitted_simpl :=
  rewrite ?emitted_app, ?clear_audio_queue_emits_nothing, ?tools_emit_nothing;
  simpl;
  repeat match goal with
         | |- context [if on_transcription ?s then _ else _] =>
             destruct (on_transcription s) eqn:?
         end;
  simpl in *; try done; try congruence.

(** The user deltas a response hands to the transcription callback. *)
Lemma process_response_emitted_user (post : http_client) (self : AudioLoop)
  (response : Response) (env : list tool_round) :
  emitted "User" (snd (fst (process_response post self response env))) =
  match input_delta self response with
  | Some delta => if on_transcription self then [delta] else []
  | None => []
  end.
Proof.
  rewrite <- (handle_audio_data_on_transcription self (data response)).
  unfold input_delta.
  rewrite <- (handle_audio_data_last_input self (data response)).
  receive_cases; emitted_simpl.
Qed.

(** The model deltas a response hands to the transcription callback. *)
Lemma process_response_emitted_alice (post : http_client) (self : AudioLoop)
  (response : Response) (env : list tool_round) :
  emitted "Alice" (snd (fst (process_response post self response env))) =
  match output_delta self response with
  | Some delta => if on_transcription self then [delta] else []
  | None => []
  end.
Proof.
  rewrite <- (handle_audio_data_on_transcription self (data response)).
  unfold output_delta.
  rewrite <- (handle_audio_data_last_output self (data response)).
  receive_cases; emitted_simpl.
Qed.

(** The three cases of the prefix diff. *)
Lemma delta_of_unchanged (last t : string) :
  t = "" \/ t = last -> delta_of last (Some t) = None.
Proof.
  unfold delta_of, is_new_text. intros [-> | ->]; [done |].
  by rewrite String.eqb_refl, andb_false_r.
Qed.

Lemma is_new_text_true (last t : string) :
  t <> "" -> t <> last -> is_new_text last (Some t) = true.
Proof.
  intros Ht Hne. simpl. apply andb_true_intro. split.
  - by apply truthy_nonempty.
  - apply negb_true_iff. by apply String.eqb_neq.
Qed.

Lemma delta_of_prefix (last t : string) :
  t <> "" -> t <> last -> startswith t last = true ->
  exists delta, delta_of last (Some t) = Some delta /\ t = last +:+ delta.
Proof.
  intros Ht Hne Hp. exists (prefix_diff last t). split.
  - unfold delta_of. by rewrite is_new_text_true.
  - by apply startswith_split.
Qed.

Lemma delta_of_restart (last t : string) :
  t <> "" -> t <> last -> startswith t last = false ->
  delta_of last (Some t) = Some t.
Proof.
  intros Ht Hne Hp. unfold delta_of.
  by rewrite is_new_text_true, prefix_diff_other.
Qed.

(** After an empty stored text the delta is the whole text. *)
Lemma delta_of_fresh (t : string) :
  delta_of "" (Some t) = if truthy t then Some t else None.
Proof.
  unfold delta_of, is_new_text, prefix_diff, startswith, slice_from.
  destruct t as [|c t]; [done |]. simpl.
  change (Some (String c (String.substring 0 (String.length t) t)) =
          Some (String c t)).
  by rewrite substring_all.
Qed.

(** ** What the capture step and the atomic actions leave alone *)

Ltac capture_cases :=
  unfold listen_iteration, listen_try, vad_update, enqueue_frame;
  repeat match goal with
         | |- context [match ?r with ReadOk _ => _ | ReadRaised _ => _ end] =>
             destruct r
         | |- context [match frame_rms ?f with _ => _ end] =>
             destruct (frame_rms f) eqn:?
         | |- context [match _silence_start_time ?s with _ => _ end] =>
             destruct (_silence_start_time s) eqn:?
         | |- context [if ?b then _ else _] => destruct b eqn:?
         end;
  simpl.


Lemma listen_iteration_on_transcription (self : AudioLoop) (r : read_result)
  (t : Q) :
  on_transcription (fst (listen_iteration self r t)) = on_transcription self.
Proof. by capture_cases. Qed.

Lemma listen_iteration_last_output (self : AudioLoop) (r : read_result) (t : Q) :
  _last_output_transcription (fst (listen_iteration self r t)) =
  _last_output_transcription self.
Proof. by capture_cases. Qed.





Lemma perform_on_transcription (post : http_client) (a : atomic)
  (self : AudioLoop) :
  on_transcription (perform post a self) = on_transcription self.
Proof.
  destruct a; simpl; try done.
  - by rewrite listen_iteration_on_transcription.
  - by rewrite process_response_on_transcription.
Qed.

Lemma interfere_on_transcription (post : http_client) (others : list atomic)
  (self : AudioLoop) :
  on_transcription (interfere post others self) = on_transcription self.
Proof.
  unfold interfere. revert self.
  induction others as [|a others IH]; intros self; simpl; [done |].
  by rewrite IH, perform_on_transcription.
Qed.

(** Only the receive pipeline writes the stored output transcript. *)
Lemma interfere_last_output (post : http_client) (others : list atomic)
  (self : AudioLoop) :
  Forall not_receive others ->
  _last_output_transcription (interfere post others self) =
  _last_output_transcription self.
Proof.
  unfold interfere. revert self.
  induction others as [|a others IH]; intros self Hall; simpl; [done |].
  inversion Hall as [|? ? Ha Hrest]; subst. rewrite (IH _ Hrest).
  destruct a; simpl in *; try done. by rewrite listen_iteration_last_output.
Qed.

(** ** Receive pipeline: interruption, diffing, turn boundary *)

(** C1. An input-transcription event whose computed delta is non-empty
    leaves the inbound (playback) queue empty once the event is processed,
    whatever the queue held before, whatever else the event carries, and
    also when a function call of the event ends in an exception. *)
Theorem interruption_empties_inbound_queue (post : http_client)
  (self : AudioLoop) (response : Response) (env : list tool_round)
  (delta : string) :
  input_delta self response = Some delta ->
  delta <> "" ->
  audio_in_queue (fst (fst (process_response post self response env))) = [].
Proof.
  intros Hd _. by apply (process_response_queue post self response env delta).
Qed.

Lemma interruption_empties_inbound_queue_witness :
  length (audio_in_queue busy) = 3%nat /\
  audio_in_queue
    (fst (fst (process_response no_service busy (heard_with_audio "väder")
                 []))) = [] /\
  snd (process_response no_service busy (heard_asking "väder") closed_session)
    = Some "connection closed" /\
  audio_in_queue
    (fst (fst (process_response no_service busy (heard_asking "väder")
                 closed_session))) = [].
Proof.
  split; [reflexivity |].
  split.
  { apply (interruption_empties_inbound_queue no_service busy
             (heard_with_audio "väder") [] "väder");
      [reflexivity | discriminate]. }
  split; [reflexivity |].
  apply (interruption_empties_inbound_queue no_service busy
           (heard_asking "väder") closed_session "väder");
    [reflexivity | discriminate].
Defined.

(** C2, as the code has it. An input-transcription event with a non-empty
    delta does not reset the speaking flag: after the event the flag is
    true when the event carried audio data and keeps its previous value
    otherwise. *)
Theorem interruption_keeps_speaking_flag (post : http_client)
  (self : AudioLoop) (response : Response) (env : list tool_round)
  (delta : string) :
  input_delta self response = Some delta ->
  delta <> "" ->
  is_speaking (fst (fst (process_response post self response env))) =
  if carries_audio response then true else is_speaking self.
Proof. intros _ _. apply process_response_speaking. Qed.

Lemma interruption_keeps_speaking_flag_witness :
  is_speaking (fst (fst (process_response no_service busy (heard "hej") []))) =
  is_speaking busy.
Proof.
  apply (interruption_keeps_speaking_flag no_service busy (heard "hej") []
           "hej");
    [reflexivity | discriminate].
Defined.

(** C2 as stated fails: the model is speaking, the user says "hej", the
    delta is "hej" and the speaking flag is still true after the event. *)
Lemma interruption_resets_speaking_flag_fails :
  ~ (forall delta,
       input_delta busy (heard "hej") = Some delta -> delta <> "" ->
       is_speaking
         (fst (fst (process_response no_service busy (heard "hej") [])))
       = false).
Proof. intros H. specialize (H "hej" eq_refl). by discriminate H. Qed.

(** C3, as the code has it. For a transcription event of either
    direction with cumulative text [t] and stored text [last]: no delta
    when [t] is empty or equal to [last]; the rest of [t] after [last] when
    [t] starts with [last]; all of [t] otherwise. The delta, when there is
    one, goes to the transcription callback if one is installed, tagged
    "User" or "Alice". The stored text becomes [t] when [t] is not empty
    and is left as it was when [t] is empty or absent. "hej" then
    "hej där" give "hej" then " där"; "hej" then "nej" gives "nej". *)
Theorem transcript_diffing (post : http_client) (self : AudioLoop)
  (response : Response) (env : list tool_round) (last t : string) :
  (t = "" \/ t = last -> delta_of last (Some t) = None) /\
  (t <> "" -> t <> last -> startswith t last = true ->
   exists delta, delta_of last (Some t) = Some delta /\ t = last +:+ delta) /\
  (t <> "" -> t <> last -> startswith t last = false ->
   delta_of last (Some t) = Some t) /\
  emitted "User" (snd (fst (process_response post self response env))) =
    match input_delta self response with
    | Some delta => if on_transcription self then [delta] else []
    | None => []
    end /\
  emitted "Alice" (snd (fst (process_response post self response env))) =
    match output_delta self response with
    | Some delta => if on_transcription self then [delta] else []
    | None => []
    end /\
  _last_input_transcription (fst (fst (process_response post self response env))) =
    stored_after (_last_input_transcription self) (input_text response) /\
  _last_output_transcription (fst (fst (process_response post self response env))) =
    stored_after (_last_output_transcription self) (output_text response) /\
  (t <> "" -> stored_after last (Some t) = t) /\
  stored_after last (Some "") = last /\
  stored_after last None = last /\
  emitted "User" (snd (fst (process_response post alice (heard "hej") env)))
    = ["hej"] /\
  emitted "User"
    (snd (fst (process_response post
                 (fst (fst (process_response post alice (heard "hej") env)))
                 (heard "hej där") env))) = [" där"] /\
  emitted "User"
    (snd (fst (process_response post
                 (fst (fst (process_response post alice (heard "hej") env)))
                 (heard "nej") env))) = ["nej"].
Proof.
  split; [apply delta_of_unchanged |].
  split; [apply delta_of_prefix |].
  split; [apply delta_of_restart |].
  split; [apply process_response_emitted_user |].
  split; [apply process_response_emitted_alice |].
  split; [apply process_response_last_input |].
  split; [apply process_response_last_output |].
  split.
  { intros Ht. simpl. apply truthy_nonempty in Ht. by rewrite Ht. }
  repeat split; reflexivity.
Qed.

Lemma transcript_diffing_witness :
  (exists delta,
     delta_of "hej" (Some "hej där") = Some delta /\
     "hej där" = "hej" +:+ delta) /\
  delta_of "hej" (Some "nej") = Some "nej" /\
  delta_of "hej" (Some "hej") = None /\
  stored_after "hej" (Some "hej där") = "hej där".
Proof.
  destruct (transcript_diffing no_service alice (heard "hej") [] "hej" "hej där")
    as (_ & Hprefix & _ & _ & _ & _ & _ & Hstored & _).
  destruct (transcript_diffing no_service alice (heard "hej") [] "hej" "nej")
    as (_ & _ & Hrestart & _).
  destruct (transcript_diffing no_service alice (heard "hej") [] "hej" "hej")
    as (Hsame & _).
  split; [apply Hprefix; [discriminate | discriminate | reflexivity] |].
  split; [apply Hrestart; [discriminate | discriminate | reflexivity] |].
  split; [apply Hsame; by right |].
  apply Hstored. discriminate.
Defined.

(** C3 as stated fails in its last sentence: with "hej" stored, an event
    whose cumulative text is empty leaves "hej" stored, not the empty
    text. *)
Lemma stored_text_equals_new_text_fails :
  ~ (forall t,
       input_text (heard "") = Some t ->
       _last_input_transcription
         (fst (fst (process_response no_service (with_last_input "hej" alice)
                      (heard "") []))) = t).
Proof. intros H. specialize (H "" eq_refl). discriminate H. Qed.

Lemma receive_audio_turn (post : http_client) (t : turn) (rest : list turn)
  (self : AudioLoop) :
  stop_event self = false ->
  snd (process_turn post (responses t) self) = None ->
  ending t = TurnComplete ->
  receive_audio post (t :: rest) self =
  after (snd (fst (process_turn post (responses t) self)))
    (receive_audio post rest
       (turn_boundary
          (interfere post (while_ending t)
             (fst (fst (process_turn post (responses t) self)))))).
Proof.
  intros Hstop Hcalm Hend. simpl. rewrite Hstop.
  destruct (process_turn post (responses t) self) as [[self1 emitted1] raised].
  simpl in Hcalm. subst raised. by rewrite Hend.
Qed.

(** C4. When a turn ends (no exception has left the iteration over its
    responses), with or without events, the speaking flag is false and
    both stored transcripts are empty; hence the first output-transcription
    event of the next turn, whatever the other tasks did meanwhile, has
    its full text as delta. *)
Theorem turn_boundary_resets (post : http_client) (t : turn)
  (rest : list turn) (self : AudioLoop) :
  stop_event self = false ->
  snd (process_turn post (responses t) self) = None ->
  ending t = TurnComplete ->
  let self' :=
    turn_boundary
      (interfere post (while_ending t)
         (fst (fst (process_turn post (responses t) self)))) in
  receive_audio post (t :: rest) self =
    after (snd (fst (process_turn post (responses t) self)))
          (receive_audio post rest self') /\
  is_speaking self' = false /\
  _last_input_transcription self' = "" /\
  _last_output_transcription self' = "" /\
  forall (others : list atomic) (response : Response) (env : list tool_round),
    Forall not_receive others ->
    emitted "Alice"
      (snd (fst (process_response post (interfere post others self')
                   response env))) =
    match output_text response with
    | Some full => if truthy full && on_transcription self' then [full] else []
    | None => []
    end.
Proof.
  intros Hstop Hcalm Hend self'.
  split; [by apply receive_audio_turn |].
  repeat (split; [reflexivity |]).
  intros others response env Hothers.
  rewrite process_response_emitted_alice. unfold output_delta.
  rewrite (interfere_last_output post others self' Hothers).
  rewrite interfere_on_transcription.
  change (_last_output_transcription self') with "".
  destruct (output_text response) as [full|]; [| done].
  rewrite delta_of_fresh. by destruct (truthy full).
Qed.

Lemma turn_boundary_resets_witness :
  _last_output_transcription stale = "hej" /\
  state (receive_audio no_service [empty_turn] stale) = Suspended /\
  _last_output_transcription
    (final (receive_audio no_service [empty_turn] stale)) = "" /\
  emitted "Alice"
    (snd (fst (process_response no_service (turn_boundary stale)
                 (said "hej då") [])))
  = ["hej då"].
Proof.
  destruct (turn_boundary_resets no_service empty_turn [] stale
              eq_refl eq_refl eq_refl)
    as (Hloop & _ & _ & _ & Hnext).
  split; [reflexivity |].
  split; [by rewrite Hloop |].
  split; [by rewrite Hloop |].
  exact (Hnext [] (said "hej då") [] (List.Forall_nil _)).
Defined.

(** ** Voice activity detection *)

Lemma Qlt_bool_true (x y : Q) : Qlt_bool x y = true <-> (x < y)%Q.
Proof.
  unfold Qlt_bool. rewrite negb_true_iff. split.
  - intros H. apply Qnot_le_lt. intros Hle.
    apply Qle_bool_iff in Hle. congruence.
  - intros H. destruct (Qle_bool y x) eqn:E; [| done].
    apply Qle_bool_iff in E. by apply Qle_not_lt in E.
Qed.

Lemma Qlt_bool_false (x y : Q) : (y <= x)%Q -> Qlt_bool x y = false.
Proof.
  intros H. unfold Qlt_bool. apply negb_false_iff. by apply Qle_bool_iff.
Qed.

Lemma loud_gtb (rms : Z) : (VAD_THRESHOLD < rms)%Z -> (rms >? VAD_THRESHOLD)%Z = true.
Proof. intros H. by apply Z.gtb_lt. Qed.

Lemma quiet_gtb (rms : Z) : (rms <= VAD_THRESHOLD)%Z -> (rms >? VAD_THRESHOLD)%Z = false.
Proof. intros H. rewrite Z.gtb_ltb. apply Z.ltb_ge. exact H. Qed.

(** A frame above the threshold: speaking, timer cleared. *)
Lemma vad_loud (self : AudioLoop) (rms : Z) (t : Q) :
  (VAD_THRESHOLD < rms)%Z ->
  _is_user_speaking (fst (vad_update self rms t)) = true /\
  _silence_start_time (fst (vad_update self rms t)) = None.
Proof.
  intros H. unfold vad_update. rewrite (loud_gtb rms H). simpl.
  destruct (_is_user_speaking self) eqn:E; simpl; rewrite ?E; by split.
Qed.

(** A quiet frame while speaking starts the timer, or lets it run as long
    as no more than the silence duration has gone by. *)
Lemma vad_quiet_keeps (self : AudioLoop) (rms : Z) (t : Q) :
  _is_user_speaking self = true ->
  (rms <= VAD_THRESHOLD)%Z ->
  (forall since, _silence_start_time self = Some since ->
                 (t - since <= SILENCE_DURATION)%Q) ->
  _is_user_speaking (fst (vad_update self rms t)) = true /\
  _silence_start_time (fst (vad_update self rms t)) =
    Some (default t (_silence_start_time self)).
Proof.
  intros Hsp Hq Hshort. unfold vad_update. rewrite (quiet_gtb rms Hq), Hsp.
  destruct (_silence_start_time self) as [since|] eqn:E; simpl; [| done].
  rewrite (Qlt_bool_false _ _ (Hshort since eq_refl)). simpl. by rewrite E.
Qed.

(** The only way from speaking to not speaking. *)
Lemma vad_flip (self : AudioLoop) (rms : Z) (t : Q) :
  _is_user_speaking self = true ->
  _is_user_speaking (fst (vad_update self rms t)) = false ->
  (rms <= VAD_THRESHOLD)%Z /\
  exists since, _silence_start_time self = Some since /\
                (SILENCE_DURATION < t - since)%Q.
Proof.
  intros Hsp. unfold vad_update.
  destruct (rms >? VAD_THRESHOLD)%Z eqn:Hcmp; simpl; rewrite Hsp; simpl.
  { rewrite Hsp. discriminate. }
  intros Hflip. split.
  { rewrite Z.gtb_ltb in Hcmp. by apply Z.ltb_ge. }
  destruct (_silence_start_time self) as [since|]; simpl in *; [| congruence].
  destruct (Qlt_bool SILENCE_DURATION (t - since)) eqn:Hd; simpl in *;
    [| congruence].
  clear Hflip. exists since. split; [done |]. by apply Qlt_bool_true.
Qed.

Lemma vad_run_app (a b : list (Z * Q)) (self : AudioLoop) :
  vad_run (a ++ b) self = vad_run b (vad_run a self).
Proof.
  revert self. induction a as [|[rms t] a IH]; intros self; simpl; [done |].
  apply IH.
Qed.

Lemma timer_justified_snoc (frames : list (Z * Q)) (self : AudioLoop)
  (f : Z * Q) (s' : AudioLoop) :
  timer_justified frames self ->
  quiet f ->
  _silence_start_time s' = _silence_start_time self ->
  timer_justified (frames ++ [f]) s'.
Proof.
  intros Hj Hq Hsame since Hs. rewrite Hsame in Hs.
  destruct (Hj since Hs) as (before & first & between & -> & Hall).
  exists before, first, (between ++ [f]). split.
  - by rewrite <- app_assoc.
  - change ((first, since) :: between ++ [f])
      with (((first, since) :: between) ++ [f]).
    apply Forall_app. split; [done |]. by constructor.
Qed.

Lemma vad_run_timer (frames : list (Z * Q)) (self : AudioLoop) :
  _silence_start_time self = None ->
  timer_justified frames (vad_run frames self).
Proof.
  intros Hnone. induction frames as [|[rms t] frames IH] using rev_ind.
  - intros since Hs. simpl in Hs. congruence.
  - rewrite vad_run_app. simpl. set (s := vad_run frames self) in *.
    unfold vad_update.
    destruct (rms >? VAD_THRESHOLD)%Z eqn:Hcmp.
    { intros since Hs. simpl in Hs.
      destruct (_is_user_speaking s); simpl in Hs; congruence. }
    assert (Hq : quiet (rms, t)).
    { unfold quiet. simpl. rewrite Z.gtb_ltb in Hcmp. by apply Z.ltb_ge. }
    destruct (_is_user_speaking s) eqn:Hsp; simpl;
      [| by apply (timer_justified_snoc frames s)].
    destruct (_silence_start_time s) as [since0|] eqn:Hs0; simpl.
    + destruct (Qlt_bool SILENCE_DURATION (t - since0)); simpl.
      * intros since Hs. simpl in Hs. congruence.
      * by apply (timer_justified_snoc frames s).
    + intros since Hs. simpl in Hs. injection Hs as <-.
      exists frames, rms, []. split; [done |]. by constructor.
Qed.

(** Over a run of updates that starts with no timer running: the flag
    falls only at a quiet frame that comes more than the silence duration
    after a quiet frame, with nothing but quiet frames in between. *)
Lemma vad_run_flip (earlier : list (Z * Q)) (self : AudioLoop)
  (rms : Z) (t : Q) :
  _silence_start_time self = None ->
  _is_user_speaking (vad_run earlier self) = true ->
  _is_user_speaking (fst (vad_update (vad_run earlier self) rms t)) = false ->
  exists before first since between,
    earlier = before ++ (first, since) :: between /\
    Forall quiet ((first, since) :: between ++ [(rms, t)]) /\
    (SILENCE_DURATION < t - since)%Q.
Proof.
  intros Hnone Hsp Hflip.
  destruct (vad_flip _ rms t Hsp Hflip) as (Hq & since & Hs & Hlong).
  destruct (vad_run_timer earlier self Hnone since Hs)
    as (before & first & between & Heq & Hall).
  exists before, first, since, between. split; [done |]. split; [| done].
  change ((first, since) :: between ++ [(rms, t)])
    with (((first, since) :: between) ++ [(rms, t)]).
  apply Forall_app. split; [done |]. by constructor.
Qed.

(** A quiet frame while the user is speaking and no timer runs starts
    the timer at the time of the frame. *)
Lemma vad_quiet_starts (self : AudioLoop) (rms : Z) (t : Q) :
  _is_user_speaking self = true ->
  (rms <= VAD_THRESHOLD)%Z ->
  _silence_start_time self = None ->
  vad_update self rms t = (with_silence_start (Some t) self, []).
Proof.
  intros Hsp Hq Hs. unfold vad_update. by rewrite (quiet_gtb rms Hq), Hsp, Hs.
Qed.

(** A quiet frame while the timer runs: nothing changes until more than
    the silence duration has gone by, then the flag falls and the timer
    is cleared. *)
Lemma vad_quiet_waits (self : AudioLoop) (rms : Z) (t since : Q) :
  _is_user_speaking self = true ->
  (rms <= VAD_THRESHOLD)%Z ->
  _silence_start_time self = Some since ->
  (t - since <= SILENCE_DURATION)%Q ->
  vad_update self rms t = (self, []).
Proof.
  intros Hsp Hq Hs Hshort. unfold vad_update.
  by rewrite (quiet_gtb rms Hq), Hsp, Hs, (Qlt_bool_false _ _ Hshort).
Qed.

Lemma vad_quiet_falls (self : AudioLoop) (rms : Z) (t since : Q) :
  _is_user_speaking self = true ->
  (rms <= VAD_THRESHOLD)%Z ->
  _silence_start_time self = Some since ->
  (SILENCE_DURATION < t - since)%Q ->
  vad_update self rms t =
  (with_silence_start None (with_user_speaking false self), []).
Proof.
  intros Hsp Hq Hs Hlong. unfold vad_update.
  apply Qlt_bool_true in Hlong.
  by rewrite (quiet_gtb rms Hq), Hsp, Hs, Hlong.
Qed.

(** A quiet frame while the user is not speaking changes nothing. *)
Lemma vad_silent_stays (self : AudioLoop) (rms : Z) (t : Q) :
  _is_user_speaking self = false ->
  (rms <= VAD_THRESHOLD)%Z ->
  vad_update self rms t = (self, []).
Proof.
  intros Hsp Hq. unfold vad_update. by rewrite (quiet_gtb rms Hq), Hsp.
Qed.

(** C5. The voice activity update, case by case. A frame whose RMS is
    above the threshold (800) makes the user speaking and clears the
    silence timer. A frame at or below the threshold, while the user is
    speaking: starts the timer when none runs; changes nothing as long as
    no more than the silence duration (0.5 s) has gone by since the timer
    started, so the flag stays up through a silence shorter than the
    duration; and makes the flag fall, and clears the timer, once more
    than the duration has gone by. While the user is not speaking such a
    frame changes nothing. Over a run of updates the flag so falls only
    at a quiet frame that comes more than the silence duration after the
    quiet frame that started the timer, with only quiet frames between
    the two. *)
Theorem vad_hysteresis (self : AudioLoop) (rms : Z) (t : Q)
  (earlier : list (Z * Q)) :
  VAD_THRESHOLD = 800%Z /\
  SILENCE_DURATION = (1 # 2)%Q /\
  ((VAD_THRESHOLD < rms)%Z ->
   _is_user_speaking (fst (vad_update self rms t)) = true /\
   _silence_start_time (fst (vad_update self rms t)) = None) /\
  (_is_user_speaking self = true ->
   (rms <= VAD_THRESHOLD)%Z ->
   _silence_start_time self = None ->
   vad_update self rms t = (with_silence_start (Some t) self, [])) /\
  (forall since,
     _is_user_speaking self = true ->
     (rms <= VAD_THRESHOLD)%Z ->
     _silence_start_time self = Some since ->
     (t - since <= SILENCE_DURATION)%Q ->
     vad_update self rms t = (self, [])) /\
  (_is_user_speaking self = true ->
   (rms <= VAD_THRESHOLD)%Z ->
   (forall since, _silence_start_time self = Some since ->
                  (t - since < SILENCE_DURATION)%Q) ->
   _is_user_speaking (fst (vad_update self rms t)) = true) /\
  (forall since,
     _is_user_speaking self = true ->
     (rms <= VAD_THRESHOLD)%Z ->
     _silence_start_time self = Some since ->
     (SILENCE_DURATION < t - since)%Q ->
     vad_update self rms t =
     (with_silence_start None (with_user_speaking false self), []) /\
     _is_user_speaking (fst (vad_update self rms t)) = false /\
     _silence_start_time (fst (vad_update self rms t)) = None) /\
  (_is_user_speaking self = false ->
   (rms <= VAD_THRESHOLD)%Z ->
   vad_update self rms t = (self, [])) /\
  (_silence_start_time self = None ->
   _is_user_speaking (vad_run earlier self) = true ->
   _is_user_speaking (fst (vad_update (vad_run earlier self) rms t)) = false ->
   exists before first since between,
     earlier = before ++ (first, since) :: between /\
     Forall quiet ((first, since) :: between ++ [(rms, t)]) /\
     (SILENCE_DURATION < t - since)%Q).
Proof.
  split; [reflexivity |]. split; [reflexivity |].
  split; [apply vad_loud |].
  split; [apply vad_quiet_starts |].
  split; [intros since; apply vad_quiet_waits |].
  split.
  { intros Hsp Hq Hshort.
    apply (vad_quiet_keeps self rms t Hsp Hq).
    intros since Hs. apply Qlt_le_weak. by apply Hshort. }
  split; [| split; [apply vad_silent_stays | apply vad_run_flip]].
  intros since Hsp Hq Hs Hlong.
  by rewrite (vad_quiet_falls self rms t since Hsp Hq Hs Hlong).
Qed.

Lemma vad_hysteresis_witness :
  _is_user_speaking (vad_run [(1000%Z, 0%Q)] alice) = true /\
  _silence_start_time (vad_run [(1000%Z, 0%Q); (120%Z, 1%Q)] alice) = Some 1%Q /\
  _is_user_speaking (vad_run speech_then_silence alice) = true /\
  vad_update (vad_run [(1000%Z, 0%Q); (120%Z, 1%Q)] alice) 90 (3 # 2) =
    (vad_run [(1000%Z, 0%Q); (120%Z, 1%Q)] alice, []) /\
  _is_user_speaking
    (fst (vad_update (vad_run speech_then_silence alice) 80 (16 # 10))) = false /\
  _silence_start_time
    (fst (vad_update (vad_run speech_then_silence alice) 80 (16 # 10))) = None /\
  vad_update alice 80 0 = (alice, []) /\
  exists before first since between,
    speech_then_silence = before ++ (first, since) :: between /\
    Forall quiet ((first, since) :: between ++ [(80%Z, (16 # 10)%Q)]) /\
    (SILENCE_DURATION < (16 # 10) - since)%Q.
Proof.
  destruct (vad_hysteresis alice 1000 0 []) as (_ & _ & Hloud & _).
  destruct (vad_hysteresis (vad_run [(1000%Z, 0%Q)] alice) 120 1 [])
    as (_ & _ & _ & Hstart & _).
  destruct (vad_hysteresis
              (vad_run [(1000%Z, 0%Q); (120%Z, 1%Q)] alice) 90 (13 # 10) [])
    as (_ & _ & _ & _ & _ & Hkeep & _).
  destruct (vad_hysteresis
              (vad_run [(1000%Z, 0%Q); (120%Z, 1%Q)] alice) 90 (3 # 2) [])
    as (_ & _ & _ & _ & Hwait & _).
  destruct (vad_hysteresis (vad_run speech_then_silence alice) 80 (16 # 10) [])
    as (_ & _ & _ & _ & _ & _ & Hfall & _).
  destruct (vad_hysteresis alice 80 0 speech_then_silence)
    as (_ & _ & _ & _ & _ & _ & _ & Hsilent & _).
  destruct (vad_hysteresis alice 80 (16 # 10) speech_then_silence)
    as (_ & _ & _ & _ & _ & _ & _ & _ & Hflip).
  destruct (Hfall 1%Q) as (_ & Hdown & Hclear);
    [reflexivity | discriminate | reflexivity | reflexivity |].
  split; [apply Hloud; reflexivity |].
  split.
  { change (vad_run [(1000%Z, 0%Q); (120%Z, 1%Q)] alice)
      with (fst (vad_update (vad_run [(1000%Z, 0%Q)] alice) 120 1)).
    rewrite Hstart; [reflexivity | reflexivity | discriminate | reflexivity]. }
  split.
  { apply Hkeep; [reflexivity | discriminate |].
    intros since Hs. injection Hs as <-. reflexivity. }
  split.
  { apply (Hwait 1%Q); [reflexivity | discriminate | reflexivity | discriminate]. }
  split; [exact Hdown |]. split; [exact Hclear |].
  split; [apply Hsilent; [reflexivity | discriminate] |].
  apply Hflip; reflexivity.
Defined.

(** ** Capture pipeline: echo suppression, read failures, frame energy *)

Lemma after_nil (o : outcome) : after [] o = o.
Proof. by destruct o. Qed.

Lemma listen_loop_round (post : http_client) (r : capture_round)
  (rest : list capture_round) (self : AudioLoop) :
  stop_event self = false ->
  paused self = false ->
  listen_loop post (r :: rest) self =
  match listen_try (interfere post (while_reading r) self) (read r) (now r) with
  | (self1, logged, None) => after logged (listen_loop post rest self1)
  | (self1, logged, Some e) =>
      after (logged ++ read_error_handler e)
        (listen_loop post rest (interfere post (while_backing_off r) self1))
  end.
Proof. intros Hstop Hpaused. simpl. by rewrite Hstop, Hpaused. Qed.

(** C6. A frame read while the speaking flag is set is dropped: the step
    changes nothing, so the outbound queue and the VAD state are as
    before, and the loop goes on to its next round with no effect. *)
Theorem echo_suppression_discards_frame (post : http_client)
  (self : AudioLoop) (frame : bytes) (t : Q) (r : capture_round)
  (rest : list capture_round) :
  (is_speaking self = true ->
   listen_iteration self (ReadOk frame) t = (self, []) /\
   out_queue (fst (listen_iteration self (ReadOk frame) t)) = out_queue self /\
   _is_user_speaking (fst (listen_iteration self (ReadOk frame) t)) =
     _is_user_speaking self /\
   _silence_start_time (fst (listen_iteration self (ReadOk frame) t)) =
     _silence_start_time self) /\
  (stop_event self = false ->
   paused self = false ->
   read r = ReadOk frame ->
   is_speaking (interfere post (while_reading r) self) = true ->
   listen_loop post (r :: rest) self =
   listen_loop post rest (interfere post (while_reading r) self)).
Proof.
  split.
  - intros Hsp. unfold listen_iteration, listen_try. by rewrite Hsp.
  - intros Hstop Hpaused Hread Hsp.
    rewrite (listen_loop_round post r rest self Hstop Hpaused).
    unfold listen_try. rewrite Hread, Hsp. apply after_nil.
Qed.

Lemma echo_suppression_discards_frame_witness :
  listen_iteration busy (ReadOk loud_frame) 0 = (busy, []) /\
  out_queue (final (listen_loop no_service [good_read loud_frame 0] busy)) = [].
Proof.
  destruct (echo_suppression_discards_frame no_service busy loud_frame 0
              (good_read loud_frame 0) []) as (Hstep & Hloop).
  split; [apply Hstep; reflexivity |].
  rewrite Hloop; reflexivity.
Defined.

(** C9, as the code has it. A failed read after the device was opened is
    printed, not given to the error callback; the pipeline sleeps 0.1 s
    and its loop goes on with the next round, from a state the failure
    did not change. *)
Theorem read_failure_is_not_fatal (post : http_client) (r : capture_round)
  (rest : list capture_round) (self : AudioLoop) (e : string) :
  stop_event self = false ->
  paused self = false ->
  read r = ReadRaised e ->
  listen_loop post (r :: rest) self =
    after [Print (LogReadError e); Sleep (1 # 10)]
      (listen_loop post rest
         (interfere post (while_backing_off r)
            (interfere post (while_reading r) self))) /\
  listen_iteration self (ReadRaised e) (now r) =
    (self, [Print (LogReadError e); Sleep (1 # 10)]) /\
  reported (snd (listen_iteration self (ReadRaised e) (now r))) = [].
Proof.
  intros Hstop Hpaused Hread. split; [| by split].
  rewrite (listen_loop_round post r rest self Hstop Hpaused).
  unfold listen_try. by rewrite Hread.
Qed.

Lemma read_failure_is_not_fatal_witness :
  listen_loop no_service [failed_read; good_read loud_frame 0] alice =
  after [Print (LogReadError "Input overflowed"); Sleep (1 # 10)]
    (listen_loop no_service [good_read loud_frame 0] alice).
Proof.
  apply (read_failure_is_not_fatal no_service failed_read
           [good_read loud_frame 0] alice "Input overflowed");
    reflexivity.
Defined.

(** C9 as stated fails: with an error callback installed, a failed read
    leaves the callback uncalled. *)
Lemma read_failure_reported_fails :
  on_error alice = true /\
  ~ (exists msg,
       In (OnError msg) (effects (listen_loop no_service [failed_read] alice))).
Proof.
  split; [reflexivity |].
  intros [msg Hin]. simpl in Hin.
  destruct Hin as [H | [H | []]]; discriminate H.
Qed.

Lemma even_half (n : nat) : Nat.even n = true -> n = (2 * (n / 2))%nat.
Proof.
  intros H. apply Nat.even_spec in H. destruct H as [k ->].
  by rewrite (Nat.mul_comm 2 k), Nat.div_mul, (Nat.mul_comm k 2).
Qed.

Lemma frame_rms_short (frame : bytes) :
  (length frame < 2)%nat -> frame_rms frame = inr 0%Z.
Proof.
  intros H. unfold frame_rms. by rewrite (Nat.div_small _ _ H).
Qed.

Lemma frame_rms_even (frame : bytes) :
  Nat.even (length frame) = true ->
  exists rms, frame_rms frame = inr rms /\ (0 <= rms)%Z.
Proof.
  intros H. unfold frame_rms, struct_unpack.
  destruct (0 <? length frame / 2)%nat; [| by exists 0%Z].
  rewrite <- (even_half _ H), Nat.eqb_refl.
  eexists. split; [reflexivity |]. apply Z.sqrt_nonneg.
Qed.

(** An odd number of bytes, three or more, makes [struct.unpack] raise. *)
Lemma frame_rms_odd (frame : bytes) :
  Nat.odd (length frame) = true ->
  (2 < length frame)%nat ->
  frame_rms frame =
  inl ("unpack requires a buffer of " +:+
       pretty (2 * (length frame / 2))%nat +:+ " bytes").
Proof.
  intros Hodd Hlen. unfold frame_rms, struct_unpack.
  apply Nat.odd_spec in Hodd. destruct Hodd as [k Hk].
  assert (Hhalf : (length frame / 2 = k)%nat).
  { rewrite Hk, (Nat.mul_comm 2 k), Nat.div_add_l by done. simpl. lia. }
  rewrite Hhalf.
  destruct (Nat.ltb_spec 0 k) as [_|Hk0]; [| lia].
  destruct (Nat.eqb_spec (length frame) (2 * k)) as [Heq|_]; [lia | done].
Qed.

Lemma listen_iteration_vad (self : AudioLoop) (frame : bytes) (rms : Z) (t : Q) :
  is_speaking self = false ->
  frame_rms frame = inr rms ->
  listen_iteration self (ReadOk frame) t =
  vad_update (enqueue_frame self frame) rms t.
Proof.
  intros Hsp Hrms. unfold listen_iteration, listen_try. rewrite Hsp, Hrms.
  by destruct (vad_update (enqueue_frame self frame) rms t).
Qed.

(** C10, as the code has it. On a frame of whole 16-bit samples (an even
    number of bytes) or of fewer than 2 bytes the RMS computation returns
    a value; a frame with no sample gives 0, with no division; and the
    VAD update runs on the value returned. *)
Theorem frame_rms_defined (self : AudioLoop) (frame : bytes) (t : Q) :
  (Nat.even (length frame) = true \/ (length frame < 2)%nat ->
   exists rms, frame_rms frame = inr rms /\ (0 <= rms)%Z) /\
  ((length frame < 2)%nat ->
   frame_rms frame = inr 0%Z /\
   (is_speaking self = false ->
    listen_iteration self (ReadOk frame) t =
    vad_update (enqueue_frame self frame) 0 t)) /\
  (forall rms,
     is_speaking self = false ->
     frame_rms frame = inr rms ->
     listen_iteration self (ReadOk frame) t =
     vad_update (enqueue_frame self frame) rms t).
Proof.
  split; [| split].
  - intros [Heven | Hshort]; [by apply frame_rms_even |].
    exists 0%Z. split; [by apply frame_rms_short | done].
  - intros Hshort. split; [by apply frame_rms_short |].
    intros Hsp. apply listen_iteration_vad; [done | by apply frame_rms_short].
  - intros rms. apply listen_iteration_vad.
Qed.

Lemma frame_rms_defined_witness :
  frame_rms tiny_frame = inr 0%Z /\
  listen_iteration alice (ReadOk tiny_frame) 0 =
    vad_update (enqueue_frame alice tiny_frame) 0 0 /\
  exists rms, frame_rms loud_frame = inr rms /\ (0 <= rms)%Z.
Proof.
  destruct (frame_rms_defined alice tiny_frame 0) as (_ & Hshort & _).
  destruct (frame_rms_defined alice loud_frame 0) as (Hwhole & _).
  assert (Hlen : (length tiny_frame < 2)%nat) by (simpl; lia).
  destruct (Hshort Hlen) as (Hzero & Hvad).
  split; [exact Hzero |].
  split; [apply Hvad; reflexivity |].
  apply Hwhole. left. reflexivity.
Defined.

(** C10 as stated fails: the RMS computation is not total, a frame of
    three bytes makes [struct.unpack] raise. *)
Lemma frame_rms_total_fails :
  ~ (forall frame : bytes, exists rms, frame_rms frame = inr rms).
Proof.
  intros H. destruct (H odd_frame) as [rms Hrms].
  rewrite frame_rms_odd in Hrms; [discriminate | reflexivity | simpl; lia].
Qed.

(** On such a frame the frame is enqueued, the VAD is not run, and the
    exception is handled as a read error. *)
Example odd_frame_is_a_read_error :
  listen_iteration alice (ReadOk odd_frame) 0 =
  (enqueue_frame alice odd_frame,
   [Print (LogReadError "unpack requires a buffer of 2 bytes");
    Sleep (1 # 10)]).
Proof. reflexivity. Qed.

Example loud_frame_rms : frame_rms loud_frame = inr 1000%Z.
Proof. reflexivity. Qed.

(** ** Tool dispatcher *)

Lemma tool_result_unknown (post : http_client) (self : AudioLoop)
  (fc : FunctionCall) :
  name fc <> "control_smart_home" ->
  name fc <> "web_search" ->
  tool_result post self fc = "Verktyget är inte tillgängligt.".
Proof.
  intros H1 H2. unfold tool_result, tool_try.
  apply String.eqb_neq in H1. apply String.eqb_neq in H2.
  by rewrite H1, H2.
Qed.

Lemma tool_result_refused (post : http_client) (self : AudioLoop)
  (fc : FunctionCall) (m : gmap string value) (code : Z) (body : string) :
  name fc = "control_smart_home" ->
  args fc = Some m ->
  post (control_url self) (control_request m) 10%Q = HttpResponse code body ->
  code <> 200%Z ->
  tool_result post self fc = "Kunde inte styra enheten: " +:+ body.
Proof.
  intros Hname Hargs Hpost Hcode. unfold tool_result, tool_try.
  rewrite Hname, String.eqb_refl, Hargs.
  unfold control_url, control_request in Hpost. rewrite Hpost.
  apply Z.eqb_neq in Hcode. by rewrite Hcode.
Qed.

Lemma tool_result_raised (post : http_client) (self : AudioLoop)
  (fc : FunctionCall) (m : gmap string value) (e : string) :
  name fc = "control_smart_home" ->
  args fc = Some m ->
  post (control_url self) (control_request m) 10%Q = HttpRaised e ->
  tool_result post self fc = "Fel vid verktygsanrop: " +:+ e.
Proof.
  intros Hname Hargs Hpost. unfold tool_result, tool_try.
  rewrite Hname, String.eqb_refl, Hargs.
  unfold control_url, control_request in Hpost. by rewrite Hpost.
Qed.

(** A call of a known tool that came without arguments: [fc.args.get]
    raises inside the [try], before anything is posted. *)
Lemma tool_result_no_args (post : http_client) (self : AudioLoop)
  (fc : FunctionCall) :
  name fc = "control_smart_home" \/ name fc = "web_search" ->
  args fc = None ->
  tool_result post self fc = "Fel vid verktygsanrop: " +:+ NONE_HAS_NO_GET.
Proof.
  intros [Hname | Hname] Hargs; unfold tool_result, tool_try;
    rewrite Hname, Hargs; reflexivity.
Qed.

Lemma handle_tool_call_answered (post : http_client) (self : AudioLoop)
  (fc : FunctionCall) (tr : tool_round) :
  on_tool_call self = false \/ observer_raised tr = None ->
  answer_raised tr = None ->
  snd (handle_tool_call post self fc tr) = None /\
  sent (fst (handle_tool_call post self fc tr)) = [tool_answer post self fc].
Proof.
  intros Hcb Hsend. unfold handle_tool_call. rewrite Hsend.
  destruct Hcb as [-> | ->]; [done |]. by destruct (on_tool_call self).
Qed.

Lemma handle_tool_call_observer_raised (post : http_client) (self : AudioLoop)
  (fc : FunctionCall) (tr : tool_round) (e : string) :
  on_tool_call self = true ->
  observer_raised tr = Some e ->
  handle_tool_call post self fc tr =
  ([Print (LogTool (name fc) (args fc))], Some e).
Proof. intros Hcb He. unfold handle_tool_call. by rewrite Hcb, He. Qed.

Lemma handle_tool_call_answer_raised (post : http_client) (self : AudioLoop)
  (fc : FunctionCall) (tr : tool_round) (e : string) :
  on_tool_call self = false \/ observer_raised tr = None ->
  answer_raised tr = Some e ->
  snd (handle_tool_call post self fc tr) = Some e /\
  sent (fst (handle_tool_call post self fc tr)) = [].
Proof.
  intros Hcb Hsend. unfold handle_tool_call. rewrite Hsend.
  destruct Hcb as [-> | ->]; [done |]. by destruct (on_tool_call self).
Qed.

(** A round that ends in an exception sends nothing; one that does not
    sends the answer of its call. *)
Lemma handle_tool_call_sent (post : http_client) (self : AudioLoop)
  (fc : FunctionCall) (tr : tool_round) :
  sent (fst (handle_tool_call post self fc tr)) =
  match snd (handle_tool_call post self fc tr) with
  | Some _ => []
  | None => [tool_answer post self fc]
  end.
Proof.
  unfold handle_tool_call.
  by destruct (on_tool_call self), (observer_raised tr), (answer_raised tr).
Qed.

(** When nothing raises: one answer per call, in the order of the batch,
    each tagged end-of-turn. *)
Lemma handle_tool_calls_sent (post : http_client) (self : AudioLoop)
  (fcs : list FunctionCall) (env : list tool_round) :
  Forall (fun tr => tr = accepted) env ->
  snd (_handle_tool_calls post self fcs env) = None /\
  sent (fst (_handle_tool_calls post self fcs env)) =
    map (tool_answer post self) fcs.
Proof.
  revert env. induction fcs as [|fc fcs IH]; intros env Hall; simpl; [done |].
  assert (Hhead : default accepted (head env) = accepted).
  { destruct Hall as [|tr env Htr _]; [done | by subst tr]. }
  assert (Htail : Forall (fun tr => tr = accepted) (tail env)).
  { destruct Hall as [|tr env _ Hrest]; [constructor | done]. }
  rewrite Hhead.
  destruct (handle_tool_call_answered post self fc accepted) as [Hr Hs];
    [by right | done |].
  destruct (handle_tool_call post self fc accepted) as [first raised].
  simpl in Hr, Hs. subst raised. simpl.
  destruct (IH (tail env) Htail) as [IHr IHs].
  split; [exact IHr |]. by rewrite sent_app, Hs, IHs.
Qed.

(** When the batch ends in an exception, the answered calls are the ones
    before the call at which it was raised. *)
Lemma handle_tool_calls_raised (post : http_client) (self : AudioLoop)
  (fcs : list FunctionCall) (env : list tool_round) (e : string) :
  snd (_handle_tool_calls post self fcs env) = Some e ->
  exists n,
    (n < length fcs)%nat /\
    sent (fst (_handle_tool_calls post self fcs env)) =
      map (tool_answer post self) (take n fcs).
Proof.
  revert env. induction fcs as [|fc fcs IH]; intros env; simpl; [done |].
  pose proof (handle_tool_call_sent post self fc (default accepted (head env)))
    as Hs.
  destruct (handle_tool_call post self fc (default accepted (head env)))
    as [first [e'|]]; simpl in *.
  - intros _. exists 0%nat. split; [lia | done].
  - intros Hr. destruct (IH (tail env) Hr) as (n & Hn & Hsent).
    exists (S n). split; [lia |]. by rewrite sent_app, Hs, Hsent.
Qed.

(** C7, as the code has it. The dispatcher turns every outcome of a call
    into a result string: the fixed fallback for a name it does not know;
    for the device-control tool a failure string with the response text
    on a status other than 200, and a failure string with the error text
    when the request raises (a timeout of the single request, bounded at
    10 s, included); a call of a known tool that came without arguments
    gets a failure string as well. The string is sent into the session
    tagged end-of-turn when neither the tool-call callback nor
    [session.send] raises. Both are called outside the [try]: an
    exception of the callback leaves the dispatcher before the result is
    computed, an exception of [session.send] after it, and in both cases
    the call and the calls behind it in the batch get no answer. *)
Theorem tool_dispatch_always_answers (post : http_client) (self : AudioLoop)
  (fc : FunctionCall) (tr : tool_round) (fcs : list FunctionCall)
  (env : list tool_round) :
  (name fc <> "control_smart_home" -> name fc <> "web_search" ->
   tool_result post self fc = "Verktyget är inte tillgängligt.") /\
  (forall m code body,
     name fc = "control_smart_home" ->
     args fc = Some m ->
     post (control_url self) (control_request m) 10%Q
       = HttpResponse code body ->
     code <> 200%Z ->
     tool_result post self fc = "Kunde inte styra enheten: " +:+ body) /\
  (forall m e,
     name fc = "control_smart_home" ->
     args fc = Some m ->
     post (control_url self) (control_request m) 10%Q = HttpRaised e ->
     tool_result post self fc = "Fel vid verktygsanrop: " +:+ e) /\
  (name fc = "control_smart_home" \/ name fc = "web_search" ->
   args fc = None ->
   tool_result post self fc = "Fel vid verktygsanrop: " +:+ NONE_HAS_NO_GET) /\
  (on_tool_call self = false \/ observer_raised tr = None ->
   answer_raised tr = None ->
   snd (handle_tool_call post self fc tr) = None /\
   sent (fst (handle_tool_call post self fc tr)) =
     [(InputText ("Verktygsresultat för " +:+ name fc +:+ ": " +:+
                  tool_result post self fc), true)]) /\
  (forall e,
     on_tool_call self = true ->
     observer_raised tr = Some e ->
     handle_tool_call post self fc tr =
     ([Print (LogTool (name fc) (args fc))], Some e)) /\
  (forall e,
     on_tool_call self = false \/ observer_raised tr = None ->
     answer_raised tr = Some e ->
     snd (handle_tool_call post self fc tr) = Some e /\
     sent (fst (handle_tool_call post self fc tr)) = []) /\
  (Forall (fun tr => tr = accepted) env ->
   snd (_handle_tool_calls post self fcs env) = None /\
   sent (fst (_handle_tool_calls post self fcs env)) =
     map (tool_answer post self) fcs) /\
  (forall e,
     snd (_handle_tool_calls post self fcs env) = Some e ->
     exists n,
       (n < length fcs)%nat /\
       sent (fst (_handle_tool_calls post self fcs env)) =
         map (tool_answer post self) (take n fcs)).
Proof.
  split; [apply tool_result_unknown |].
  split; [intros m code body; apply tool_result_refused |].
  split; [intros m e; apply tool_result_raised |].
  split; [apply tool_result_no_args |].
  split; [apply handle_tool_call_answered |].
  split; [intros e; apply handle_tool_call_observer_raised |].
  split; [intros e; apply handle_tool_call_answer_raised |].
  split; [apply handle_tool_calls_sent |].
  intros e. apply handle_tool_calls_raised.
Qed.

Lemma tool_dispatch_always_answers_witness :
  tool_result no_service alice unknown_tool
    = "Verktyget är inte tillgängligt." /\
  tool_result refusing_service alice lamp_on
    = "Kunde inte styra enheten: device offline" /\
  tool_result no_service alice lamp_on = "Fel vid verktygsanrop: timed out" /\
  tool_result no_service alice bare_search_call
    = "Fel vid verktygsanrop: 'NoneType' object has no attribute 'get'" /\
  sent (fst (_handle_tool_calls no_service alice [unknown_tool; lamp_on] []))
    = [tool_answer no_service alice unknown_tool;
       tool_answer no_service alice lamp_on] /\
  handle_tool_call no_service alice lamp_on
    {| observer_raised := Some "no running event loop";
       answer_raised := None |}
    = ([Print (LogTool "control_smart_home" (args lamp_on))],
       Some "no running event loop") /\
  sent (fst (handle_tool_call no_service alice lamp_on
               {| observer_raised := None;
                  answer_raised := Some "connection closed" |})) = [] /\
  exists n,
    (n < 2)%nat /\
    sent (fst (_handle_tool_calls no_service alice [unknown_tool; lamp_on]
                 [accepted;
                  {| observer_raised := None;
                     answer_raised := Some "connection closed" |}])) =
    map (tool_answer no_service alice) (take n [unknown_tool; lamp_on]).
Proof.
  destruct (tool_dispatch_always_answers no_service alice unknown_tool
              accepted [unknown_tool; lamp_on] [])
    as (Hunknown & _ & _ & _ & _ & _ & _ & Hbatch & _).
  destruct (tool_dispatch_always_answers refusing_service alice lamp_on
              accepted [] [])
    as (_ & Hrefused & _).
  destruct (tool_dispatch_always_answers no_service alice lamp_on
              {| observer_raised := Some "no running event loop";
                 answer_raised := None |} [] [])
    as (_ & _ & Hraised & _ & _ & Hobserver & _).
  destruct (tool_dispatch_always_answers no_service alice bare_search_call
              accepted [] [])
    as (_ & _ & _ & Hbare & _).
  destruct (tool_dispatch_always_answers no_service alice lamp_on
              {| observer_raised := None;
                 answer_raised := Some "connection closed" |}
              [unknown_tool; lamp_on]
              [accepted;
               {| observer_raised := None;
                  answer_raised := Some "connection closed" |}])
    as (_ & _ & _ & _ & _ & _ & Hsend & _ & Hprefix).
  split; [apply Hunknown; discriminate |].
  split.
  { apply (Hrefused lamp_args 503%Z "device offline");
      [reflexivity .. | discriminate]. }
  split; [apply (Hraised lamp_args "timed out"); reflexivity |].
  split; [apply Hbare; [by right | reflexivity] |].
  split; [apply Hbatch; constructor |].
  split; [apply (Hobserver "no running event loop"); reflexivity |].
  split.
  { apply (Hsend "connection closed"); [by right | reflexivity]. }
  apply (Hprefix "connection closed"). reflexivity.
Defined.

(** C7 as stated fails twice. With a callback that never raises: the
    session is gone when the first answer of a batch of two is sent,
    [session.send] raises, the exception leaves the dispatcher, and
    neither call is answered. With a session that accepts every answer:
    the tool-call callback raises at the first call, and the exception
    leaves the dispatcher before a result is computed. *)
Lemma tool_dispatch_never_raises_fails :
  ~ (forall (fcs : list FunctionCall) (env : list tool_round),
       Forall (fun tr => observer_raised tr = None) env ->
       snd (_handle_tool_calls no_service alice fcs env) = None /\
       sent (fst (_handle_tool_calls no_service alice fcs env)) =
         map (tool_answer no_service alice) fcs) /\
  ~ (forall (fcs : list FunctionCall) (env : list tool_round),
       Forall (fun tr => answer_raised tr = None) env ->
       snd (_handle_tool_calls no_service alice fcs env) = None /\
       sent (fst (_handle_tool_calls no_service alice fcs env)) =
         map (tool_answer no_service alice) fcs).
Proof.
  split; intros H.
  - destruct (H [unknown_tool; web_search_call] closed_session) as [Hraised _].
    + by repeat constructor.
    + discriminate Hraised.
  - destruct (H [unknown_tool; web_search_call] broken_observer) as [Hraised _].
    + by repeat constructor.
    + discriminate Hraised.
Qed.

Example unanswered_batch :
  _handle_tool_calls no_service alice [unknown_tool; web_search_call]
    closed_session =
  ([Print (LogTool "play_music" (Some ∅));
    OnToolCall "play_music" (Some ∅)],
   Some "connection closed") /\
  _handle_tool_calls no_service alice [unknown_tool; web_search_call]
    broken_observer =
  ([Print (LogTool "play_music" (Some ∅))], Some "no running event loop").
Proof. split; reflexivity. Qed.

(** ** The function calls of a response change no attribute *)

Lemma handle_tool_call_same (post : http_client) (s1 s2 : AudioLoop)
  (fc : FunctionCall) (tr : tool_round) :
  on_tool_call s1 = on_tool_call s2 ->
  orchestrator_url s1 = orchestrator_url s2 ->
  handle_tool_call post s1 fc tr = handle_tool_call post s2 fc tr.
Proof.
  intros H1 H2. unfold handle_tool_call, tool_result, tool_try.
  by rewrite H1, H2.
Qed.

Lemma handle_tool_calls_same (post : http_client) (s1 s2 : AudioLoop)
  (fcs : list FunctionCall) (env : list tool_round) :
  on_tool_call s1 = on_tool_call s2 ->
  orchestrator_url s1 = orchestrator_url s2 ->
  _handle_tool_calls post s1 fcs env = _handle_tool_calls post s2 fcs env.
Proof.
  intros H1 H2. revert env.
  induction fcs as [|fc fcs IH]; intros env; simpl; [done |].
  rewrite (handle_tool_call_same post s1 s2 fc _ H1 H2). by rewrite IH.
Qed.

(** Goes through the cases of the transcription blocks, the state being
    [s] after the audio block. *)
Ltac transcribed_cases s :=
  match goal with
  | |- context [server_content ?r] =>
      destruct (server_content r) as [?sc|]; [| done]
  end;
  match goal with
  | |- context [input_transcription ?sc] =>
      destruct (input_transcription sc) as [?it|]
  end;
  [rewrite !handle_input_transcription_eq; simpl;
   match goal with
   | |- context [text ?it] =>
       destruct (delta_of (_last_input_transcription s) (text it));
       destruct (text it)
   end |];
  simpl;
  match goal with
  | |- context [output_transcription ?sc] =>
      destruct (output_transcription sc) as [?ot|]
  end;
  try (rewrite !handle_output_transcription_eq; simpl;
       match goal with
       | |- context [text ?ot] =>
           destruct (delta_of (_last_output_transcription s) (text ot));
           destruct (text ot)
       end);
  unfold clear_audio_queue; rewrite ?drain_spec; simpl; try reflexivity.

Lemma transcribed_config (self : AudioLoop) (response : Response) :
  on_tool_call (fst (transcribed self response)) = on_tool_call self /\
  orchestrator_url (fst (transcribed self response)) = orchestrator_url self.
Proof.
  unfold transcribed, handle_server_content.
  replace (on_tool_call self)
    with (on_tool_call (handle_audio_data self (data response)))
    by (by destruct (data response) as [[|]|]).
  replace (orchestrator_url self)
    with (orchestrator_url (handle_audio_data self (data response)))
    by (by destruct (data response) as [[|]|]).
  generalize (handle_audio_data self (data response)). intros s.
  transcribed_cases s; done.
Qed.

(** A response is processed in two steps: audio and transcriptions, which
    change the state, then the function calls, which read the callback
    and the URL only. *)
Lemma process_response_eq (post : http_client) (self : AudioLoop)
  (response : Response) (env : list tool_round) :
  process_response post self response env =
  (fst (transcribed self response),
   snd (transcribed self response) ++
   fst match tool_call response with
       | Some tc => _handle_tool_calls post self (function_calls tc) env
       | None => ([], None)
       end,
   snd match tool_call response with
       | Some tc => _handle_tool_calls post self (function_calls tc) env
       | None => ([], None)
       end).
Proof.
  pose proof (transcribed_config self response) as [H1 H2].
  unfold process_response. fold (transcribed self response).
  destruct (transcribed self response) as [s1 done1]. simpl in *.
  destruct (tool_call response) as [tc|]; [| done].
  by rewrite (handle_tool_calls_same post s1 self _ _ H1 H2).
Qed.

(** The state a response leaves is the same whatever happens at its
    function calls. *)
Lemma process_response_state (post : http_client) (self : AudioLoop)
  (response : Response) (env : list tool_round) :
  fst (fst (process_response post self response env)) =
  fst (fst (process_response post self response [])).
Proof. by rewrite !process_response_eq. Qed.

(** ** The stop signal *)






















Example send_after_stop :
  send_realtime no_service [idle_send] stopped =
  {| final := stop alice;
     effects := [SessionSend (InputAudio loud_frame "audio/pcm") false];
     state := Suspended |}.
Proof. reflexivity. Qed.

Example receive_after_stop :
  emitted "User" (effects (receive_audio no_service [stopped_early] alice)) =
    ["hej"; " där"] /\
  emitted "Alice" (effects (receive_audio no_service [stopped_early] alice)) =
    ["Hej!"] /\
  state (receive_audio no_service [stopped_early] alice) = Exited.
Proof. repeat split; reflexivity. Qed.

(** ** Send and playback: order of delivery *)

Lemma with_out_queue_same (self : AudioLoop) :
  with_out_queue (out_queue self) self = self.
Proof. by destruct self. Qed.

Lemma with_audio_in_queue_same (self : AudioLoop) :
  with_audio_in_queue (audio_in_queue self) self = self.
Proof. by destruct self. Qed.

Lemma send_realtime_quiet (post : http_client) (n : nat) (self : AudioLoop) :
  send_realtime post (replicate n idle_send) self =
  {| final := with_out_queue (drop n (out_queue self)) self;
     effects := map (fun m => SessionSend m false) (take n (out_queue self));
     state := Suspended |}.
Proof.
  revert self. induction n as [|n IH]; intros self; simpl.
  { by rewrite drop_0, with_out_queue_same. }
  destruct (out_queue self) as [|m q] eqn:Hq.
  - rewrite IH, Hq. by rewrite drop_nil, take_nil.
  - rewrite IH. reflexivity.
Qed.

Lemma send_realtime_tags (post : http_client) (rounds : list send_round)
  (self : AudioLoop) :
  Forall (fun p => snd p = false) (sent (effects (send_realtime post rounds self))).
Proof.
  revert self. induction rounds as [|r rounds IH]; intros self; simpl.
  { constructor. }
  destruct (out_queue (interfere post (while_getting r) self)); simpl.
  - apply IH.
  - destruct (send_raised r); simpl; [constructor |].
    constructor; [done | apply IH].
Qed.

(** X1. Left alone, and with [session.send] accepting what it is given,
    the send loop forwards the queued messages in queue order, one per
    round, and leaves the rest queued; whatever the other tasks and the
    session do, everything it sends is tagged not-end-of-turn. *)
Theorem send_forwards_in_order (post : http_client) (n : nat)
  (rounds : list send_round) (self : AudioLoop) :
  sent (effects (send_realtime post (replicate n idle_send) self)) =
    map (fun m => (m, false)) (take n (out_queue self)) /\
  out_queue (final (send_realtime post (replicate n idle_send) self)) =
    drop n (out_queue self) /\
  Forall (fun p => snd p = false)
    (sent (effects (send_realtime post rounds self))).
Proof.
  rewrite send_realtime_quiet. simpl.
  split; [| split; [done | apply send_realtime_tags]].
  induction (take n (out_queue self)) as [|m ms IH]; simpl; [done | by rewrite IH].
Qed.

Lemma play_loop_quiet (post : http_client) (writes : list (option string))
  (self : AudioLoop) :
  stop_event self = false ->
  play_loop post (map quiet_play writes) self =
  {| final :=
       with_audio_in_queue (drop (length writes) (audio_in_queue self)) self;
     effects :=
       concat (zip_with (played (on_audio_data self)) (audio_in_queue self)
                 writes);
     state := Suspended |}.
Proof.
  revert self. induction writes as [|w writes IH]; intros self Hstop; simpl.
  { rewrite Hstop. rewrite drop_0, with_audio_in_queue_same.
    by destruct (audio_in_queue self). }
  rewrite Hstop.
  destruct (audio_in_queue self) as [|chunk q] eqn:Hq.
  - rewrite (IH self Hstop), Hq. by rewrite drop_nil.
  - rewrite (IH (with_audio_in_queue q self) Hstop). simpl.
    destruct w as [e|]; reflexivity.
Qed.

(** X2. Left alone and not stopped, the playback loop takes the queued
    chunks in queue order, one per round: a chunk whose device write
    succeeds is written and then handed to the audio observer; a chunk
    whose write raises is lost (logged, not retried, not observed) and
    the chunks behind it are played as usual. *)
Theorem playback_in_order (post : http_client) (writes : list (option string))
  (self : AudioLoop) :
  stop_event self = false ->
  effects (play_loop post (map quiet_play writes) self) =
    concat (zip_with (played (on_audio_data self)) (audio_in_queue self) writes)
  /\
  audio_in_queue (final (play_loop post (map quiet_play writes) self)) =
    drop (length writes) (audio_in_queue self) /\
  state (play_loop post (map quiet_play writes) self) = Suspended.
Proof. intros Hstop. by rewrite (play_loop_quiet post writes self Hstop). Qed.

Lemma playback_in_order_witness :
  effects (play_loop no_service
             (map quiet_play [None; Some "Output underflowed"]) busy) =
    [StreamWrite chunk_a; OnAudioData chunk_a;
     Print (LogPlaybackError "Output underflowed")] /\
  audio_in_queue
    (final (play_loop no_service
              (map quiet_play [None; Some "Output underflowed"]) busy)) =
    [chunk_a].
Proof.
  destruct (playback_in_order no_service [None; Some "Output underflowed"]
              busy eq_refl) as (Heff & Hq & _).
  split; [exact Heff | exact Hq].
Defined.

(** ** Capture: what is forwarded, and when nothing is read *)

Lemma listen_try_forwards (self : AudioLoop) (frame : bytes) (t : Q) :
  is_speaking self = false ->
  let s' := fst (fst (listen_try self (ReadOk frame) t)) in
  out_queue s' = out_queue self ++ [audio_message frame] /\
  stop_event s' = stop_event self /\
  paused s' = paused self /\
  is_speaking s' = false.
Proof.
  intros Hsp. unfold listen_try. rewrite Hsp.
  destruct (frame_rms frame) as [e|rms]; simpl; [done |].
  unfold vad_update.
  repeat match goal with
         | |- context [match _silence_start_time ?s with _ => _ end] =>
             destruct (_silence_start_time s) eqn:?
         | |- context [if ?b then _ else _] => destruct b eqn:?
         end; simpl; by rewrite ?Hsp.
Qed.

Lemma listen_loop_quiet_out (post : http_client) (frames : list (bytes * Q))
  (self : AudioLoop) :
  stop_event self = false ->
  paused self = false ->
  is_speaking self = false ->
  out_queue (final (listen_loop post (quiet_reads frames) self)) =
    out_queue self ++ map (fun f => audio_message (fst f)) frames /\
  state (listen_loop post (quiet_reads frames) self) = Suspended.
Proof.
  revert self. induction frames as [|[frame t] frames IH];
    intros self Hstop Hpaused Hsp.
  { simpl. rewrite Hstop. simpl. by rewrite app_nil_r. }
  change (quiet_reads ((frame, t) :: frames))
    with (good_read frame t :: quiet_reads frames).
  rewrite (listen_loop_round post _ _ self Hstop Hpaused).
  pose proof (listen_try_forwards self frame t Hsp) as H. cbv zeta in H.
  change (read (good_read frame t)) with (ReadOk frame).
  change (now (good_read frame t)) with t.
  change (interfere post (while_reading (good_read frame t)) self) with self.
  destruct (listen_try self (ReadOk frame) t) as [[s' logged] raised].
  cbn [fst] in H. destruct H as (Hq & Hs & Hp & Hsp').
  destruct (IH s') as (IHq & IHs); [congruence .. |].
  destruct raised as [e|]; simpl; rewrite IHq, IHs, Hq, <- app_assoc; done.
Qed.

(** X3. Not paused, not stopped, the model silent and no other task
    running: the capture loop enqueues every frame it reads, in order, as
    an audio/pcm message. Neither the RMS value, nor the VAD state, nor a
    frame of odd length keeps a frame from being forwarded. *)
Theorem capture_forwards_every_frame (post : http_client)
  (frames : list (bytes * Q)) (self : AudioLoop) :
  stop_event self = false ->
  paused self = false ->
  is_speaking self = false ->
  out_queue (final (listen_loop post (quiet_reads frames) self)) =
    out_queue self ++ map (fun f => audio_message (fst f)) frames /\
  state (listen_loop post (quiet_reads frames) self) = Suspended.
Proof. apply listen_loop_quiet_out. Qed.

Lemma capture_forwards_every_frame_witness :
  out_queue
    (final (listen_loop no_service
              (quiet_reads [(loud_frame, 0%Q); (odd_frame, 1%Q);
                            (tiny_frame, 2%Q)]) alice)) =
  [audio_message loud_frame; audio_message odd_frame;
   audio_message tiny_frame].
Proof.
  apply (capture_forwards_every_frame no_service
           [(loud_frame, 0%Q); (odd_frame, 1%Q); (tiny_frame, 2%Q)] alice);
    reflexivity.
Defined.

(** X4. While paused (and not stopped, no other task running) the capture
    loop never uses the device: each round is a sleep of 0.1 s, whatever
    the device would have returned, and the state is left as it was. *)
Theorem paused_capture_reads_nothing (post : http_client)
  (rounds : list capture_round) (self : AudioLoop) :
  stop_event self = false ->
  paused self = true ->
  Forall (fun r => while_reading r = []) rounds ->
  listen_loop post rounds self =
  {| final := self;
     effects := replicate (length rounds) (Sleep (1 # 10));
     state := Suspended |}.
Proof.
  intros Hstop Hpaused Hall.
  induction rounds as [|r rounds IH]; simpl; rewrite Hstop; [done |].
  inversion Hall as [|? ? Hr Hrest]; subst.
  rewrite Hpaused, Hr. simpl. by rewrite (IH Hrest).
Qed.

Lemma paused_capture_reads_nothing_witness :
  listen_loop no_service [good_read loud_frame 0; failed_read]
    (set_paused true alice) =
  {| final := set_paused true alice;
     effects := [Sleep (1 # 10); Sleep (1 # 10)];
     state := Suspended |}.
Proof.
  apply (paused_capture_reads_nothing no_service
           [good_read loud_frame 0; failed_read] (set_paused true alice));
    [reflexivity | reflexivity |].
  repeat constructor.
Defined.

(** ** Frame energy: bounds *)

Lemma short_of_range (lo hi : Byte.byte) :
  (-32768 <= short_of lo hi <= 32767)%Z.
Proof.
  unfold short_of.
  pose proof (Byte.to_N_bounded lo). pose proof (Byte.to_N_bounded hi).
  destruct (Z.ltb_spec (Z.of_N (Byte.to_N lo) + 256 * Z.of_N (Byte.to_N hi))
              32768); lia.
Qed.

Lemma shorts_of_pairs (P : list Z -> Prop) :
  P [] ->
  (forall lo hi rest, P rest -> P (short_of lo hi :: rest)) ->
  forall frame, P (shorts_of frame).
Proof.
  intros Hnil Hcons frame.
  assert (H : P (shorts_of frame) /\ forall b, P (shorts_of (b :: frame))).
  { induction frame as [|a frame [IH1 IH2]]; simpl.
    - split; [done | intros b; done].
    - split; [apply IH2 |]. intros b. by apply Hcons. }
  apply H.
Qed.

Lemma shorts_of_range (frame : bytes) :
  Forall (fun s => 0 <= Z.abs s <= 32768)%Z (shorts_of frame).
Proof.
  apply shorts_of_pairs; [constructor |].
  intros lo hi rest Hrest. constructor; [| done].
  pose proof (short_of_range lo hi). lia.
Qed.

Lemma shorts_of_length (k : nat) (frame : bytes) :
  length frame = (2 * k)%nat -> length (shorts_of frame) = k.
Proof.
  revert frame. induction k as [|k IH]; intros frame H.
  - by destruct frame.
  - destruct frame as [|a [|b rest]]; simpl in H; try lia.
    simpl. f_equal. apply IH. lia.
Qed.

Lemma sum_from (l : list Z) (a : Z) :
  fold_left Z.add l a = (a + fold_left Z.add l 0)%Z.
Proof.
  revert a. induction l as [|x l IH]; intros a; cbn [fold_left]; [lia |].
  rewrite (IH (a + x)%Z), (IH (0 + x)%Z). lia.
Qed.

Lemma sum_squares_between (lo hi : Z) (l : list Z) :
  (0 <= lo)%Z ->
  Forall (fun s => lo <= Z.abs s <= hi)%Z l ->
  (Z.of_nat (length l) * (lo * lo)
   <= fold_left Z.add (map (fun s => s ^ 2) l) 0
   <= Z.of_nat (length l) * (hi * hi))%Z.
Proof.
  intros Hlo Hall. induction Hall as [|s l Hs Hl IH].
  - simpl. lia.
  - cbn [map fold_left length]. rewrite sum_from.
    rewrite Z.pow_2_r, <- (Z.abs_square s). nia.
Qed.

(** X5. Whenever the RMS computation returns a value it lies between 0
    and 32768; on a frame with at least one sample it lies between the
    smallest and the largest magnitude among the samples. A frame whose
    samples all stay within the threshold can so never count as speech. *)
Theorem frame_rms_between (frame : bytes) (rms lo hi : Z) :
  frame_rms frame = inr rms ->
  (0 <= rms <= 32768)%Z /\
  ((2 <= length frame)%nat ->
   (0 <= lo)%Z ->
   Forall (fun s => lo <= Z.abs s <= hi)%Z (shorts_of frame) ->
   (lo <= rms <= hi)%Z).
Proof.
  unfold frame_rms, struct_unpack. set (count := (length frame / 2)%nat).
  destruct (Nat.ltb_spec 0 count) as [Hpos|Hzero].
  2:{ intros [= <-]. split; [lia |]. intros Hlen.
      assert (1 <= count)%nat; [| lia].
      unfold count. apply Nat.div_le_lower_bound; lia. }
  destruct (Nat.eqb_spec (length frame) (2 * count)) as [Hlen|]; [| done].
  intros [= <-].
  pose proof (shorts_of_length count frame Hlen) as Hn.
  assert (Hbetween : forall a b : Z,
             (0 <= a)%Z ->
             Forall (fun s => a <= Z.abs s <= b)%Z (shorts_of frame) ->
             (a <= Z.sqrt
                    (fold_left Z.add (map (fun s => s ^ 2) (shorts_of frame)) 0
                     / Z.of_nat count) <= b)%Z).
  { intros a b Ha Hall.
    pose proof (sum_squares_between a b _ Ha Hall) as [Hl Hu].
    rewrite Hn in Hl, Hu.
    assert (Hb : (a <= b)%Z).
    { destruct (shorts_of frame) as [|s l]; [simpl in Hn; lia |].
      inversion Hall; subst. lia. }
    split.
    - rewrite <- (Z.sqrt_square a Ha). apply Z.sqrt_le_mono.
      apply Z.div_le_lower_bound; lia.
    - rewrite <- (Z.sqrt_square b) by lia. apply Z.sqrt_le_mono.
      apply Z.div_le_upper_bound; lia. }
  split.
  - apply Hbetween; [lia | apply shorts_of_range].
  - intros _. apply Hbetween.
Qed.

Lemma frame_rms_between_witness :
  exists rms, frame_rms loud_frame = inr rms /\ (1000 <= rms <= 1000)%Z.
Proof.
  exists 1000%Z. split; [reflexivity |].
  destruct (frame_rms_between loud_frame 1000 1000 1000 eq_refl)
    as (_ & Hexact).
  apply Hexact; [simpl; lia | lia |].
  repeat constructor; vm_compute; discriminate.
Defined.

(** ** Voice activity: the falling edge and the timer *)

(** X6. While the user is speaking and the silence timer runs, a quiet
    frame ends the speech exactly when more than the silence duration has
    gone by since the timer started: at exactly 0.5 s the user is still
    speaking. The timer is cleared when the speech ends and kept, with
    its start, when it does not. *)
Theorem vad_falling_edge (self : AudioLoop) (rms : Z) (t since : Q) :
  _is_user_speaking self = true ->
  _silence_start_time self = Some since ->
  (rms <= VAD_THRESHOLD)%Z ->
  (_is_user_speaking (fst (vad_update self rms t)) = false <->
   (SILENCE_DURATION < t - since)%Q) /\
  ((SILENCE_DURATION < t - since)%Q ->
   _silence_start_time (fst (vad_update self rms t)) = None) /\
  ((t - since <= SILENCE_DURATION)%Q ->
   fst (vad_update self rms t) = self) /\
  snd (vad_update self rms t) = [].
Proof.
  intros Hsp Hs Hq. unfold vad_update.
  rewrite (quiet_gtb rms Hq), Hsp, Hs.
  destruct (Qlt_bool SILENCE_DURATION (t - since)) eqn:Hd; simpl.
  - apply Qlt_bool_true in Hd. repeat split; try done.
    intros Hle. by apply Qle_not_lt in Hle.
  - assert (Hnot : ~ (SILENCE_DURATION < t - since)%Q).
    { intros Hlt. apply Qlt_bool_true in Hlt. congruence. }
    repeat split; try done; try congruence.
Qed.

Lemma vad_falling_edge_witness :
  _is_user_speaking
    (fst (vad_update (vad_run [(1000%Z, 0%Q); (120%Z, 1%Q)] alice)
            90 (3 # 2))) = true /\
  _is_user_speaking
    (fst (vad_update (vad_run [(1000%Z, 0%Q); (120%Z, 1%Q)] alice)
            90 (151 # 100))) = false.
Proof.
  destruct (vad_falling_edge (vad_run [(1000%Z, 0%Q); (120%Z, 1%Q)] alice)
              90 (3 # 2) 1 eq_refl eq_refl) as (_ & _ & Hsame & _);
    [discriminate |].
  destruct (vad_falling_edge (vad_run [(1000%Z, 0%Q); (120%Z, 1%Q)] alice)
              90 (151 # 100) 1 eq_refl eq_refl) as (Hfall & _);
    [discriminate |].
  split.
  - rewrite Hsame; [reflexivity | discriminate].
  - apply Hfall. reflexivity.
Defined.

Lemma vad_update_ok (self : AudioLoop) (rms : Z) (t : Q) :
  vad_ok self -> vad_ok (fst (vad_update self rms t)).
Proof.
  unfold vad_ok, vad_update. intros Hok.
  destruct (rms >? VAD_THRESHOLD)%Z; simpl.
  { destruct (_is_user_speaking self); simpl; by left. }
  destruct (_is_user_speaking self) eqn:Hsp; simpl.
  2:{ rewrite Hsp. destruct Hok as [H | H]; [by left | done]. }
  destruct (_silence_start_time self) as [since|] eqn:Hs; simpl.
  - destruct (Qlt_bool SILENCE_DURATION (t - since)); simpl; [by left |].
    right. exact Hsp.
  - right. exact Hsp.
Qed.

Lemma listen_iteration_vad_fields (self : AudioLoop) (r : read_result) (t : Q) :
  (_is_user_speaking (fst (listen_iteration self r t)) = _is_user_speaking self /\
   _silence_start_time (fst (listen_iteration self r t)) =
     _silence_start_time self) \/
  exists frame rms,
    fst (listen_iteration self r t) =
    fst (vad_update (enqueue_frame self frame) rms t).
Proof.
  unfold listen_iteration, listen_try.
  destruct r as [frame|e]; [| by left].
  destruct (is_speaking self); [by left |].
  destruct (frame_rms frame) as [e|rms]; [by left |].
  right. exists frame, rms.
  by destruct (vad_update (enqueue_frame self frame) rms t).
Qed.

Lemma process_response_user_speaking (post : http_client) (self : AudioLoop)
  (response : Response) (env : list tool_round) :
  _is_user_speaking (fst (fst (process_response post self response env))) =
  _is_user_speaking self.
Proof.
  replace (_is_user_speaking self)
    with (_is_user_speaking (handle_audio_data self (data response)))
    by (by destruct (data response) as [[|]|]).
  by receive_cases.
Qed.

Lemma process_response_silence_start (post : http_client) (self : AudioLoop)
  (response : Response) (env : list tool_round) :
  _silence_start_time (fst (fst (process_response post self response env))) =
  _silence_start_time self.
Proof.
  replace (_silence_start_time self)
    with (_silence_start_time (handle_audio_data self (data response)))
    by (by destruct (data response) as [[|]|]).
  by receive_cases.
Qed.

Lemma perform_vad_ok (post : http_client) (a : atomic) (self : AudioLoop) :
  vad_ok self -> vad_ok (perform post a self).
Proof.
  intros Hok. destruct a; simpl; try done.
  - destruct (listen_iteration_vad_fields self r now0)
      as [[H1 H2] | (frame & rms & ->)].
    + unfold vad_ok. by rewrite H1, H2.
    + by apply vad_update_ok.
  - unfold vad_ok.
    by rewrite process_response_user_speaking, process_response_silence_start.
Qed.

(** X7. The silence timer only ever runs while the user is taken to be
    speaking: this holds for a new engine and is kept by every action of
    every pipeline and of the controller, so in every state the engine
    can reach. *)
Theorem silence_timer_needs_speech (post : http_client) (a t c e : bool)
  (dev : value) (url : string) (others : list atomic) (since : Q) :
  _silence_start_time
    (interfere post others (AudioLoop_init a t c e dev url)) = Some since ->
  _is_user_speaking
    (interfere post others (AudioLoop_init a t c e dev url)) = true.
Proof.
  assert (Hok : vad_ok (interfere post others (AudioLoop_init a t c e dev url))).
  { unfold interfere.
    assert (H0 : vad_ok (AudioLoop_init a t c e dev url)) by (by left).
    revert H0. generalize (AudioLoop_init a t c e dev url).
    induction others as [|x others IH]; intros s Hs; simpl; [done |].
    apply IH. by apply perform_vad_ok. }
  intros Hs. destruct Hok as [Hnone | Hsp]; [congruence | done].
Qed.

Lemma silence_timer_needs_speech_witness :
  _is_user_speaking
    (interfere no_service
       [ActCapture (ReadOk loud_frame) 0%Q; ActCapture (ReadOk tiny_frame) 1%Q]
       (AudioLoop_init true true true true VNone "")) = true.
Proof.
  apply (silence_timer_needs_speech no_service true true true true VNone ""
           [ActCapture (ReadOk loud_frame) 0%Q;
            ActCapture (ReadOk tiny_frame) 1%Q] 1%Q).
  reflexivity.
Defined.

(** ** Echo suppression lasts until the turn ends *)

Lemma listen_iteration_is_speaking (self : AudioLoop) (r : read_result) (t : Q) :
  is_speaking (fst (listen_iteration self r t)) = is_speaking self.
Proof. by capture_cases. Qed.

(** X8. Once the speaking flag is set, nothing but the end of the turn
    clears it: whatever the pipelines and the controller do meanwhile, an
    interruption by the user included, the flag stays set and every frame
    the microphone delivers is dropped. *)
Theorem microphone_muted_until_turn_end (post : http_client)
  (others : list atomic) (self : AudioLoop) (frame : bytes) (t : Q) :
  is_speaking self = true ->
  Forall (fun a => a <> ActTurnBoundary) others ->
  is_speaking (interfere post others self) = true /\
  listen_iteration (interfere post others self) (ReadOk frame) t =
    (interfere post others self, []).
Proof.
  intros Hsp Hall.
  assert (H : is_speaking (interfere post others self) = true).
  { unfold interfere. revert self Hsp.
    induction Hall as [|a others Ha Hall IH]; intros self Hsp; simpl; [done |].
    apply IH. destruct a; simpl; try done.
    - by rewrite listen_iteration_is_speaking.
    - rewrite process_response_speaking. by destruct (carries_audio response). }
  split; [done |]. unfold listen_iteration, listen_try. by rewrite H.
Qed.

Lemma microphone_muted_until_turn_end_witness :
  is_speaking
    (interfere no_service [ActReceive (heard "stopp"); ActPlayDequeue] busy)
  = true /\
  audio_in_queue
    (interfere no_service [ActReceive (heard "stopp"); ActPlayDequeue] busy)
  = [].
Proof.
  destruct (microphone_muted_until_turn_end no_service
              [ActReceive (heard "stopp"); ActPlayDequeue] busy loud_frame 0)
    as (Hsp & _); [reflexivity | repeat constructor; discriminate |].
  split; [exact Hsp | reflexivity].
Defined.

(** ** The deltas of a turn add up to the transcript *)

Lemma str_app_assoc (a b c : string) : (a +:+ b) +:+ c = a +:+ (b +:+ c).
Proof.
  induction a as [|x a IH]; [done |].
  change (String x ((a +:+ b) +:+ c) = String x (a +:+ (b +:+ c))).
  by rewrite IH.
Qed.

Lemma join_app (a b : list string) : join (a ++ b) = join a +:+ join b.
Proof.
  induction a as [|x a IH]; [done |].
  change (x +:+ join (a ++ b) = (x +:+ join a) +:+ join b).
  by rewrite IH, str_app_assoc.
Qed.

Lemma listen_iteration_last_input (self : AudioLoop) (r : read_result) (t : Q) :
  _last_input_transcription (fst (listen_iteration self r t)) =
  _last_input_transcription self.
Proof. by capture_cases. Qed.

Lemma interfere_last_input (post : http_client) (others : list atomic)
  (self : AudioLoop) :
  Forall not_receive others ->
  _last_input_transcription (interfere post others self) =
  _last_input_transcription self.
Proof.
  unfold interfere. revert self.
  induction others as [|a others IH]; intros self Hall; simpl; [done |].
  inversion Hall as [|? ? Ha Hrest]; subst. rewrite (IH _ Hrest).
  destruct a; simpl in *; try done. by rewrite listen_iteration_last_input.
Qed.

(** One response: the stored text followed by what is emitted is the text
    stored afterwards. *)
Lemma process_response_reassembles (post : http_client) (self : AudioLoop)
  (response : Response) (env : list tool_round) :
  on_transcription self = true ->
  growing (_last_input_transcription self) [input_text response] ->
  _last_input_transcription self +:+
    join (emitted "User" (snd (fst (process_response post self response env)))) =
  _last_input_transcription (fst (fst (process_response post self response env))).
Proof.
  intros Hcb Hgrow.
  rewrite process_response_emitted_user, process_response_last_input, Hcb.
  unfold input_delta, delta_of.
  destruct (input_text response) as [t|]; [| simpl; apply app_empty_r].
  simpl in Hgrow. destruct Hgrow as [Hp _].
  cbv beta iota. rewrite <- stored_after_guard.
  destruct (is_new_text (_last_input_transcription self) (Some t)).
  - change (join [prefix_diff (_last_input_transcription self) t])
      with (prefix_diff (_last_input_transcription self) t +:+ "").
    rewrite app_empty_r. symmetry. by apply startswith_split.
  - apply app_empty_r.
Qed.

(** X9. With a transcription callback installed and the cumulative user
    texts of a turn growing (each starts with the one stored before it),
    the deltas emitted over the turn, put end to end after the text
    stored at its start, are exactly the text stored at its end: nothing
    is emitted twice and nothing is left out, whatever the capture, send
    and playback pipelines do in between, and also when an exception
    leaves the turn before its last response. *)
Theorem deltas_reassemble_transcript (post : http_client)
  (rs : list arrival) (self : AudioLoop) :
  on_transcription self = true ->
  undisturbed rs ->
  growing (_last_input_transcription self) (input_texts rs) ->
  _last_input_transcription self +:+
    join (emitted "User" (snd (fst (process_turn post rs self)))) =
  _last_input_transcription (fst (fst (process_turn post rs self))).
Proof.
  revert self. induction rs as [|[[others response] env] rs IH];
    intros self Hcb Hund Hgrow.
  { apply app_empty_r. }
  inversion Hund as [|? ? Hothers Hrest]; subst. simpl in Hothers.
  simpl.
  pose proof (interfere_last_input post others self Hothers) as Hlast.
  pose proof (interfere_on_transcription post others self) as Hcb1.
  rewrite Hcb in Hcb1.
  set (s1 := interfere post others self) in *.
  assert (Hstep : growing (_last_input_transcription s1) [input_text response]).
  { rewrite Hlast. change (input_texts ((others, response, env) :: rs))
      with (input_text response :: input_texts rs) in Hgrow.
    simpl in *. destruct (input_text response); [| done].
    destruct Hgrow as [Hp _]. by split. }
  pose proof (process_response_reassembles post s1 response env Hcb1 Hstep)
    as H1.
  pose proof (process_response_last_input post s1 response env) as Hstored.
  pose proof (process_response_on_transcription post s1 response env) as Hcb2.
  rewrite Hcb1 in Hcb2.
  destruct (process_response post s1 response env) as [[s2 first] [e|]];
    simpl in *.
  { by rewrite <- Hlast. }
  assert (Hgrow2 : growing (_last_input_transcription s2) (input_texts rs)).
  { rewrite Hstored, Hlast.
    change (input_texts ((others, response, env) :: rs))
      with (input_text response :: input_texts rs) in Hgrow.
    simpl in Hgrow. destruct (input_text response); [| done].
    by destruct Hgrow as [_ Hg]. }
  specialize (IH s2 Hcb2 Hrest Hgrow2).
  destruct (process_turn post rs s2) as [[s3 more] raised]. simpl in *.
  rewrite emitted_app, join_app, <- str_app_assoc, <- Hlast, H1. exact IH.
Qed.

Lemma deltas_reassemble_transcript_witness :
  emitted "User" (snd (fst (process_turn no_service growing_turn alice))) =
    ["hej"; " där"; " Alice"] /\
  _last_input_transcription
    (fst (fst (process_turn no_service growing_turn alice)))
    = "hej där Alice" /\
  "" +:+
    join (emitted "User" (snd (fst (process_turn no_service growing_turn alice))))
    = _last_input_transcription
        (fst (fst (process_turn no_service growing_turn alice))).
Proof.
  split; [reflexivity |]. split; [reflexivity |].
  apply (deltas_reassemble_transcript no_service growing_turn alice).
  - reflexivity.
  - repeat constructor.
  - simpl. repeat split; reflexivity.
Defined.

(** ** Receive pipeline: a turn that raises *)

Lemma reported_app (a b : list effect) :
  reported (a ++ b) = reported a ++ reported b.
Proof.
  induction a as [|e a IH]; simpl; [done |].
  destruct e; simpl; by rewrite ?IH.
Qed.

Lemma tool_calls_report_nothing (post : http_client) (self : AudioLoop)
  (fcs : list FunctionCall) (env : list tool_round) :
  reported (fst (_handle_tool_calls post self fcs env)) = [].
Proof.
  revert env. induction fcs as [|fc fcs IH]; intros env; simpl; [done |].
  assert (H : reported
                (fst (handle_tool_call post self fc
                        (default accepted (head env)))) = []).
  { unfold handle_tool_call. generalize (default accepted (head env)).
    intros tr.
    by destruct (on_tool_call self), (observer_raised tr), (answer_raised tr). }
  destruct (handle_tool_call post self fc (default accepted (head env)))
    as [first [e|]]; simpl in *; [done |].
  by rewrite reported_app, H, IH.
Qed.

Lemma clear_audio_queue_reports_nothing (self : AudioLoop) :
  reported (snd (clear_audio_queue self)) = [].
Proof.
  unfold clear_audio_queue. rewrite drain_spec. simpl.
  by destruct (0 <? length (audio_in_queue self))%nat.
Qed.

Lemma transcribed_reports_nothing (self : AudioLoop) (response : Response) :
  reported (snd (transcribed self response)) = [].
Proof.
  unfold transcribed, handle_server_content.
  generalize (handle_audio_data self (data response)). intros s.
  transcribed_cases s;
    repeat match goal with
           | |- context [if ?b then _ else _] => destruct b
           end; reflexivity.
Qed.

(** Consuming a response never calls the error callback. *)
Lemma process_response_reports_nothing (post : http_client) (self : AudioLoop)
  (response : Response) (env : list tool_round) :
  reported (snd (fst (process_response post self response env))) = [].
Proof.
  rewrite process_response_eq. simpl.
  rewrite reported_app, transcribed_reports_nothing.
  destruct (tool_call response); [apply tool_calls_report_nothing | done].
Qed.

Lemma process_turn_reports_nothing (post : http_client) (rs : list arrival)
  (self : AudioLoop) :
  reported (snd (fst (process_turn post rs self))) = [].
Proof.
  revert self. induction rs as [|[[others response] env] rs IH]; intros self;
    simpl; [done |].
  pose proof (process_response_reports_nothing post
                (interfere post others self) response env) as H1.
  destruct (process_response post (interfere post others self) response env)
    as [[s1 first] [e|]]; simpl in *; [done |].
  specialize (IH s1). destruct (process_turn post rs s1) as [[s2 more] raised].
  simpl in *. by rewrite reported_app, H1, IH.
Qed.

Lemma listen_iteration_on_error (self : AudioLoop) (r : read_result) (t : Q) :
  on_error (fst (listen_iteration self r t)) = on_error self.
Proof. by capture_cases. Qed.

Lemma process_response_on_error (post : http_client) (self : AudioLoop)
  (response : Response) (env : list tool_round) :
  on_error (fst (fst (process_response post self response env))) =
  on_error self.
Proof.
  replace (on_error self)
    with (on_error (handle_audio_data self (data response)))
    by (by destruct (data response) as [[|]|]).
  by receive_cases.
Qed.

Lemma interfere_on_error (post : http_client) (others : list atomic)
  (self : AudioLoop) :
  on_error (interfere post others self) = on_error self.
Proof.
  unfold interfere. revert self.
  induction others as [|a others IH]; intros self; simpl; [done |].
  rewrite IH. destruct a; simpl; try done.
  - by rewrite listen_iteration_on_error.
  - by rewrite process_response_on_error.
Qed.

Lemma process_turn_on_error (post : http_client) (rs : list arrival)
  (self : AudioLoop) :
  on_error (fst (fst (process_turn post rs self))) = on_error self.
Proof.
  revert self. induction rs as [|[[others response] env] rs IH]; intros self;
    simpl; [done |].
  pose proof (process_response_on_error post (interfere post others self)
                response env) as H1.
  destruct (process_response post (interfere post others self) response env)
    as [[s1 first] [e|]]; simpl in *.
  { by rewrite H1, interfere_on_error. }
  specialize (IH s1). destruct (process_turn post rs s1) as [[s2 more] raised].
  simpl in *. by rewrite IH, H1, interfere_on_error.
Qed.

(** When neither the callback nor the session raises, no exception leaves
    the responses of a turn. *)
Lemma process_turn_calm (post : http_client) (rs : list arrival)
  (self : AudioLoop) :
  calm rs -> snd (process_turn post rs self) = None.
Proof.
  intros Hcalm. revert self.
  induction Hcalm as [|[[others response] env] rs Henv Hcalm IH]; intros self;
    simpl; [done |].
  simpl in Henv.
  assert (H1 : snd (process_response post (interfere post others self)
                      response env) = None).
  { rewrite process_response_eq. simpl.
    destruct (tool_call response) as [tc|]; [| done].
    by apply handle_tool_calls_sent. }
  destruct (process_response post (interfere post others self) response env)
    as [[s1 first] raised]. simpl in H1. subst raised.
  specialize (IH s1). by destruct (process_turn post rs s1) as [[s2 more] r].
Qed.

Lemma receive_audio_complete_reports_nothing (post : http_client)
  (turns : list turn) (self : AudioLoop) :
  Forall (fun t => ending t = TurnComplete /\ calm (responses t)) turns ->
  reported (effects (receive_audio post turns self)) = [].
Proof.
  intros Hall. revert self.
  induction Hall as [|t turns [Ht Hcalm] Hall IH]; intros self; simpl.
  { by destruct (stop_event self). }
  destruct (stop_event self); [done |].
  pose proof (process_turn_reports_nothing post (responses t) self) as H1.
  pose proof (process_turn_calm post (responses t) self Hcalm) as H2.
  destruct (process_turn post (responses t) self) as [[s1 emitted1] raised].
  simpl in H2. subst raised.
  rewrite Ht. simpl in *. by rewrite reported_app, H1, IH.
Qed.

(** What the handler of the receive pipeline leaves. *)
Lemma receive_audio_raised (post : http_client) (t : turn) (rest : list turn)
  (self : AudioLoop) (e : string) :
  stop_event self = false ->
  snd (process_turn post (responses t) self) = Some e \/
  snd (process_turn post (responses t) self) = None /\ ending t = TurnRaised e ->
  final (receive_audio post (t :: rest) self) =
    match snd (process_turn post (responses t) self) with
    | Some _ => fst (fst (process_turn post (responses t) self))
    | None =>
        interfere post (while_ending t)
          (fst (fst (process_turn post (responses t) self)))
    end /\
  state (receive_audio post (t :: rest) self) = Exited /\
  reported (effects (receive_audio post (t :: rest) self)) =
    (if on_error self then [e] else []) /\
  receive_audio post (t :: rest) self = receive_audio post [t] self.
Proof.
  intros Hstop Hraised. simpl. rewrite Hstop.
  pose proof (process_turn_reports_nothing post (responses t) self) as H1.
  pose proof (process_turn_on_error post (responses t) self) as H2.
  destruct (process_turn post (responses t) self) as [[s1 emitted1] raised].
  simpl in *. unfold receive_error_handler.
  destruct Hraised as [-> | [-> Hend]].
  - repeat split; try done. cbn [effects].
    rewrite reported_app, H1, H2. simpl. by destruct (on_error self).
  - rewrite Hend. repeat split; try done. cbn [effects].
    rewrite reported_app, H1, interfere_on_error, H2. simpl.
    by destruct (on_error self).
Qed.

(** X10. When an exception leaves a turn, raised by the iteration over
    its responses or, at a function call, by the tool-call callback or by
    [session.send], the receive pipeline ends there: the error text goes
    to the error callback, once, if one is installed (and a run in which
    every turn completes and no call raises never calls it); no later
    turn is consumed; and the turn-boundary reset is skipped, so the
    speaking flag and the stored transcripts stay as the last event left
    them. *)
Theorem receive_failure_ends_pipeline (post : http_client) (t : turn)
  (rest : list turn) (self : AudioLoop) (e : string) :
  stop_event self = false ->
  (snd (process_turn post (responses t) self) = None ->
   ending t = TurnRaised e ->
   final (receive_audio post (t :: rest) self) =
     interfere post (while_ending t)
       (fst (fst (process_turn post (responses t) self))) /\
   state (receive_audio post (t :: rest) self) = Exited /\
   reported (effects (receive_audio post (t :: rest) self)) =
     (if on_error self then [e] else []) /\
   receive_audio post (t :: rest) self = receive_audio post [t] self) /\
  (snd (process_turn post (responses t) self) = Some e ->
   final (receive_audio post (t :: rest) self) =
     fst (fst (process_turn post (responses t) self)) /\
   state (receive_audio post (t :: rest) self) = Exited /\
   reported (effects (receive_audio post (t :: rest) self)) =
     (if on_error self then [e] else []) /\
   receive_audio post (t :: rest) self = receive_audio post [t] self) /\
  (forall turns,
     Forall (fun t => ending t = TurnComplete /\ calm (responses t)) turns ->
     reported (effects (receive_audio post turns self)) = []).
Proof.
  intros Hstop. split; [| split].
  - intros Hcalm Hend.
    destruct (receive_audio_raised post t rest self e Hstop) as (Hf & H);
      [by right |].
    rewrite Hcalm in Hf. by split.
  - intros Hraised.
    destruct (receive_audio_raised post t rest self e Hstop) as (Hf & H);
      [by left |].
    rewrite Hraised in Hf. by split.
  - intros turns. apply receive_audio_complete_reports_nothing.
Qed.

Lemma receive_failure_ends_pipeline_witness :
  is_speaking (final (receive_audio no_service [raising_turn; empty_turn] alice))
    = true /\
  _last_input_transcription
    (final (receive_audio no_service [raising_turn; empty_turn] alice)) = "hej"
  /\
  reported (effects (receive_audio no_service [raising_turn; empty_turn] alice))
    = ["connection closed"] /\
  reported
    (effects (receive_audio no_service [unanswered_turn; empty_turn] alice))
    = ["connection closed"] /\
  receive_audio no_service [unanswered_turn; empty_turn] alice =
    receive_audio no_service [unanswered_turn] alice.
Proof.
  destruct (receive_failure_ends_pipeline no_service raising_turn [empty_turn]
              alice "connection closed" eq_refl)
    as (Hturn & _ & _).
  destruct (Hturn eq_refl eq_refl) as (Hfinal & _ & Hrep & _).
  destruct (receive_failure_ends_pipeline no_service unanswered_turn
              [empty_turn] alice "connection closed" eq_refl)
    as (_ & Hcall & _).
  destruct (Hcall eq_refl) as (_ & _ & Hrep' & Hlast).
  rewrite Hfinal.
  split; [reflexivity |]. split; [reflexivity |].
  split; [exact Hrep |]. split; [exact Hrep' | exact Hlast].
Defined.

Example unanswered_turn_effects :
  sent (effects (receive_audio no_service [unanswered_turn] alice)) = [] /\
  emitted "Alice" (effects (receive_audio no_service [unanswered_turn] alice))
    = [].
Proof. split; reflexivity. Qed.

(** ** Tool dispatcher: what reaches the network, and what a 200 means *)

Lemma tool_result_done (post : http_client) (self : AudioLoop)
  (fc : FunctionCall) (m : gmap string value) (body : string) :
  name fc = "control_smart_home" ->
  args fc = Some m ->
  post (control_url self) (control_request m) 10%Q = HttpResponse 200 body ->
  tool_result post self fc =
    "Klart! Enheten har " +:+
    py_str (arg_get m "action" (VStr "uppdaterats")) +:+ ".".
Proof.
  intros Hname Hargs Hpost. unfold tool_result, tool_try.
  rewrite Hname, String.eqb_refl, Hargs.
  unfold control_url, control_request in Hpost. by rewrite Hpost.
Qed.

(** X11. Only a device-control call that carries arguments uses the
    control service: for every other tool name, and for a call without
    arguments, what the dispatcher does is the same whatever the service
    would answer. A web search is answered with the echo of its query
    ("Söker efter: ..."), an absent query as the empty text; a web search
    that came without arguments is answered with the text of the
    exception its lookup raises; any other name with the fallback,
    arguments or not. *)
Theorem only_device_control_uses_service (post1 post2 : http_client)
  (self : AudioLoop) (fc : FunctionCall) (tr : tool_round) :
  (name fc <> "control_smart_home" \/ args fc = None ->
   handle_tool_call post1 self fc tr = handle_tool_call post2 self fc tr) /\
  (name fc = "web_search" ->
   (forall m,
      args fc = Some m ->
      tool_result post1 self fc =
        "Söker efter: " +:+ py_str (arg_get m "query" (VStr "")) /\
      (m !! "query" = None ->
       tool_result post1 self fc = "Söker efter: ")) /\
   (args fc = None ->
    tool_result post1 self fc =
      "Fel vid verktygsanrop: " +:+ NONE_HAS_NO_GET)) /\
  (name fc <> "control_smart_home" -> name fc <> "web_search" ->
   tool_result post1 self fc = "Verktyget är inte tillgängligt.").
Proof.
  split; [| split].
  - intros Hfree.
    assert (Hres : tool_result post1 self fc = tool_result post2 self fc).
    { unfold tool_result, tool_try. destruct Hfree as [Hname | Hargs].
      - apply String.eqb_neq in Hname. by rewrite Hname.
      - rewrite Hargs. by destruct (String.eqb (name fc) "control_smart_home"). }
    unfold handle_tool_call. by rewrite Hres.
  - intros Hweb. split.
    + intros m Hargs.
      assert (Hres : tool_result post1 self fc =
                     "Söker efter: " +:+ py_str (arg_get m "query" (VStr ""))).
      { unfold tool_result, tool_try. by rewrite Hweb, Hargs. }
      split; [exact Hres |].
      intros Hq. rewrite Hres. unfold arg_get. by rewrite Hq.
    + intros Hargs. apply tool_result_no_args; [by right | done].
  - apply tool_result_unknown.
Qed.

Lemma only_device_control_uses_service_witness :
  tool_result no_service alice web_search_call =
    "Söker efter: väder Stockholm" /\
  handle_tool_call no_service alice web_search_call accepted =
    handle_tool_call obliging_service alice web_search_call accepted /\
  tool_result no_service alice bare_search_call =
    "Fel vid verktygsanrop: 'NoneType' object has no attribute 'get'" /\
  tool_result no_service alice unknown_tool = "Verktyget är inte tillgängligt.".
Proof.
  destruct (only_device_control_uses_service no_service obliging_service alice
              web_search_call accepted) as (Hsame & Hweb & _).
  destruct (only_device_control_uses_service no_service obliging_service alice
              bare_search_call accepted) as (_ & Hbare & _).
  destruct (only_device_control_uses_service no_service obliging_service alice
              unknown_tool accepted) as (_ & _ & Hunknown).
  destruct (Hweb eq_refl) as (Hquery & _).
  destruct (Hquery weather_query eq_refl) as (Hres & _).
  destruct (Hbare eq_refl) as (_ & Hnone).
  split; [rewrite Hres; reflexivity |].
  split; [apply Hsame; left; discriminate |].
  split; [apply Hnone; reflexivity |].
  apply Hunknown; discriminate.
Defined.

(** X12. For the device-control tool a response with status 200 counts as
    success whatever its body says: the answer is "Klart! Enheten har
    <action>." and the body is never read. When the call names no action
    the request asks for "turn_on" while the answer says "uppdaterats";
    when it names no device the request's target is the empty text. *)
Theorem device_control_success (post : http_client) (self : AudioLoop)
  (fc : FunctionCall) (m : gmap string value) (body : string) :
  name fc = "control_smart_home" ->
  args fc = Some m ->
  post (control_url self) (control_request m) 10%Q = HttpResponse 200 body ->
  tool_result post self fc =
    "Klart! Enheten har " +:+
    py_str (arg_get m "action" (VStr "uppdaterats")) +:+ "." /\
  (m !! "action" = None ->
   action (control_request m) = VStr "turn_on" /\
   tool_result post self fc = "Klart! Enheten har uppdaterats.") /\
  (m !! "device" = None -> target (control_request m) = VStr "").
Proof.
  intros Hname Hargs Hpost.
  pose proof (tool_result_done post self fc m body Hname Hargs Hpost) as Hres.
  split; [exact Hres |]. split.
  - intros Hnone. rewrite Hres. unfold control_request, arg_get.
    by rewrite Hnone.
  - intros Hnone. unfold control_request, arg_get. by rewrite Hnone.
Qed.

Lemma device_control_success_witness :
  action (control_request bare_args) = VStr "turn_on" /\
  tool_result obliging_service alice bare_control_call =
    "Klart! Enheten har uppdaterats.".
Proof.
  destruct (device_control_success obliging_service alice bare_control_call
              bare_args "{}" eq_refl eq_refl eq_refl) as (_ & Hmissing & _).
  apply Hmissing. reflexivity.
Defined.

(** ** Clearing the playback queue *)

(** X13. [clear_audio_queue] drops every queued chunk, touches nothing
    else, and logs how many chunks it dropped; on an empty queue it logs
    nothing. Clearing twice is clearing once. *)
Theorem clear_audio_queue_counts (self : AudioLoop) :
  clear_audio_queue self =
    (with_audio_in_queue [] self,
     match audio_in_queue self with
     | [] => []
     | _ :: _ => [Print (LogCleared (length (audio_in_queue self)))]
     end) /\
  clear_audio_queue (fst (clear_audio_queue self)) =
    (fst (clear_audio_queue self), []).
Proof.
  unfold clear_audio_queue. rewrite drain_spec. simpl.
  split; [by destruct (audio_in_queue self) |]. reflexivity.
Qed.

(** ** Pausing touches the capture pipeline only *)

Lemma handle_audio_data_paused (b : bool) (self : AudioLoop) (d : option bytes) :
  handle_audio_data (with_paused b self) d =
  with_paused b (handle_audio_data self d).
Proof. by destruct d as [[|]|]. Qed.

Lemma transcribed_paused (b : bool) (self : AudioLoop) (response : Response) :
  transcribed (with_paused b self) response =
  (with_paused b (fst (transcribed self response)),
   snd (transcribed self response)).
Proof.
  unfold transcribed, handle_server_content.
  rewrite handle_audio_data_paused.
  generalize (handle_audio_data self (data response)). intros s.
  transcribed_cases s.
Qed.

Lemma process_response_paused (post : http_client) (b : bool)
  (self : AudioLoop) (response : Response) (env : list tool_round) :
  process_response post (with_paused b self) response env =
  (with_paused b (fst (fst (process_response post self response env))),
   snd (fst (process_response post self response env)),
   snd (process_response post self response env)).
Proof.
  rewrite !process_response_eq, transcribed_paused. simpl.
  destruct (tool_call response) as [tc|]; [| done].
  by rewrite (handle_tool_calls_same post (with_paused b self) self).
Qed.

Lemma listen_iteration_paused (b : bool) (self : AudioLoop) (r : read_result)
  (t : Q) :
  fst (listen_iteration (with_paused b self) r t) =
  with_paused b (fst (listen_iteration self r t)).
Proof.
  unfold listen_iteration, listen_try. destruct r as [frame|e]; [| done].
  simpl. destruct (is_speaking self); [done |].
  destruct (frame_rms frame) as [e|rms]; [done |].
  unfold vad_update. simpl.
  destruct (rms >? VAD_THRESHOLD)%Z; simpl.
  { by destruct (_is_user_speaking self). }
  destruct (_is_user_speaking self); [| done].
  destruct (_silence_start_time self) as [since|]; [| done].
  by destruct (Qlt_bool SILENCE_DURATION (t - since)).
Qed.

Lemma perform_paused (post : http_client) (a : atomic) (b : bool)
  (self : AudioLoop) :
  exists b', perform post a (with_paused b self) =
             with_paused b' (perform post a self).
Proof.
  destruct a as [| b0 | r t | | response | |]; simpl;
    try (by exists b).
  - by exists b0.
  - exists b. apply listen_iteration_paused.
  - exists b. by rewrite process_response_paused.
Qed.

Lemma interfere_paused (post : http_client) (others : list atomic) (b : bool)
  (self : AudioLoop) :
  exists b', interfere post others (with_paused b self) =
             with_paused b' (interfere post others self).
Proof.
  unfold interfere. revert b self.
  induction others as [|a others IH]; intros b self; simpl; [by exists b |].
  destruct (perform_paused post a b self) as [b1 ->]. apply IH.
Qed.

Lemma play_loop_paused (post : http_client) (rounds : list playback_round)
  (b : bool) (self : AudioLoop) :
  effects (play_loop post rounds (with_paused b self)) =
    effects (play_loop post rounds self) /\
  state (play_loop post rounds (with_paused b self)) =
    state (play_loop post rounds self).
Proof.
  revert b self. induction rounds as [|r rounds IH]; intros b self; simpl.
  { by destruct (stop_event self). }
  destruct (stop_event self); [done |].
  destruct (interfere_paused post (while_waiting r) b self) as [b1 ->].
  simpl. destruct (audio_in_queue (interfere post (while_waiting r) self))
    as [|chunk q]; [apply IH |].
  change (with_audio_in_queue q
            (with_paused b1 (interfere post (while_waiting r) self)))
    with (with_paused b1
            (with_audio_in_queue q (interfere post (while_waiting r) self))).
  destruct (interfere_paused post (while_writing r) b1
              (with_audio_in_queue q (interfere post (while_waiting r) self)))
    as [b2 ->].
  simpl.
  destruct (IH b2 (interfere post (while_writing r)
                     (with_audio_in_queue q
                        (interfere post (while_waiting r) self))))
    as [He Hs].
  destruct (write_raised r); simpl; by rewrite He, Hs.
Qed.

Lemma send_realtime_paused (post : http_client) (rounds : list send_round)
  (b : bool) (self : AudioLoop) :
  effects (send_realtime post rounds (with_paused b self)) =
    effects (send_realtime post rounds self) /\
  state (send_realtime post rounds (with_paused b self)) =
    state (send_realtime post rounds self).
Proof.
  revert b self. induction rounds as [|r rounds IH]; intros b self; simpl;
    [done |].
  destruct (interfere_paused post (while_getting r) b self) as [b1 ->].
  simpl. destruct (out_queue (interfere post (while_getting r) self))
    as [|msg q]; [apply IH |].
  change (with_out_queue q
            (with_paused b1 (interfere post (while_getting r) self)))
    with (with_paused b1
            (with_out_queue q (interfere post (while_getting r) self))).
  destruct (interfere_paused post (while_sending r) b1
              (with_out_queue q (interfere post (while_getting r) self)))
    as [b2 ->].
  destruct (send_raised r); [done |]. simpl.
  destruct (IH b2 (interfere post (while_sending r)
                     (with_out_queue q
                        (interfere post (while_getting r) self))))
    as [He Hs].
  by rewrite He, Hs.
Qed.

Lemma process_turn_paused (post : http_client) (rs : list arrival) (b : bool)
  (self : AudioLoop) :
  exists b',
    process_turn post rs (with_paused b self) =
    (with_paused b' (fst (fst (process_turn post rs self))),
     snd (fst (process_turn post rs self)),
     snd (process_turn post rs self)).
Proof.
  revert b self. induction rs as [|[[others response] env] rs IH];
    intros b self; simpl; [by exists b |].
  destruct (interfere_paused post others b self) as [b1 ->].
  rewrite process_response_paused.
  destruct (process_response post (interfere post others self) response env)
    as [[s1 first] [e|]]; simpl; [by exists b1 |].
  destruct (IH b1 s1) as [b2 ->].
  exists b2. by destruct (process_turn post rs s1) as [[s2 more] raised].
Qed.

Lemma receive_audio_paused (post : http_client) (turns : list turn)
  (b : bool) (self : AudioLoop) :
  effects (receive_audio post turns (with_paused b self)) =
    effects (receive_audio post turns self) /\
  state (receive_audio post turns (with_paused b self)) =
    state (receive_audio post turns self).
Proof.
  revert b self. induction turns as [|t turns IH]; intros b self; simpl.
  { by destruct (stop_event self). }
  destruct (stop_event self); [done |].
  destruct (process_turn_paused post (responses t) b self) as [b1 ->].
  destruct (process_turn post (responses t) self) as [[s1 emitted1] [e|]];
    simpl; [done |].
  destruct (interfere_paused post (while_ending t) b1 s1) as [b2 ->].
  destruct (ending t) as [|e]; simpl.
  - change (turn_boundary (with_paused b2 (interfere post (while_ending t) s1)))
      with (with_paused b2
              (turn_boundary (interfere post (while_ending t) s1))).
    destruct (IH b2 (turn_boundary (interfere post (while_ending t) s1)))
      as [He Hs].
    by rewrite He, Hs.
  - done.
Qed.

(** X14. Pausing acts on the capture pipeline only: the send, receive and
    playback loops do and report exactly the same, round for round,
    whether the engine is paused or not, whatever the other tasks and the
    controller do meanwhile. *)
Theorem pause_only_affects_capture (post : http_client) (b : bool)
  (self : AudioLoop) (sends : list send_round) (turns : list turn)
  (plays : list playback_round) :
  effects (send_realtime post sends (set_paused b self)) =
    effects (send_realtime post sends self) /\
  state (send_realtime post sends (set_paused b self)) =
    state (send_realtime post sends self) /\
  effects (receive_audio post turns (set_paused b self)) =
    effects (receive_audio post turns self) /\
  state (receive_audio post turns (set_paused b self)) =
    state (receive_audio post turns self) /\
  effects (play_loop post plays (set_paused b self)) =
    effects (play_loop post plays self) /\
  state (play_loop post plays (set_paused b self)) =
    state (play_loop post plays self).
Proof.
  unfold set_paused.
  destruct (send_realtime_paused post sends b self).
  destruct (receive_audio_paused post turns b self).
  destruct (play_loop_paused post plays b self).
  repeat split; done.
Qed.

(** * The control service: resolving, switching, colours *)

Lemma dict_get_in (d : Kasa.dict) (key : string) (dev : Kasa.Device) :
  Kasa.dict_get d key = Some dev -> In (key, dev) d.
Proof.
  induction d as [|[k v] d IH]; simpl; [done |].
  destruct (String.eqb_spec k key) as [-> | _].
  - intros [= ->]. by left.
  - intros H. right. by apply IH.
Qed.

Lemma dict_get_none (d : Kasa.dict) (key : string) :
  Kasa.dict_get d key = None <-> forall dev, ~ In (key, dev) d.
Proof.
  induction d as [|[k v] d IH]; simpl.
  { split; [intros _ dev [] | done]. }
  destruct (String.eqb_spec k key) as [-> | Hne].
  - split; [done |]. intros H. exfalso. apply (H v). by left.
  - rewrite IH. split.
    + intros H dev [[= -> ->] | Hin]; [done | by apply (H dev)].
    + intros H dev Hin. apply (H dev). by right.
Qed.

Lemma get_device_by_alias_some (tx : Kasa.Text) (d : Kasa.dict)
  (name0 ip : string) (dev : Kasa.Device) :
  Kasa.get_device_by_alias tx d name0 = Some (ip, dev) ->
  exists before after,
    d = before ++ (ip, dev) :: after /\
    Kasa.lower tx (Kasa.alias dev) = Kasa.lower tx name0 /\
    Forall (fun p => Kasa.lower tx (Kasa.alias (snd p)) <> Kasa.lower tx name0)
      before.
Proof.
  induction d as [|[k v] d IH]; simpl; [done |].
  destruct (String.eqb_spec (Kasa.lower tx (Kasa.alias v))
              (Kasa.lower tx name0)) as [Heq | Hne].
  - intros [= -> ->]. exists [], d. by repeat split.
  - intros H. destruct (IH H) as (before & after & -> & Hm & Hall).
    exists ((k, v) :: before), after. repeat split; [done |].
    by constructor.
Qed.

Lemma get_device_by_alias_none (tx : Kasa.Text) (d : Kasa.dict)
  (name0 : string) :
  Kasa.get_device_by_alias tx d name0 = None <->
  Forall (fun p => Kasa.lower tx (Kasa.alias (snd p)) <> Kasa.lower tx name0) d.
Proof.
  induction d as [|[k v] d IH]; simpl.
  { split; [constructor | done]. }
  destruct (String.eqb_spec (Kasa.lower tx (Kasa.alias v))
              (Kasa.lower tx name0)) as [Heq | Hne].
  - split; [done |]. intros H. inversion H; subst. simpl in *. done.
  - rewrite IH. split.
    + intros H. by constructor.
    + intros H. by inversion H.
Qed.

Lemma resolve_device_member (tx : Kasa.Text) (devices : Kasa.dict)
  (target ip : string) (dev : Kasa.Device) :
  Kasa._resolve_device tx devices target = Some (ip, dev) ->
  In (ip, dev) devices.
Proof.
  unfold Kasa._resolve_device.
  destruct (Kasa.dict_get devices target) as [found|] eqn:Hget.
  - intros [= <- <-]. by apply dict_get_in.
  - intros H.
    destruct (get_device_by_alias_some tx devices target ip dev H)
      as (before & after & Heq & _).
    rewrite Heq. apply in_or_app. right. by left.
Qed.

(** X15. A target is resolved first as a key (IP) of the device dict and
    only then as an alias: a key wins over any alias, an alias is
    compared up to case and the first device in insertion order that
    carries it is taken, and the answer is always a device of the dict.
    Nothing is resolved exactly when the target is no key and no alias. *)
Theorem resolve_device_key_then_alias (tx : Kasa.Text) (devices : Kasa.dict)
  (target : string) :
  (forall dev,
     Kasa.dict_get devices target = Some dev ->
     Kasa._resolve_device tx devices target = Some (target, dev)) /\
  (forall ip dev,
     Kasa._resolve_device tx devices target = Some (ip, dev) ->
     In (ip, dev) devices /\
     (Kasa.dict_get devices target = Some dev /\ ip = target \/
      Kasa.dict_get devices target = None /\
      exists before after,
        devices = before ++ (ip, dev) :: after /\
        Kasa.lower tx (Kasa.alias dev) = Kasa.lower tx target /\
        Forall (fun p => Kasa.lower tx (Kasa.alias (snd p))
                         <> Kasa.lower tx target) before)) /\
  (Kasa._resolve_device tx devices target = None <->
   Kasa.dict_get devices target = None /\
   Forall (fun p => Kasa.lower tx (Kasa.alias (snd p)) <> Kasa.lower tx target)
     devices).
Proof.
  unfold Kasa._resolve_device. split; [| split].
  - by intros dev ->.
  - intros ip dev.
    destruct (Kasa.dict_get devices target) as [found|] eqn:Hget.
    + intros [= <- <-]. split; [by apply dict_get_in | by left].
    + intros H.
      destruct (get_device_by_alias_some tx devices target ip dev H)
        as (before & after & Heq & Hm & Hall).
      split.
      * rewrite Heq. apply in_or_app. right. by left.
      * right. split; [done |]. by exists before, after.
  - destruct (Kasa.dict_get devices target) as [found|].
    + split; [done | by intros [? _]].
    + rewrite get_device_by_alias_none. split; [by split | by intros [_ ?]].
Qed.

Lemma resolve_device_key_then_alias_witness :
  Kasa._resolve_device Kasa.plain_text Kasa.home "192.168.1.10" =
    Some ("192.168.1.10", Kasa.bulb "Lampa") /\
  Kasa._resolve_device Kasa.plain_text Kasa.home "LAMPA" =
    Some ("192.168.1.10", Kasa.bulb "Lampa").
Proof.
  destruct (resolve_device_key_then_alias Kasa.plain_text Kasa.home
              "192.168.1.10") as (Hkey & _).
  split; [apply Hkey; reflexivity | reflexivity].
Defined.

Lemma dict_set_get (d : Kasa.dict) (key : string) (dev : Kasa.Device) :
  Kasa.dict_get (Kasa.dict_set d key dev) key = Some dev.
Proof.
  induction d as [|[k v] d IH]; simpl.
  { by rewrite String.eqb_refl. }
  destruct (String.eqb k key) eqn:E; simpl; by rewrite E.
Qed.

Lemma dict_set_get_other (d : Kasa.dict) (key other : string)
  (dev : Kasa.Device) :
  other <> key ->
  Kasa.dict_get (Kasa.dict_set d key dev) other = Kasa.dict_get d other.
Proof.
  intros Hne. induction d as [|[k v] d IH]; simpl.
  { destruct (String.eqb_spec key other); [congruence | done]. }
  destruct (String.eqb_spec k key) as [-> | Hk]; simpl.
  - destruct (String.eqb_spec key other); [congruence | done].
  - destruct (String.eqb k other); [done | exact IH].
Qed.

Lemma dict_set_keeps_keys (d : Kasa.dict) (key ip : string)
  (dev : Kasa.Device) :
  Kasa.is_key ip d -> Kasa.is_key ip (Kasa.dict_set d key dev).
Proof.
  unfold Kasa.is_key. intros H.
  destruct (String.eqb_spec ip key) as [-> | Hne].
  - by rewrite dict_set_get.
  - by rewrite dict_set_get_other.
Qed.

Lemma dict_set_is_key (d : Kasa.dict) (key : string) (dev : Kasa.Device) :
  Kasa.is_key key (Kasa.dict_set d key dev).
Proof. unfold Kasa.is_key. by rewrite dict_set_get. Qed.

Lemma resolve_is_key (tx : Kasa.Text) (d : Kasa.dict) (target ip : string)
  (dev : Kasa.Device) :
  Kasa._resolve_device tx d target = Some (ip, dev) -> Kasa.is_key ip d.
Proof.
  intros H.
  pose proof (resolve_device_member tx d target ip dev H) as Hmem.
  unfold Kasa.is_key.
  destruct (Kasa.dict_get d ip) eqn:E; [done |].
  apply dict_get_none with (dev := dev) in E. done.
Qed.

Lemma switch_resolved (w : Kasa.World) (tx : Kasa.Text) (c : Kasa.command)
  (word : string) (d : Kasa.dict) (target ip : string) (dev : Kasa.Device) :
  Kasa._resolve_device tx d target = Some (ip, dev) ->
  ~ In (Kasa.Probed target) (Kasa.events (Kasa.switch w tx c word d target)).
Proof.
  intros H. unfold Kasa.switch, Kasa.events. rewrite H.
  destruct (Kasa.run_command w ip dev c); simpl;
    intros [Hin | Hin]; try discriminate Hin; try done.
  destruct Hin as [Hin | []]. discriminate Hin.
Qed.

(** X16. Switching a target that is neither a key nor an alias: unless
    the target has exactly three dots nothing at all happens (no probe,
    no command, the answer is false); with three dots the address is
    probed, and a device found there is stored under that address before
    it is commanded, so it stays known even when the command fails, and
    a later switch of the same target no longer probes the network. *)
Theorem probed_device_is_cached (w : Kasa.World) (tx : Kasa.Text)
  (devices : Kasa.dict) (target : string) (c : Kasa.command) (word : string) :
  Kasa._resolve_device tx devices target = None ->
  (Kasa.count_dots target <> 3%nat ->
   Kasa.switch w tx c word devices target = (false, devices, [])) /\
  (forall dev,
     Kasa.count_dots target = 3%nat ->
     Kasa.discover_single w target = inr (Some dev) ->
     let r := Kasa.switch w tx c word devices target in
     Kasa.events r = [Kasa.Probed target; Kasa.Issued target c] /\
     (Kasa.returned r = true <->
      exists dev', Kasa.run_command w target dev c = inr dev') /\
     Kasa.is_key target (Kasa.dict_after r) /\
     forall c' word',
       ~ In (Kasa.Probed target)
           (Kasa.events
              (Kasa.switch w tx c' word' (Kasa.dict_after r) target))).
Proof.
  intros Hnone. split.
  - intros Hdots. unfold Kasa.switch. rewrite Hnone.
    apply Nat.eqb_neq in Hdots. by rewrite Hdots.
  - intros dev Hdots Hfound r.
    assert (Hr : r =
                 match Kasa.run_command w target dev c with
                 | inr dev' =>
                     (true,
                      Kasa.dict_set (Kasa.dict_set devices target dev)
                        target dev',
                      [Kasa.Probed target; Kasa.Issued target c])
                 | inl _ =>
                     (false, Kasa.dict_set devices target dev,
                      [Kasa.Probed target; Kasa.Issued target c])
                 end).
    { unfold r, Kasa.switch. by rewrite Hnone, Hdots, Hfound. }
    assert (Hkey : Kasa.is_key target (Kasa.dict_after r)).
    { rewrite Hr. destruct (Kasa.run_command w target dev c);
        apply dict_set_is_key. }
    split; [| split; [| split; [exact Hkey |]]].
    + rewrite Hr. by destruct (Kasa.run_command w target dev c).
    + rewrite Hr. destruct (Kasa.run_command w target dev c) as [e|dev'];
        simpl; split; try done.
      * by intros [dev' [=]].
      * intros _. by exists dev'.
    + intros c' word'. unfold Kasa.is_key in Hkey.
      destruct (Kasa.dict_get (Kasa.dict_after r) target) as [cached|] eqn:E;
        [| done].
      apply (switch_resolved w tx c' word' _ target target cached).
      unfold Kasa._resolve_device. by rewrite E.
Qed.

Lemma probed_device_is_cached_witness :
  Kasa.turn_on Kasa.flaky Kasa.plain_text [] "192.168.1.50" =
    (false, [("192.168.1.50", Kasa.bulb "Hall")],
     [Kasa.Probed "192.168.1.50"; Kasa.Issued "192.168.1.50" Kasa.TurnOn]) /\
  Kasa.events
    (Kasa.turn_off Kasa.flaky Kasa.plain_text
       (Kasa.dict_after
          (Kasa.turn_on Kasa.flaky Kasa.plain_text [] "192.168.1.50"))
       "192.168.1.50") =
    [Kasa.Issued "192.168.1.50" Kasa.TurnOff;
     Kasa.Printed "Error turning off 192.168.1.50: timed out"] /\
  Kasa.turn_on Kasa.flaky Kasa.plain_text [] "vardagsrum" = (false, [], []).
Proof.
  destruct (probed_device_is_cached Kasa.flaky Kasa.plain_text []
              "192.168.1.50" Kasa.TurnOn "on" eq_refl) as (_ & Hprobe).
  destruct (Hprobe (Kasa.bulb "Hall") eq_refl eq_refl) as (Hev & _).
  destruct (probed_device_is_cached Kasa.flaky Kasa.plain_text []
              "vardagsrum" Kasa.TurnOn "on" eq_refl) as (Hnothing & _).
  split; [reflexivity |]. split; [reflexivity |].
  apply Hnothing. discriminate.
Defined.

(** ** Colours and the commands that are issued *)

Lemma colors_range (key : string) (h s v : Z) :
  Kasa.colors_get Kasa.colors key = Some (h, s, v) ->
  (0 <= h < 360 /\ 0 <= s <= 100 /\ v = 100)%Z.
Proof.
  unfold Kasa.colors. cbn [Kasa.colors_get].
  repeat match goal with
         | |- context [String.eqb ?a key] => destruct (String.eqb a key)
         end;
    intros H; inversion H; subst; lia.
Qed.

Ltac kasa_result_cases :=
  repeat match goal with
         | |- context [Kasa._resolve_device ?tx ?d ?t] =>
             destruct (Kasa._resolve_device tx d t) as [[?ip ?dev]|] eqn:?
         | |- context [Kasa.run_command ?w ?i ?d ?c] =>
             destruct (Kasa.run_command w i d c) eqn:?
         | |- context [Kasa.discover_single ?w ?t] =>
             destruct (Kasa.discover_single w t) as [?|[?|]] eqn:?
         | |- context [if ?b then _ else _] => destruct b eqn:?
         end.

Lemma switch_keeps_keys (w : Kasa.World) (tx : Kasa.Text) (c : Kasa.command)
  (word : string) (d : Kasa.dict) (target ip : string) :
  Kasa.is_key ip d ->
  Kasa.is_key ip (Kasa.dict_after (Kasa.switch w tx c word d target)).
Proof.
  intros H. unfold Kasa.switch, Kasa.dict_after.
  kasa_result_cases; simpl; auto using dict_set_keeps_keys.
Qed.

Lemma switch_issued_within (w : Kasa.World) (tx : Kasa.Text) (c : Kasa.command)
  (word : string) (d : Kasa.dict) (target : string) :
  Kasa.issued_within (Kasa.dict_after (Kasa.switch w tx c word d target))
    (Kasa.events (Kasa.switch w tx c word d target)).
Proof.
  unfold Kasa.switch, Kasa.dict_after, Kasa.events, Kasa.issued_within.
  kasa_result_cases; simpl; repeat constructor;
    eauto using dict_set_keeps_keys, dict_set_is_key, resolve_is_key.
Qed.

Lemma set_brightness_keeps_keys (w : Kasa.World) (tx : Kasa.Text)
  (d : Kasa.dict) (target ip : string) (l : Z) :
  Kasa.is_key ip d ->
  Kasa.is_key ip (Kasa.dict_after (Kasa.set_brightness w tx d target l)).
Proof.
  intros H. unfold Kasa.set_brightness, Kasa.dict_after.
  kasa_result_cases; simpl; auto using dict_set_keeps_keys.
Qed.

Lemma set_brightness_issued_within (w : Kasa.World) (tx : Kasa.Text)
  (d : Kasa.dict) (target : string) (l : Z) :
  Kasa.issued_within (Kasa.dict_after (Kasa.set_brightness w tx d target l))
    (Kasa.events (Kasa.set_brightness w tx d target l)).
Proof.
  unfold Kasa.set_brightness, Kasa.dict_after, Kasa.events, Kasa.issued_within.
  kasa_result_cases; simpl; repeat constructor;
    eauto using dict_set_keeps_keys, dict_set_is_key, resolve_is_key.
Qed.

Lemma set_color_keeps_keys (w : Kasa.World) (tx : Kasa.Text)
  (d : Kasa.dict) (target ip : string) (input : Kasa.color_input) :
  Kasa.is_key ip d ->
  Kasa.is_key ip (Kasa.dict_after (Kasa.set_color w tx d target input)).
Proof.
  intros H. unfold Kasa.set_color, Kasa.dict_after.
  destruct (Kasa._resolve_device tx d target) as [[ip0 dev]|]; [| done].
  destruct (Kasa.is_color dev); [| done].
  match goal with
  | |- context [match ?chosen with Some _ => _ | None => _ end] =>
      destruct chosen as [[[h s] v]|]; [| done]
  end.
  destruct (Kasa.run_command w ip0 dev (Kasa.SetHsv h s v)); simpl;
    auto using dict_set_keeps_keys.
Qed.

Lemma set_color_issued (w : Kasa.World) (tx : Kasa.Text)
  (d : Kasa.dict) (target name0 : string) :
  Kasa.issued_within
    (Kasa.dict_after (Kasa.set_color w tx d target (Kasa.ColorName name0)))
    (Kasa.events (Kasa.set_color w tx d target (Kasa.ColorName name0))) /\
  Kasa.colours_at 100
    (Kasa.events (Kasa.set_color w tx d target (Kasa.ColorName name0))).
Proof.
  unfold Kasa.set_color, Kasa.dict_after, Kasa.events, Kasa.issued_within,
    Kasa.colours_at.
  destruct (Kasa._resolve_device tx d target) as [[ip0 dev]|] eqn:Hres;
    [| by split].
  destruct (Kasa.is_color dev); [| by split].
  unfold Kasa.name_to_hsv.
  destruct (Kasa.colors_get Kasa.colors
              (Kasa.strip tx (Kasa.lower tx name0))) as [[[h s] v]|] eqn:Hc;
    [| by split].
  apply colors_range in Hc. destruct Hc as (_ & _ & ->).
  destruct (Kasa.run_command w ip0 dev (Kasa.SetHsv h s 100)); simpl;
    split; repeat constructor;
    eauto using dict_set_keeps_keys, dict_set_is_key, resolve_is_key.
Qed.

Lemma issued_within_keys (d d' : Kasa.dict) (done : list Kasa.event) :
  (forall ip, Kasa.is_key ip d -> Kasa.is_key ip d') ->
  Kasa.issued_within d done -> Kasa.issued_within d' done.
Proof.
  intros Hsub H. unfold Kasa.issued_within in *.
  induction H as [|e done He H IH]; constructor; [| done].
  destruct e; auto.
Qed.

Lemma switch_no_colour (w : Kasa.World) (tx : Kasa.Text) (on : bool)
  (d : Kasa.dict) (target : string) (v : Z) :
  Kasa.colours_at v
    (Kasa.events
       (Kasa.switch w tx (if on then Kasa.TurnOn else Kasa.TurnOff)
          (if on then "on" else "off") d target)).
Proof.
  unfold Kasa.switch, Kasa.events, Kasa.colours_at.
  destruct on; kasa_result_cases; simpl; repeat constructor.
Qed.

Lemma set_brightness_no_colour (w : Kasa.World) (tx : Kasa.Text)
  (d : Kasa.dict) (target : string) (l v : Z) :
  Kasa.colours_at v (Kasa.events (Kasa.set_brightness w tx d target l)).
Proof.
  unfold Kasa.set_brightness, Kasa.events, Kasa.colours_at.
  kasa_result_cases; simpl; repeat constructor.
Qed.

(** X17. Whatever the request, the [/control] endpoint only commands
    devices that are in the device dict when it answers, and every colour
    command it issues asks for the value 100: a colour set by name is set
    at full value, whatever brightness the same request asked for. The
    colour table only holds hues below 360 and saturations up to 100. *)
Theorem control_commands_known_devices (w : Kasa.World) (tx : Kasa.Text)
  (devices : Kasa.dict) (request : Kasa.ControlLightRequest) :
  Kasa.issued_within
    (snd (fst (Kasa.control_light w tx devices request)))
    (snd (Kasa.control_light w tx devices request)) /\
  Kasa.colours_at 100 (snd (Kasa.control_light w tx devices request)) /\
  (forall name0 h s v,
     Kasa.name_to_hsv tx name0 = Some (h, s, v) ->
     (0 <= h < 360 /\ 0 <= s <= 100 /\ v = 100)%Z).
Proof.
  split; [| split]; [| | intros name0 h s v; apply colors_range].
  - unfold Kasa.control_light, Kasa.turn_on, Kasa.turn_off.
    destruct (String.eqb (Kasa.action request) "turn_on").
    { pose proof (switch_issued_within w tx Kasa.TurnOn "on" devices
                    (Kasa.target request)) as H.
      unfold Kasa.dict_after, Kasa.events in H.
      by destruct (Kasa.switch w tx Kasa.TurnOn "on" devices
                     (Kasa.target request)) as [[ok d] done]. }
    destruct (String.eqb (Kasa.action request) "turn_off").
    { pose proof (switch_issued_within w tx Kasa.TurnOff "off" devices
                    (Kasa.target request)) as H.
      unfold Kasa.dict_after, Kasa.events in H.
      by destruct (Kasa.switch w tx Kasa.TurnOff "off" devices
                     (Kasa.target request)) as [[ok d] done]. }
    destruct (String.eqb (Kasa.action request) "set"); [| constructor].
    assert (H1 : exists ok1 d1 done1,
               match Kasa.level request with
               | Some l => Kasa.set_brightness w tx devices
                             (Kasa.target request) l
               | None => (false, devices, [])
               end = (ok1, d1, done1) /\ Kasa.issued_within d1 done1).
    { destruct (Kasa.level request) as [l|].
      - pose proof (set_brightness_issued_within w tx devices
                      (Kasa.target request) l) as H.
        unfold Kasa.dict_after, Kasa.events in H.
        destruct (Kasa.set_brightness w tx devices (Kasa.target request) l)
          as [[ok d] done]. by exists ok, d, done.
      - exists false, devices, []. split; [done | constructor]. }
    destruct H1 as (ok1 & d1 & done1 & -> & Hin1).
    destruct (Kasa.color request) as [c|]; simpl.
    + pose proof (set_color_issued w tx d1 (Kasa.target request) c) as [H2 _].
      pose proof (fun ip => set_color_keeps_keys w tx d1 (Kasa.target request)
                              ip (Kasa.ColorName c)) as Hkeys.
      unfold Kasa.dict_after, Kasa.events in H2, Hkeys.
      destruct (Kasa.set_color w tx d1 (Kasa.target request)
                  (Kasa.ColorName c)) as [[ok2 d2] done2]. simpl in *.
      apply Forall_app. split; [| exact H2].
      by apply (issued_within_keys d1 d2).
    + rewrite app_nil_r. exact Hin1.
  - unfold Kasa.control_light, Kasa.turn_on, Kasa.turn_off.
    destruct (String.eqb (Kasa.action request) "turn_on").
    { pose proof (switch_no_colour w tx true devices (Kasa.target request) 100)
        as H. unfold Kasa.events in H. simpl in H.
      by destruct (Kasa.switch w tx Kasa.TurnOn "on" devices
                     (Kasa.target request)) as [[ok d] done]. }
    destruct (String.eqb (Kasa.action request) "turn_off").
    { pose proof (switch_no_colour w tx false devices (Kasa.target request) 100)
        as H. unfold Kasa.events in H. simpl in H.
      by destruct (Kasa.switch w tx Kasa.TurnOff "off" devices
                     (Kasa.target request)) as [[ok d] done]. }
    destruct (String.eqb (Kasa.action request) "set"); [| constructor].
    assert (H1 : exists ok1 d1 done1,
               match Kasa.level request with
               | Some l => Kasa.set_brightness w tx devices
                             (Kasa.target request) l
               | None => (false, devices, [])
               end = (ok1, d1, done1) /\ Kasa.colours_at 100 done1).
    { destruct (Kasa.level request) as [l|].
      - pose proof (set_brightness_no_colour w tx devices
                      (Kasa.target request) l 100) as H.
        unfold Kasa.events in H.
        destruct (Kasa.set_brightness w tx devices (Kasa.target request) l)
          as [[ok d] done]. by exists ok, d, done.
      - exists false, devices, []. split; [done | constructor]. }
    destruct H1 as (ok1 & d1 & done1 & -> & Hc1).
    destruct (Kasa.color request) as [c|]; simpl.
    + pose proof (set_color_issued w tx d1 (Kasa.target request) c) as [_ H2].
      unfold Kasa.events in H2.
      destruct (Kasa.set_color w tx d1 (Kasa.target request)
                  (Kasa.ColorName c)) as [[ok2 d2] done2]. simpl in *.
      apply Forall_app. by split.
    + rewrite app_nil_r. exact Hc1.
Qed.

(** The status of the endpoint's answer depends on the action only. *)
Lemma control_light_status (w : Kasa.World) (tx : Kasa.Text)
  (devices : Kasa.dict) (request : Kasa.ControlLightRequest) :
  Kasa.status_of (fst (fst (Kasa.control_light w tx devices request))) =
  if Kasa.known_action (Kasa.action request) then 200%Z else 500%Z.
Proof.
  unfold Kasa.control_light, Kasa.known_action.
  destruct (String.eqb (Kasa.action request) "turn_on"); simpl.
  { by destruct (Kasa.turn_on w tx devices (Kasa.target request))
      as [[ok d] done]. }
  destruct (String.eqb (Kasa.action request) "turn_off"); simpl.
  { by destruct (Kasa.turn_off w tx devices (Kasa.target request))
      as [[ok d] done]. }
  destruct (String.eqb (Kasa.action request) "set"); simpl; [| done].
  destruct (match Kasa.level request with
            | Some l => Kasa.set_brightness w tx devices
                          (Kasa.target request) l
            | None => (false, devices, [])
            end) as [[ok1 d1] done1].
  destruct (Kasa.color request) as [c|]; [| done].
  by destruct (Kasa.set_color w tx d1 (Kasa.target request)
                 (Kasa.ColorName c)) as [[ok2 d2] done2].
Qed.

(** X18. The [/control] endpoint answers every request whose action is
    turn_on, turn_off or set with a 200 reply, success or not; any other
    action gives status 500 (the 400 raised for it is caught by the
    endpoint's own handler), with no device touched. A set with neither
    brightness nor colour does nothing and answers success false; a set
    with both tries the brightness first, then the colour on the dict the
    first left, and succeeds when either did. *)
Theorem control_light_answers (w : Kasa.World) (tx : Kasa.Text)
  (devices : Kasa.dict) (request : Kasa.ControlLightRequest) :
  (Kasa.known_action (Kasa.action request) = true ->
   Kasa.status_of (fst (fst (Kasa.control_light w tx devices request))) = 200%Z)
  /\
  (Kasa.known_action (Kasa.action request) = false ->
   Kasa.control_light w tx devices request =
   (Kasa.HTTPException 500
      (Kasa.str_exception tx 400
         ("Unknown action: " +:+ Kasa.action request)),
    devices, [])) /\
  Kasa.status_of (fst (fst (Kasa.control_light w tx devices request))) <> 400%Z
  /\
  (Kasa.action request = "set" ->
   Kasa.level request = None -> Kasa.color request = None ->
   Kasa.control_light w tx devices request =
   (Kasa.Reply false (Kasa.target request) "set", devices, [])) /\
  (forall l c,
     Kasa.action request = "set" ->
     Kasa.level request = Some l -> Kasa.color request = Some c ->
     let b := Kasa.set_brightness w tx devices (Kasa.target request) l in
     let k := Kasa.set_color w tx (Kasa.dict_after b) (Kasa.target request)
                (Kasa.ColorName c) in
     Kasa.control_light w tx devices request =
     (Kasa.Reply (Kasa.returned k || Kasa.returned b)
        (Kasa.target request) "set",
      Kasa.dict_after k, Kasa.events b ++ Kasa.events k)).
Proof.
  pose proof (control_light_status w tx devices request) as Hstatus.
  split; [by intros Hk; rewrite Hstatus, Hk |].
  split.
  { unfold Kasa.control_light, Kasa.known_action.
    intros Hk. apply orb_false_elim in Hk as [Hk Hset].
    apply orb_false_elim in Hk as [Hon Hoff]. by rewrite Hon, Hoff, Hset. }
  split.
  { rewrite Hstatus. by destruct (Kasa.known_action (Kasa.action request)). }
  split.
  - intros Ha Hl Hc. unfold Kasa.control_light. by rewrite Ha, Hl, Hc.
  - intros l c Ha Hl Hc b k. unfold Kasa.control_light.
    rewrite Ha, Hl, Hc. simpl. unfold k, b, Kasa.dict_after, Kasa.returned,
      Kasa.events.
    destruct (Kasa.set_brightness w tx devices (Kasa.target request) l)
      as [[ok1 d1] done1]. simpl.
    by destruct (Kasa.set_color w tx d1 (Kasa.target request)
                   (Kasa.ColorName c)) as [[ok2 d2] done2].
Qed.

Lemma control_light_answers_witness :
  Kasa.control_light Kasa.obedient Kasa.plain_text Kasa.home
    {| Kasa.target := "lampa"; Kasa.action := "toggle";
       Kasa.level := None; Kasa.color := None |} =
  (Kasa.HTTPException 500 "400: Unknown action: toggle", Kasa.home, []) /\
  Kasa.control_light Kasa.obedient Kasa.plain_text Kasa.home
    {| Kasa.target := "lampa"; Kasa.action := "set";
       Kasa.level := None; Kasa.color := None |} =
  (Kasa.Reply false "lampa" "set", Kasa.home, []).
Proof.
  destruct (control_light_answers Kasa.obedient Kasa.plain_text Kasa.home
              {| Kasa.target := "lampa"; Kasa.action := "toggle";
                 Kasa.level := None; Kasa.color := None |})
    as (_ & Hunknown & _).
  destruct (control_light_answers Kasa.obedient Kasa.plain_text Kasa.home
              {| Kasa.target := "lampa"; Kasa.action := "set";
                 Kasa.level := None; Kasa.color := None |})
    as (_ & _ & _ & Hempty & _).
  split; [rewrite Hunknown; reflexivity | apply Hempty; reflexivity].
Defined.

(** ** The tool dispatcher in front of the endpoint *)

(** X19. When the service behind the device-control tool is the
    [/control] endpoint and the call's arguments have the types the
    endpoint declares: for the actions turn_on, turn_off and set the
    dispatcher answers "Klart! Enheten har <action>." whether or not any
    device was found or changed (the endpoint's success flag is not
    read); for any other action it answers "Kunde inte styra enheten: "
    followed by the body of the endpoint's 500 answer. *)
Theorem dispatcher_in_front_of_endpoint (post : http_client)
  (w : Kasa.World) (tx : Kasa.Text) (devices : Kasa.dict)
  (self : AudioLoop) (fc : FunctionCall) (m : gmap string value) (a : string)
  (request : Kasa.ControlLightRequest) (body : string) :
  name fc = "control_smart_home" ->
  args fc = Some m ->
  m !! "action" = Some (VStr a) ->
  typed_request (control_request m) = Some request ->
  post (control_url self) (control_request m) 10%Q =
    HttpResponse
      (Kasa.status_of (fst (fst (Kasa.control_light w tx devices request))))
      body ->
  Kasa.action request = a /\
  (Kasa.known_action a = true ->
   tool_result post self fc = "Klart! Enheten har " +:+ a +:+ ".") /\
  (Kasa.known_action a = false ->
   tool_result post self fc = "Kunde inte styra enheten: " +:+ body).
Proof.
  intros Hname Hargs Ha Htyped Hpost.
  assert (Hact : Kasa.action request = a).
  { unfold typed_request, control_request in Htyped. simpl in Htyped.
    unfold arg_get at 2 in Htyped. rewrite Ha in Htyped. simpl in Htyped.
    destruct (arg_get m "device" (VStr "")); try done.
    destruct (arg_get m "brightness" VNone);
      destruct (arg_get m "color" VNone); try done;
      by injection Htyped as <-. }
  rewrite control_light_status, Hact in Hpost.
  split; [exact Hact |]. split.
  - intros Hk. rewrite Hk in Hpost.
    rewrite (tool_result_done post self fc m body Hname Hargs Hpost).
    unfold arg_get. by rewrite Ha.
  - intros Hk. rewrite Hk in Hpost.
    by apply (tool_result_refused post self fc m 500 body).
Qed.

Lemma dispatcher_in_front_of_endpoint_witness :
  fst (fst (Kasa.control_light Kasa.obedient Kasa.plain_text [] 
              {| Kasa.target := "lampa"; Kasa.action := "turn_on";
                 Kasa.level := None; Kasa.color := None |})) =
    Kasa.Reply false "lampa" "turn_on" /\
  tool_result obliging_service alice lamp_on = "Klart! Enheten har turn_on." /\
  tool_result erroring_service alice toggle_call =
    "Kunde inte styra enheten: Internal Server Error".
Proof.
  destruct (dispatcher_in_front_of_endpoint obliging_service Kasa.obedient
              Kasa.plain_text [] alice lamp_on lamp_args "turn_on"
              {| Kasa.target := "lampa"; Kasa.action := "turn_on";
                 Kasa.level := None; Kasa.color := None |} "{}")
    as (_ & Hdone & _); [reflexivity .. |].
  destruct (dispatcher_in_front_of_endpoint erroring_service Kasa.obedient
              Kasa.plain_text [] alice toggle_call toggle_args "toggle"
              {| Kasa.target := "lampa"; Kasa.action := "toggle";
                 Kasa.level := None; Kasa.color := None |}
              "Internal Server Error")
    as (_ & _ & Hfail); [reflexivity .. |].
  split; [reflexivity |].
  split; [apply Hdone; reflexivity | apply Hfail; reflexivity].
Defined.

Lemma control_commands_known_devices_witness :
  snd (Kasa.control_light Kasa.obedient Kasa.plain_text Kasa.home
         colour_request) =
    [Kasa.Issued "192.168.1.10" (Kasa.SetBrightness 30);
     Kasa.Issued "192.168.1.10" (Kasa.SetHsv 240 100 100)] /\
  (0 <= 240 < 360 /\ 0 <= 100 <= 100 /\ 100 = 100)%Z.
Proof.
  destruct (control_commands_known_devices Kasa.obedient Kasa.plain_text
              Kasa.home colour_request) as (_ & _ & Hrange).
  split; [reflexivity |].
  apply (Hrange "Blue" 240%Z 100%Z 100%Z). reflexivity.
Defined.

(** ** Discovery *)

Lemma dict_set_length (d : Kasa.dict) (key : string) (dev : Kasa.Device) :
  (length d <= length (Kasa.dict_set d key dev) <= S (length d))%nat.
Proof.
  induction d as [|[k v] d IH]; simpl; [lia |].
  destruct (String.eqb k key); simpl; lia.
Qed.

Lemma merge_found_ok (d : Kasa.dict)
  (found : list (string * (string + Kasa.Device))) (merged : Kasa.dict) :
  Kasa.merge_found d found = inr merged ->
  (forall ip, Kasa.is_key ip d -> Kasa.is_key ip merged) /\
  (forall ip dev, In (ip, inr dev) found -> Kasa.is_key ip merged) /\
  (length d <= length merged <= length d + length found)%nat.
Proof.
  revert d. induction found as [|[ip [e|dev]] found IH]; intros d; simpl.
  - intros [= <-]. repeat split; [done | by intros ? ? [] | lia | lia].
  - done.
  - intros H. destruct (IH _ H) as (Hkeep & Hnew & Hlen).
    pose proof (dict_set_length d ip dev).
    repeat split; try lia.
    + intros ip0 Hk. apply Hkeep. by apply dict_set_keeps_keys.
    + intros ip0 dev0 [[= <- <-] | Hin].
      * apply Hkeep. apply dict_set_is_key.
      * by apply (Hnew ip0 dev0).
Qed.

Lemma merged_before_failure_keeps (d : Kasa.dict)
  (found : list (string * (string + Kasa.Device))) (ip : string) :
  Kasa.is_key ip d -> Kasa.is_key ip (Kasa.merged_before_failure d found).
Proof.
  revert d. induction found as [|[k [e|dev]] found IH]; intros d H; simpl;
    [done | done |].
  apply IH. by apply dict_set_keeps_keys.
Qed.

Lemma merged_before_failure_app (d : Kasa.dict)
  (before after : list (string * (string + Kasa.Device))) (ip e : string)
  (merged : Kasa.dict) :
  Kasa.merge_found d before = inr merged ->
  Kasa.merge_found d (before ++ (ip, inl e) :: after) = inl e /\
  Kasa.merged_before_failure d (before ++ (ip, inl e) :: after) = merged.
Proof.
  revert d. induction before as [|[k [e0|dev]] before IH]; intros d; simpl.
  - by intros [= <-].
  - done.
  - apply IH.
Qed.

(** X20. Discovery stores every device the broadcast found, keeps the
    devices known before, and lists the whole dict, one entry per device
    in dict order, with the count of that list; a found device replaces
    the one known under the same address. When the broadcast or an
    update raises, the endpoint answers 500 with the error text; the
    devices updated before the failing one stay stored. A listed device
    has a colour only if it is a bulb. *)
Theorem discover_lists_whole_cache (devices : Kasa.dict)
  (found : list (string * (string + Kasa.Device))) :
  (forall merged,
     Kasa.merge_found devices found = inr merged ->
     Kasa.discover_endpoint devices (inr found) =
       (Kasa.Discovered (length merged)
          (map (fun p => Kasa.describe (fst p) (snd p)) merged), merged) /\
     (forall ip, Kasa.is_key ip devices -> Kasa.is_key ip merged) /\
     (forall ip dev, In (ip, inr dev) found -> Kasa.is_key ip merged) /\
     (length devices <= length merged <= length devices + length found)%nat)
  /\
  (forall before ip e after merged,
     found = before ++ (ip, inl e) :: after ->
     Kasa.merge_found devices before = inr merged ->
     Kasa.discover_endpoint devices (inr found) =
       (Kasa.DiscoverFailed 500 e, merged)) /\
  (forall e,
     Kasa.discover_endpoint devices (inl e) =
       (Kasa.DiscoverFailed 500 e, devices)) /\
  (forall ip dev,
     Kasa.has_color (Kasa.describe ip dev) = true ->
     Kasa.is_bulb dev = true /\ Kasa.info_type (Kasa.describe ip dev) = "bulb").
Proof.
  split; [| split; [| split]].
  - intros merged H. split; [| by apply merge_found_ok].
    unfold Kasa.discover_endpoint, Kasa.discover_devices. rewrite H.
    by rewrite length_map.
  - intros before ip e after merged -> H.
    destruct (merged_before_failure_app devices before after ip e merged H)
      as [Hfail Hkept].
    unfold Kasa.discover_endpoint, Kasa.discover_devices.
    by rewrite Hfail, Hkept.
  - done.
  - intros ip dev. unfold Kasa.describe. simpl.
    by destruct (Kasa.is_bulb dev).
Qed.

Lemma discover_lists_whole_cache_witness :
  Kasa.discover_endpoint Kasa.home (inr patchy_broadcast) =
  (Kasa.DiscoverFailed 500 "timed out",
   Kasa.home ++ [("192.168.1.12", Kasa.plug "Kaffe")]) /\
  Kasa.is_key "192.168.1.12"
    (Kasa.home ++ [("192.168.1.12", Kasa.plug "Kaffe")]).
Proof.
  destruct (discover_lists_whole_cache Kasa.home patchy_broadcast)
    as (_ & Hfail & _).
  destruct (discover_lists_whole_cache Kasa.home
              [("192.168.1.12", inr (Kasa.plug "Kaffe"))])
    as (Hok & _).
  destruct (Hok (Kasa.home ++ [("192.168.1.12", Kasa.plug "Kaffe")]) eq_refl)
    as (_ & _ & Hnew & _).
  split.
  - apply (Hfail [("192.168.1.12", inr (Kasa.plug "Kaffe"))]
             "192.168.1.13" "timed out" []); reflexivity.
  - apply (Hnew "192.168.1.12" (Kasa.plug "Kaffe")). by left.
Defined.

(** * The server: starting, stopping, pausing *)

Lemma muted_needs_entries (d : gmap string value) :
  Server.truth (default (VBool false) (d !! "muted")) = true ->
  Server.nonempty d = true.
Proof.
  intros H. unfold Server.nonempty. apply negb_true_iff, Nat.eqb_neq.
  apply (map_size_ne_0_lookup_2 d "muted").
  destruct (d !! "muted") as [v|]; [by exists v | done].
Qed.

Lemma new_engine_paused (url_env : option string)
  (request : option (gmap string value)) :
  paused (Server.engine (Server.new_engine url_env request)) = true <->
  exists d, request = Some d /\
            Server.truth (default (VBool false) (d !! "muted")) = true.
Proof.
  unfold Server.new_engine. destruct request as [d|]; simpl.
  - destruct (Server.truth (default (VBool false) (d !! "muted"))) eqn:Hm.
    + rewrite (muted_needs_entries d Hm). simpl. split; [| done].
      intros _. by exists d.
    + rewrite andb_false_r. simpl. split; [done |].
      intros (d' & [= <-] & Hm'). congruence.
  - split; [done |]. by intros (d & [=] & _).
Qed.

(** X21. [start_audio] is refused exactly when an engine is referenced
    and its task is not done: the state is then left as it is and only
    the asking client is told "Already running". Otherwise a new engine
    object is created beside the existing ones, which are not touched,
    and both references point at it; the new engine has all callbacks
    installed, no stop signal, no session yet, and is paused exactly when
    the request carries a truthy "muted". *)
Theorem start_audio_guard (done : nat -> bool) (url_env : option string)
  (st : Server.State) (sid : string) (request : option (gmap string value)) :
  (forall i t,
     Server.audio_loop st = Some i -> Server.loop_task st = Some t ->
     done t = false ->
     Server.start_audio done url_env st sid request =
     (st,
      [Server.Printed "[SERVER] Starting audio...";
       Server.Printed "[SERVER] Audio already running";
       Server.Emit "status" "Already running" (Some sid)])) /\
  (Server.audio_loop st = None \/ Server.loop_task st = None \/
   (exists t, Server.loop_task st = Some t /\ done t = true) ->
   Server.start_audio done url_env st sid request =
   ({| Server.objects :=
         Server.objects st ++ [Server.new_engine url_env request];
       Server.audio_loop := Some (length (Server.objects st));
       Server.loop_task := Some (length (Server.objects st)) |},
    [Server.Printed "[SERVER] Starting audio...";
     Server.CreateTask (length (Server.objects st));
     Server.Emit "status" "Alice Started" (Some sid)]) /\
   Server.current (fst (Server.start_audio done url_env st sid request)) =
     Some (Server.new_engine url_env request) /\
   forall i e,
     Server.objects st !! i = Some e ->
     Server.objects (fst (Server.start_audio done url_env st sid request)) !! i
     = Some e) /\
  (paused (Server.engine (Server.new_engine url_env request)) = true <->
   exists d, request = Some d /\
             Server.truth (default (VBool false) (d !! "muted")) = true) /\
  stop_event (Server.engine (Server.new_engine url_env request)) = false /\
  Server.session (Server.new_engine url_env request) = false /\
  on_error (Server.engine (Server.new_engine url_env request)) = true /\
  on_transcription (Server.engine (Server.new_engine url_env request)) = true.
Proof.
  split; [| split; [| split; [apply new_engine_paused |]]].
  - intros i t Ha Ht Hd. unfold Server.start_audio. by rewrite Ha, Ht, Hd.
  - intros Hfree.
    assert (Heq : match Server.audio_loop st, Server.loop_task st with
                  | Some _, Some t => negb (done t)
                  | _, _ => false
                  end = false).
    { destruct Hfree as [-> | [-> | (t & -> & Hd)]].
      - done.
      - by destruct (Server.audio_loop st).
      - rewrite Hd. by destruct (Server.audio_loop st). }
    unfold Server.start_audio. rewrite Heq. split; [done |]. split.
    + unfold Server.current. simpl. by apply list_lookup_middle.
    + intros i e He. simpl. rewrite lookup_app_l; [done |].
      by apply lookup_lt_Some in He.
  - unfold Server.new_engine.
    by destruct request as [d|]; simpl;
      repeat match goal with
             | |- context [if ?b then _ else _] => destruct b
             end.
Qed.

Lemma start_audio_guard_witness :
  paused
    (Server.engine (Server.new_engine None (Some Server.muted_request))) = true
  /\
  snd (Server.start_audio Server.never_done None
         (fst (Server.start_audio Server.never_done None Server.initial "a"
                 None)) "b" None) =
  [Server.Printed "[SERVER] Starting audio...";
   Server.Printed "[SERVER] Audio already running";
   Server.Emit "status" "Already running" (Some "b")].
Proof.
  destruct (start_audio_guard Server.never_done None Server.initial "a"
              (Some Server.muted_request)) as (_ & _ & Hpaused & _).
  destruct (start_audio_guard Server.never_done None
              (fst (Server.start_audio Server.never_done None Server.initial
                      "a" None)) "b" None) as (Hrefused & _).
  split.
  - apply Hpaused. exists Server.muted_request. split; reflexivity.
  - rewrite (Hrefused 0%nat 0%nat); reflexivity.
Defined.

(** A command leaves alone an engine object that lies below the one the
    server refers to. *)
Lemma handle_below_reference (done : nat -> bool) (url_env : option string)
  (c : Server.command) (st : Server.State) (i : nat) (e : Server.Engine) :
  Server.objects st !! i = Some e ->
  (forall j, Server.audio_loop st = Some j -> (i < j)%nat) ->
  Server.objects (fst (Server.handle done url_env c st)) !! i = Some e /\
  (forall j,
     Server.audio_loop (fst (Server.handle done url_env c st)) = Some j ->
     (i < j)%nat).
Proof.
  intros He Hbelow.
  assert (Hother : forall (f : Server.Engine -> Server.Engine) j,
             Server.audio_loop st = Some j ->
             alter f j (Server.objects st) !! i = Some e).
  { intros f j Hj. rewrite list_lookup_alter_ne; [done |].
    specialize (Hbelow j Hj). lia. }
  destruct c as [sid request | | |]; simpl.
  - unfold Server.start_audio.
    destruct (match Server.audio_loop st, Server.loop_task st with
              | Some _, Some t => negb (done t)
              | _, _ => false
              end); simpl; [by split |].
    apply lookup_lt_Some in He as Hlt. split.
    + by rewrite lookup_app_l.
    + by intros j [= <-].
  - unfold Server.stop_audio.
    destruct (Server.audio_loop st) as [j|] eqn:Ha; simpl.
    + split; [by apply Hother | done].
    + split; [done |]. by rewrite Ha.
  - unfold Server.pause_audio.
    destruct (Server.audio_loop st) as [j|] eqn:Ha; simpl.
    + split; [by apply Hother | done].
    + split; [done |]. by rewrite Ha.
  - unfold Server.resume_audio.
    destruct (Server.audio_loop st) as [j|] eqn:Ha; simpl.
    + split; [by apply Hother | done].
    + split; [done |]. by rewrite Ha.
Qed.

Lemma run_commands_below_reference (done : nat -> bool)
  (url_env : option string) (cs : list Server.command) (st : Server.State)
  (i : nat) (e : Server.Engine) :
  Server.objects st !! i = Some e ->
  (forall j, Server.audio_loop st = Some j -> (i < j)%nat) ->
  Server.objects (Server.run_commands done url_env cs st) !! i = Some e.
Proof.
  revert st. induction cs as [|c cs IH]; intros st He Hbelow; simpl; [done |].
  destruct (handle_below_reference done url_env c st i e He Hbelow)
    as [He1 Hbelow1].
  by apply IH.
Qed.

(** X22. After [stop_audio], [start_audio] is never refused, whether or
    not the task of the stopped engine is done: a second engine object is
    created beside the first, which still exists with its stop signal
    raised. The server no longer refers to the stopped engine: whatever
    start, stop, pause and resume commands follow, its object stays as
    the stop left it. *)
Theorem restart_after_stop (done : nat -> bool) (url_env : option string)
  (st : Server.State) (sid : string)
  (request : option (gmap string value)) (i : nat) (e : Server.Engine)
  (cs : list Server.command) :
  Server.audio_loop st = Some i ->
  Server.objects st !! i = Some e ->
  let st1 := fst (Server.stop_audio st) in
  let st2 := fst (Server.start_audio done url_env st1 sid request) in
  snd (Server.start_audio done url_env st1 sid request) =
    [Server.Printed "[SERVER] Starting audio...";
     Server.CreateTask (length (Server.objects st));
     Server.Emit "status" "Alice Started" (Some sid)] /\
  length (Server.objects st2) = S (length (Server.objects st)) /\
  Server.objects st2 !! i = Some (Server.on_object stop e) /\
  stop_event (Server.engine (Server.on_object stop e)) = true /\
  Server.current st2 = Some (Server.new_engine url_env request) /\
  stop_event (Server.engine (Server.new_engine url_env request)) = false /\
  Server.objects (Server.run_commands done url_env cs st2) !! i =
    Some (Server.on_object stop e).
Proof.
  intros Ha He st1 st2.
  assert (H1 : st1 =
               {| Server.objects :=
                    alter (Server.on_object stop) i (Server.objects st);
                  Server.audio_loop := None;
                  Server.loop_task := None |}).
  { unfold st1, Server.stop_audio. by rewrite Ha. }
  assert (Hlen : length (Server.objects st1) = length (Server.objects st)).
  { rewrite H1. simpl. apply length_alter. }
  assert (H2 : st2 =
               {| Server.objects :=
                    Server.objects st1 ++ [Server.new_engine url_env request];
                  Server.audio_loop := Some (length (Server.objects st1));
                  Server.loop_task := Some (length (Server.objects st1)) |}).
  { unfold st2, Server.start_audio. rewrite H1. reflexivity. }
  assert (Hlt : (i < length (Server.objects st))%nat)
    by (by apply lookup_lt_Some in He).
  assert (Hold : Server.objects st2 !! i = Some (Server.on_object stop e)).
  { rewrite H2. simpl. rewrite lookup_app_l by (by rewrite Hlen).
    rewrite H1. simpl. by rewrite list_lookup_alter_eq, He. }
  split; [| split; [| split; [| split; [| split; [| split]]]]].
  - unfold Server.start_audio. rewrite H1. simpl. by rewrite length_alter.
  - rewrite H2. simpl. rewrite length_app, Hlen. simpl. lia.
  - exact Hold.
  - reflexivity.
  - rewrite H2. unfold Server.current. simpl. by apply list_lookup_middle.
  - unfold Server.new_engine.
    by destruct request as [d|]; simpl;
      repeat match goal with
             | |- context [if ?b then _ else _] => destruct b
             end.
  - apply run_commands_below_reference; [exact Hold |].
    rewrite H2. simpl. intros j [= <-]. by rewrite Hlen.
Qed.

Lemma restart_after_stop_witness :
  length
    (Server.objects
       (Server.run_commands Server.never_done None
          [Server.Start "a" None; Server.Stop; Server.Start "a" None]
          Server.initial)) = 2%nat /\
  Server.audio_loop
    (Server.run_commands Server.never_done None
       [Server.Start "a" None; Server.Stop; Server.Start "a" None]
       Server.initial) = Some 1%nat /\
  Server.objects
    (Server.run_commands Server.never_done None
       [Server.Start "a" None; Server.Stop; Server.Start "a" None;
        Server.Pause; Server.Stop; Server.Start "b" None; Server.Resume]
       Server.initial) !! 0%nat =
  Some (Server.on_object stop (Server.new_engine None None)).
Proof.
  destruct (restart_after_stop Server.never_done None
              (fst (Server.start_audio Server.never_done None Server.initial
                      "a" None)) "a" None 0%nat
              (Server.new_engine None None)
              [Server.Pause; Server.Stop; Server.Start "b" None; Server.Resume]
              eq_refl eq_refl)
    as (_ & Hlen & _ & _ & _ & _ & Hkept).
  split; [exact Hlen |]. split; [reflexivity | exact Hkept].
Defined.

(** X23. Without a referenced engine, in particular after a
    [stop_audio], any sequence of stop, pause and resume commands changes
    nothing and emits nothing, and the health answer is inactive. A text
    input is dropped in silence when its text is empty or missing, also
    when nothing is connected; a non-empty text is answered
    "Not connected" unless an engine is referenced and has a session, and
    is then sent to that engine's session as one end-of-turn input. *)
Theorem commands_without_engine (done : nat -> bool)
  (url_env : option string) (st : Server.State)
  (request : gmap string value) (cs : list Server.command) :
  (Server.audio_loop st = None ->
   Forall (fun c => Server.is_start c = false) cs ->
   Server.run_commands done url_env cs st = st /\
   Forall (fun c => Server.handle done url_env c st = (st, [])) cs /\
   Server.health st = false) /\
  Server.stop_audio (fst (Server.stop_audio st)) =
    (fst (Server.stop_audio st), []) /\
  Server.pause_audio (fst (Server.stop_audio st)) =
    (fst (Server.stop_audio st), []) /\
  (Server.truth (default (VStr "") (request !! "text")) = false ->
   Server.user_input st request = []) /\
  (Server.truth (default (VStr "") (request !! "text")) = true ->
   (forall i e, Server.audio_loop st = Some i ->
                Server.objects st !! i = Some e ->
                Server.session e = true ->
                Server.user_input st request =
                [Server.Printed
                   ("[SERVER] User text: " +:+
                    py_str (default (VStr "") (request !! "text")));
                 Server.SessionSend i (default (VStr "") (request !! "text"))
                   true]) /\
   (Server.current st = None \/
    (exists e, Server.current st = Some e /\ Server.session e = false) ->
    Server.user_input st request =
    [Server.Emit "error" "Not connected" None])).
Proof.
  split; [| split; [| split; [| split]]].
  - intros Hnone Hall.
    assert (Hstep : forall c, Server.is_start c = false ->
                              Server.handle done url_env c st = (st, [])).
    { intros [sid r | | |] Hc; try discriminate Hc; simpl;
        unfold Server.stop_audio, Server.pause_audio, Server.resume_audio;
        by rewrite Hnone. }
    split; [| split].
    + induction Hall as [|c cs Hc Hall IH]; simpl; [done |].
      by rewrite (Hstep c Hc).
    + induction Hall as [|c cs Hc Hall IH]; constructor; auto.
    + unfold Server.health. by rewrite Hnone.
  - unfold Server.stop_audio.
    by destruct (Server.audio_loop st) eqn:E; simpl; rewrite ?E.
  - unfold Server.stop_audio, Server.pause_audio.
    by destruct (Server.audio_loop st) eqn:E; simpl; rewrite ?E.
  - intros Ht. unfold Server.user_input. by rewrite Ht.
  - intros Ht. split.
    + intros i e Ha He Hs. unfold Server.user_input.
      by rewrite Ht, Ha, He, Hs.
    + unfold Server.user_input, Server.current. rewrite Ht. simpl.
      intros [Hnone | (e & He & Hs)].
      * destruct (Server.audio_loop st) as [i|]; [| done]. by rewrite Hnone.
      * destruct (Server.audio_loop st) as [i|]; [| done].
        by rewrite He, Hs.
Qed.

Lemma commands_without_engine_witness :
  Server.user_input Server.initial Server.hello =
    [Server.Emit "error" "Not connected" None] /\
  Server.user_input Server.initial ∅ = [].
Proof.
  destruct (commands_without_engine Server.never_done None Server.initial
              Server.hello []) as (_ & _ & _ & _ & Htext).
  destruct (commands_without_engine Server.never_done None Server.initial
              ∅ []) as (_ & _ & _ & Hempty & _).
  destruct (Htext eq_refl) as (_ & Hnot).
  split; [apply Hnot; by left | apply Hempty; reflexivity].
Defined.

Lemma keeps_engines_refl (st : Server.State) : Server.keeps_engines st st.
Proof. split; [done |]. intros i e He. by exists e. Qed.

Lemma keeps_engines_trans (a b c : Server.State) :
  Server.keeps_engines a b -> Server.keeps_engines b c ->
  Server.keeps_engines a c.
Proof.
  intros [Hl1 H1] [Hl2 H2]. split; [lia |].
  intros i e He. destruct (H1 i e He) as (e1 & He1 & Hs1 & Hn1).
  destruct (H2 i e1 He1) as (e2 & He2 & Hs2 & Hn2).
  exists e2. repeat split; [done | auto | congruence].
Qed.

Lemma alter_keeps_engines (f : AudioLoop -> AudioLoop) (i : nat)
  (st : Server.State) (a t : option nat) :
  (forall x, stop_event x = true -> stop_event (f x) = true) ->
  Server.keeps_engines st
    {| Server.objects := alter (Server.on_object f) i (Server.objects st);
       Server.audio_loop := a; Server.loop_task := t |}.
Proof.
  intros Hf. split; simpl; [by rewrite length_alter |].
  intros j e He. rewrite list_lookup_alter.
  destruct (decide (i = j)) as [-> | Hne].
  - rewrite He. simpl. exists (Server.on_object f e).
    split; [done |]. split; [simpl; apply Hf | done].
  - by exists e.
Qed.

Lemma handle_keeps_engines (done : nat -> bool) (url_env : option string)
  (c : Server.command) (st : Server.State) :
  Server.well_formed st ->
  Server.well_formed (fst (Server.handle done url_env c st)) /\
  Server.keeps_engines st (fst (Server.handle done url_env c st)).
Proof.
  intros [Hwa Hwt]. destruct c as [sid request | | |]; simpl.
  - unfold Server.start_audio.
    destruct (match Server.audio_loop st, Server.loop_task st with
              | Some _, Some t => negb (done t)
              | _, _ => false
              end); simpl.
    { split; [by split | apply keeps_engines_refl]. }
    split.
    + split; simpl; intros i [= <-]; rewrite length_app; simpl; lia.
    + split; simpl; [rewrite length_app; lia |].
      intros i e He. exists e. repeat split; try done.
      rewrite lookup_app_l; [done |]. by apply lookup_lt_Some in He.
  - unfold Server.stop_audio.
    destruct (Server.audio_loop st) as [i|] eqn:Ha; simpl.
    + split; [by split |]. by apply alter_keeps_engines.
    + split; [split; [by rewrite Ha | done] | apply keeps_engines_refl].
  - unfold Server.pause_audio.
    destruct (Server.audio_loop st) as [i|] eqn:Ha; simpl.
    + split; [| by apply alter_keeps_engines].
      split; simpl; setoid_rewrite length_alter; auto.
    + split; [split; [by rewrite Ha | done] | apply keeps_engines_refl].
  - unfold Server.resume_audio.
    destruct (Server.audio_loop st) as [i|] eqn:Ha; simpl.
    + split; [| by apply alter_keeps_engines].
      split; simpl; setoid_rewrite length_alter; auto.
    + split; [split; [by rewrite Ha | done] | apply keeps_engines_refl].
Qed.

(** X24. Through any sequence of start, stop, pause and resume commands
    the server's references always point at existing engine objects, no
    engine object is ever dropped from the store, and an engine whose
    stop signal is raised keeps it raised: no command brings a stopped
    engine back. *)
Theorem server_never_revives_engine (done : nat -> bool)
  (url_env : option string) (cs : list Server.command) (st : Server.State) :
  Server.well_formed st ->
  Server.well_formed (Server.run_commands done url_env cs st) /\
  (length (Server.objects st)
   <= length (Server.objects (Server.run_commands done url_env cs st)))%nat /\
  forall i e,
    Server.objects st !! i = Some e ->
    exists e',
      Server.objects (Server.run_commands done url_env cs st) !! i = Some e' /\
      (stop_event (Server.engine e) = true ->
       stop_event (Server.engine e') = true) /\
      Server.session e' = Server.session e.
Proof.
  intros Hwf.
  assert (H : Server.well_formed (Server.run_commands done url_env cs st) /\
              Server.keeps_engines st (Server.run_commands done url_env cs st)).
  { revert st Hwf. induction cs as [|c cs IH]; intros st Hwf; simpl.
    { split; [done | apply keeps_engines_refl]. }
    destruct (handle_keeps_engines done url_env c st Hwf) as [Hwf1 Hk1].
    destruct (IH _ Hwf1) as [Hwf2 Hk2].
    split; [done |]. by apply (keeps_engines_trans _ _ _ Hk1 Hk2). }
  destruct H as [Hwf' [Hlen Hkeep]].
  split; [exact Hwf' |]. split; [exact Hlen | exact Hkeep].
Qed.

Lemma server_never_revives_engine_witness :
  exists e',
    Server.objects
      (Server.run_commands Server.never_done None
         [Server.Stop; Server.Resume; Server.Start "a" None; Server.Pause]
         (Server.run_commands Server.never_done None
            [Server.Start "a" None; Server.Stop] Server.initial)) !! 0%nat
    = Some e' /\
    stop_event (Server.engine e') = true.
Proof.
  destruct (server_never_revives_engine Server.never_done None
              [Server.Stop; Server.Resume; Server.Start "a" None; Server.Pause]
              (Server.run_commands Server.never_done None
                 [Server.Start "a" None; Server.Stop] Server.initial))
    as (_ & _ & Hkeep).
  { split; simpl; intros i [=]. }
  destruct (Hkeep 0%nat (Server.on_object stop (Server.new_engine None None))
              eq_refl) as (e' & He' & Hstop & _).
  exists e'. split; [exact He' | apply Hstop; reflexivity].
Defined.

Lemma listen_loop_paused_sleeps (post : http_client)
  (rounds : list capture_round) (self : AudioLoop) :
  stop_event self = false ->
  paused self = true ->
  Forall (fun r => while_reading r = []) rounds ->
  listen_loop post rounds self =
  {| final := self;
     effects := replicate (length rounds) (Sleep (1 # 10));
     state := Suspended |}.
Proof.
  intros Hstop Hpaused Hall.
  induction Hall as [|r rounds Hr Hall IH]; simpl; rewrite Hstop; [done |].
  rewrite Hpaused, Hr. simpl. by rewrite IH.
Qed.

Lemma unpause_unpaused (a : AudioLoop) :
  paused a = false -> set_paused false (set_paused true a) = a.
Proof. destruct a. simpl. by intros ->. Qed.

(** X25. [pause_audio] and [resume_audio] act on the referenced engine
    only and only on its pause flag: after a pause the engine's capture
    loop (not stopped, left alone) does nothing but sleep, whatever the
    microphone delivers; a pause followed by a resume gives the engine
    back unpaused, and for an engine that was not paused the whole server
    state is as before. *)
Theorem pause_resume_round_trip (post : http_client) (st : Server.State)
  (i : nat) (e : Server.Engine) (rounds : list capture_round) :
  Server.audio_loop st = Some i ->
  Server.objects st !! i = Some e ->
  let st1 := fst (Server.pause_audio st) in
  let st2 := fst (Server.resume_audio st1) in
  Server.current st1 = Some (Server.on_object (set_paused true) e) /\
  Server.current st2 = Some (Server.on_object (set_paused false) e) /\
  (forall j, j <> i ->
     Server.objects st1 !! j = Server.objects st !! j /\
     Server.objects st2 !! j = Server.objects st !! j) /\
  (paused (Server.engine e) = false -> st2 = st) /\
  (stop_event (Server.engine e) = false ->
   Forall (fun r => while_reading r = []) rounds ->
   listen_loop post rounds
     (Server.engine (Server.on_object (set_paused true) e)) =
   {| final := Server.engine (Server.on_object (set_paused true) e);
      effects := replicate (length rounds) (Sleep (1 # 10));
      state := Suspended |}).
Proof.
  intros Ha He st1 st2.
  assert (H1 : st1 =
               {| Server.objects :=
                    alter (Server.on_object (set_paused true)) i
                      (Server.objects st);
                  Server.audio_loop := Some i;
                  Server.loop_task := Server.loop_task st |}).
  { unfold st1, Server.pause_audio. by rewrite Ha. }
  assert (H2 : st2 =
               {| Server.objects :=
                    alter (Server.on_object (set_paused false)) i
                      (alter (Server.on_object (set_paused true)) i
                         (Server.objects st));
                  Server.audio_loop := Some i;
                  Server.loop_task := Server.loop_task st |}).
  { unfold st2, Server.resume_audio. by rewrite H1. }
  split; [| split; [| split; [| split]]].
  - rewrite H1. unfold Server.current. simpl.
    by rewrite list_lookup_alter_eq, He.
  - rewrite H2. unfold Server.current. simpl.
    by rewrite !list_lookup_alter_eq, He.
  - intros j Hne. rewrite H1, H2. simpl.
    by rewrite !list_lookup_alter_ne.
  - intros Hunpaused. rewrite H2. destruct st as [objs a t]. simpl in *.
    subst a. f_equal. apply list_eq. intros j.
    destruct (decide (i = j)) as [<- | Hne].
    + rewrite !list_lookup_alter_eq, He. simpl. f_equal.
      destruct e as [a s]. unfold Server.on_object. simpl in *.
      by rewrite (unpause_unpaused a Hunpaused).
    + by rewrite !list_lookup_alter_ne.
  - intros Hstop Hall. by apply listen_loop_paused_sleeps.
Qed.

Lemma pause_resume_round_trip_witness :
  fst (Server.resume_audio
         (fst (Server.pause_audio
                 (fst (Server.start_audio Server.never_done None
                         Server.initial "a" None))))) =
  fst (Server.start_audio Server.never_done None Server.initial "a" None).
Proof.
  destruct (pause_resume_round_trip no_service
              (fst (Server.start_audio Server.never_done None Server.initial
                      "a" None)) 0%nat (Server.new_engine None None) []
              eq_refl eq_refl) as (_ & _ & _ & Hback & _).
  apply Hback. reflexivity.
Defined.
